(** * Parquet writer of Velox: batching, flushing and schema reconciliation

    A shallow embedding of [velox/dwio/parquet/writer/Writer.cpp]:
    the buffering output stream [ArrowDataBufferSink], the schema helpers
    [validateSchemaRecursive] and [updateFieldNameRecursive], and the
    [Writer] object with its staging context [ArrowContext].

    C++ objects become records, member functions become functions in a
    state-and-exception monad over the object they mutate.  The Arrow
    bridge, the Parquet encoder, the destination file sink and the flush
    policy are collaborators behind interfaces; they are type classes
    here, and every theorem holds for all their instances. *)

From Stdlib Require Import ZArith List String Ascii Bool Lia.
From Stdlib.Strings Require Import Byte.
From stdpp Require Import base option list strings gmap.
Import ListNotations.

Local Open Scope Z_scope.
Local Open Scope string_scope.
Local Open Scope list_scope.

(** ** Exceptions, faults and the state monad of member functions *)

(** What a C++ call can throw.  [VELOX_USER_CHECK] and [VELOX_USER_FAIL]
    throw a user error, [VELOX_CHECK] and [VELOX_FAIL] a runtime error,
    [PARQUET_THROW_NOT_OK] and [PARQUET_ASSIGN_OR_THROW] turn an Arrow
    status into a [ParquetStatusException]; [std::vector::at] throws
    [std::out_of_range]; the destination sink throws on an I/O failure;
    [BridgeException] is whatever [exportToArrow] throws, whose class this
    file does not determine. *)
Inductive Exception : Type :=
| VeloxUserError (message : string)
| VeloxRuntimeError (message : string)
| ParquetStatusException (what : string)
| StdOutOfRange
| IOError
| BridgeException.

(** Executions that leave the language's defined behaviour: dereferencing
    a null smart pointer, indexing a vector past its end with
    [operator[]], and [ValueOrDie] on a failed result (which aborts). *)
Inductive Fault : Type :=
| NullPointerDereference
| IndexOutOfBounds
| ValueOrDieAbort.

(** Outcome of a member function on an object of type [S]: it returns,
    it throws (the object keeps the mutations made before the throw), or
    it faults (the state is the one reached when the fault happened). *)
Inductive outcome (S A : Type) : Type :=
| Returns (a : A) (s : S)
| Throws (e : Exception) (s : S)
| Faults (f : Fault) (s : S).
Arguments Returns {S A} a s.
Arguments Throws {S A} e s.
Arguments Faults {S A} f s.

Definition M (S A : Type) : Type := S -> outcome S A.

Definition ret {S A} (a : A) : M S A := fun s => Returns a s.
Definition throw {S A} (e : Exception) : M S A := fun s => Throws e s.
Definition fault {S A} (f : Fault) : M S A := fun s => Faults f s.
Definition bind {S A B} (m : M S A) (k : A -> M S B) : M S B :=
  fun s =>
    match m s with
    | Returns a s' => k a s'
    | Throws e s' => Throws e s'
    | Faults f s' => Faults f s'
    end.
Definition get {S} : M S S := fun s => Returns s s.
Definition put {S} (s : S) : M S unit := fun _ => Returns tt s.
Definition modify {S} (f : S -> S) : M S unit := fun s => Returns tt (f s).

Declare Scope cpp_scope.
Delimit Scope cpp_scope with cpp.
Notation "x <- m ;; k" := (bind m (fun x => k))
  (at level 100, m at next level, right associativity) : cpp_scope.
Notation "m ;;; k" := (bind m (fun _ => k))
  (at level 100, right associativity) : cpp_scope.

(** [m] throws nothing but exceptions that satisfy [allowed]. *)
Definition throwsOnly {S A} (allowed : Exception -> Prop) (m : M S A) : Prop :=
  forall s e s', m s = Throws e s' -> allowed e.

(** The call did not return: it threw or faulted, in state [s]. *)
Definition stopsAt {S A} (s : S) (o : outcome S A) : Prop :=
  match o with
  | Returns _ _ => False
  | Throws _ s' | Faults _ s' => s' = s
  end.

(** State reached by an outcome, whatever its kind. *)
Definition final_state {S A} (o : outcome S A) : S :=
  match o with
  | Returns _ s | Throws _ s | Faults _ s => s
  end.

(** ** Velox logical types *)

Local Set Warnings "-register-all".

Inductive TypeKind : Type :=
| BOOLEAN | TINYINT | SMALLINT | INTEGER | BIGINT | REAL | DOUBLE
| VARCHAR | VARBINARY | TIMESTAMP | HUGEINT | UNKNOWN.

(** A [Type] is a scalar leaf or one of the three containers.  A [RowType]
    keeps its field names and children in two vectors of equal size; the
    list of pairs is that pair of vectors. *)
Inductive Type_ : Type :=
| Scalar (kind : TypeKind)
| ARRAY (elementType : Type_)
| MAP (keyType valueType : Type_)
| ROW (fields : list (string * Type_)).

Definition RowType : Type := list (string * Type_).

(** [RowTypePtr] is a shared pointer and may be null. *)
Definition RowTypePtr : Type := option RowType.

Definition TypeKind_eqb (a b : TypeKind) : bool :=
  match a, b with
  | BOOLEAN, BOOLEAN | TINYINT, TINYINT | SMALLINT, SMALLINT
  | INTEGER, INTEGER | BIGINT, BIGINT | REAL, REAL | DOUBLE, DOUBLE
  | VARCHAR, VARCHAR | VARBINARY, VARBINARY | TIMESTAMP, TIMESTAMP
  | HUGEINT, HUGEINT | UNKNOWN, UNKNOWN => true
  | _, _ => false
  end.

(** Modelled from the spec: [Type::equivalent] (velox/type/Type.cpp) is
    called by [Writer::write] but is not part of this file.  The
    specification describes the check as exact equality of the batch type
    and the schema: same field order, same field names, same nested
    types.  This is that comparison, written structurally. *)
Fixpoint equivalent (a b : Type_) {struct a} : bool :=
  match a, b with
  | Scalar k1, Scalar k2 => TypeKind_eqb k1 k2
  | ARRAY e1, ARRAY e2 => equivalent e1 e2
  | MAP k1 v1, MAP k2 v2 => equivalent k1 k2 && equivalent v1 v2
  | ROW fs1, ROW fs2 =>
      (fix fields_equivalent (l1 l2 : list (string * Type_)) : bool :=
         match l1, l2 with
         | [], [] => true
         | (n1, t1) :: r1, (n2, t2) :: r2 =>
             String.eqb n1 n2 && equivalent t1 t2 && fields_equivalent r1 r2
         | _, _ => false
         end) fs1 fs2
  | _, _ => false
  end.

(** ** [validateSchemaRecursive] *)

(** The loop over [schema->names()] with the set [uniqueNames]. *)
Fixpoint checkFieldNames (fieldNames : list string)
    (uniqueNames : gset string) : Exception + unit :=
  match fieldNames with
  | [] => inr tt
  | name :: rest =>
      if String.eqb name "" then
        inl (VeloxUserError "Field name must not be empty.")
      else if bool_decide (name ∈ uniqueNames) then
        inl (VeloxUserError
               ("File schema should not have duplicate columns: " ++ name))
      else checkFieldNames rest ({[ name ]} ∪ uniqueNames)
  end.

(** The body of [validateSchemaRecursive] on a non-null row type: the
    names of this level first, then, in order, each child for which
    [dynamic_pointer_cast<const RowType>] succeeds. *)
Fixpoint validateRowType (schema : Type_) {struct schema} : Exception + unit :=
  match schema with
  | ROW fields =>
      match checkFieldNames (map fst fields) ∅ with
      | inl e => inl e
      | inr _ =>
          (fix eachChild (fs : list (string * Type_)) : Exception + unit :=
             match fs with
             | [] => inr tt
             | (_, child) :: rest =>
                 match child with
                 | ROW _ =>
                     match validateRowType child with
                     | inl e => inl e
                     | inr _ => eachChild rest
                     end
                 | _ => eachChild rest
                 end
             end) fields
      end
  | _ => inr tt
  end.

(** The second loop of [validateSchemaRecursive], on its own. *)
Fixpoint validateChildren (fs : list (string * Type_)) : Exception + unit :=
  match fs with
  | [] => inr tt
  | (_, child) :: rest =>
      match child with
      | ROW _ =>
          match validateRowType child with
          | inl e => inl e
          | inr _ => validateChildren rest
          end
      | _ => validateChildren rest
      end
  end.

Definition validateSchemaRecursive (schema : RowTypePtr) : Exception + unit :=
  match schema with
  | None => inl (VeloxUserError "Field schema must not be empty.")
  | Some fields => validateRowType (ROW fields)
  end.

(** Field names of every struct level of a type, wherever the struct sits
    (under a struct, a list or a map). *)
Fixpoint structLevels (t : Type_) : list (list string) :=
  match t with
  | Scalar _ => []
  | ARRAY e => structLevels e
  | MAP k v => structLevels k ++ structLevels v
  | ROW fields =>
      map fst fields ::
      (fix eachChild (fs : list (string * Type_)) : list (list string) :=
         match fs with
         | [] => []
         | (_, child) :: rest => structLevels child ++ eachChild rest
         end) fields
  end.

(** Field names of the struct levels reached from a row type through
    struct-typed fields only. *)
Fixpoint rowLevels (t : Type_) : list (list string) :=
  match t with
  | ROW fields =>
      map fst fields ::
      (fix eachChild (fs : list (string * Type_)) : list (list string) :=
         match fs with
         | [] => []
         | (_, child) :: rest => rowLevels child ++ eachChild rest
         end) fields
  | _ => []
  end.

(** A level is ill-named when it has an empty name or a repeated name. *)
Definition illNamed (level : list string) : Prop :=
  "" ∈ level ∨ ¬ NoDup level.

(** The messages of the three checks of [validateSchemaRecursive], and the
    exceptions that some call of it raises. *)
Definition validationMessage (m : string) : Prop :=
  m = "Field schema must not be empty."
  ∨ m = "Field name must not be empty."
  ∨ ∃ n, m = ("File schema should not have duplicate columns: " ++ n)%string.

Definition isValidationError (e : Exception) : Prop :=
  ∃ m, e = VeloxUserError m ∧ validationMessage m.

(** ** Arrow schemas

    The part of Apache Arrow's type API that the writer calls: fields,
    nested data types, and the factory functions [struct_], [list] and
    [map].  Every non-nested data type is a [Primitive] leaf. *)

Inductive DataType : Type :=
| Primitive (id : string)
| StructType (fields : list Field)
| ListType (value_field : Field)
| MapType (key_field item_field : Field) (keys_sorted : bool)
with Field : Type :=
| mkField (name : string) (type : DataType) (nullable : bool)
    (metadata : list (string * string)).

Definition Schema : Type := list Field.

Definition Field_name (f : Field) : string :=
  match f with mkField n _ _ _ => n end.
Definition Field_type (f : Field) : DataType :=
  match f with mkField _ t _ _ => t end.
Definition Field_nullable (f : Field) : bool :=
  match f with mkField _ _ b _ => b end.
Definition Field_metadata (f : Field) : list (string * string) :=
  match f with mkField _ _ _ m => m end.

(** [Field::WithName] and [Field::WithType] copy the field and replace
    one component. *)
Definition WithName (f : Field) (name : string) : Field :=
  mkField name (Field_type f) (Field_nullable f) (Field_metadata f).
Definition WithType (f : Field) (type : DataType) : Field :=
  mkField (Field_name f) type (Field_nullable f) (Field_metadata f).

(** [arrow::struct_(fields)] and [arrow::list(value_field)] keep the
    fields they are given. *)
Definition arrow_struct_ (fields : list Field) : DataType := StructType fields.
Definition arrow_list (value_field : Field) : DataType := ListType value_field.

(** [arrow::map(key_type, item_type)] takes two data types, not fields:
    it makes its own key field, named key and not nullable, and its own
    item field, named value and nullable. *)
Definition arrow_map (key_type item_type : DataType) : DataType :=
  MapType (mkField "key" key_type false []) (mkField "value" item_type true [])
          false.

(** The three [dynamic_pointer_cast]s of [updateFieldNameRecursive]; [None]
    is the null pointer of a failed cast.  [MapType] derives from
    [ListType], whose value field is the struct of entries. *)
Definition as_StructType (t : DataType) : option (list Field) :=
  match t with StructType fs => Some fs | _ => None end.
Definition as_BaseListType (t : DataType) : option Field :=
  match t with
  | ListType vf => Some vf
  | MapType k i _ => Some (mkField "entries" (StructType [k; i]) false [])
  | _ => None
  end.
Definition as_MapType (t : DataType) : option (Field * Field) :=
  match t with MapType k i _ => Some (k, i) | _ => None end.

(** ** [updateFieldNameRecursive]

    The default argument [name = ""] is passed explicitly.  A fault is a
    null [structType], [listType] or [arrowMapType] that is dereferenced,
    or [fields()[i]] past the end. *)
Fixpoint updateFieldNameRecursive (field : Field) (type : Type_)
    (name : string) {struct type} : Fault + Field :=
  match type with
  | ROW rowType =>
      let newField := WithName field name in
      let structType := as_StructType (Field_type newField) in
      match
        (fix eachChild (cs : list (string * Type_)) (i : nat)
           : Fault + list Field :=
           match cs with
           | [] => inr []
           | (childName, childType) :: rest =>
               match structType with
               | None => inl NullPointerDereference
               | Some structFields =>
                   match structFields !! i with
                   | None => inl IndexOutOfBounds
                   | Some f =>
                       match updateFieldNameRecursive f childType childName with
                       | inl e => inl e
                       | inr f' =>
                           match eachChild rest (S i) with
                           | inl e => inl e
                           | inr fs => inr (f' :: fs)
                           end
                       end
                   end
               end
           end) rowType 0%nat
      with
      | inl e => inl e
      | inr newFields => inr (WithType newField (arrow_struct_ newFields))
      end
  | ARRAY elementType =>
      let newField := WithName field name in
      match as_BaseListType (Field_type newField) with
      | None => inl NullPointerDereference
      | Some elementField =>
          match updateFieldNameRecursive elementField elementType "" with
          | inl e => inl e
          | inr f' => inr (WithType newField (arrow_list f'))
          end
      end
  | MAP keyType valueType =>
      let newField := WithName field name in
      match as_MapType (Field_type newField) with
      | None => inl NullPointerDereference
      | Some (key_field, item_field) =>
          match updateFieldNameRecursive key_field keyType "" with
          | inl e => inl e
          | inr newKeyField =>
              match updateFieldNameRecursive item_field valueType "" with
              | inl e => inl e
              | inr newValueField =>
                  inr (WithType newField
                         (arrow_map (Field_type newKeyField)
                                    (Field_type newValueField)))
              end
          end
      end
  | Scalar _ =>
      if negb (String.eqb name "") then inr (WithName field name)
      else inr field
  end.

(** The loop of the struct case of [updateFieldNameRecursive], on its
    own. *)
Fixpoint updateChildren (structType : option (list Field))
    (cs : list (string * Type_)) (i : nat) : Fault + list Field :=
  match cs with
  | [] => inr []
  | (childName, childType) :: rest =>
      match structType with
      | None => inl NullPointerDereference
      | Some structFields =>
          match structFields !! i with
          | None => inl IndexOutOfBounds
          | Some f =>
              match updateFieldNameRecursive f childType childName with
              | inl e => inl e
              | inr f' =>
                  match updateChildren structType rest (S i) with
                  | inl e => inl e
                  | inr fs => inr (f' :: fs)
                  end
              end
          end
      end
  end.

(** The loop of [Writer::write] that renames the top-level fields of the
    imported schema: [arrowSchema->fields()[i]] against
    [schema_->childAt(i)] and [schema_->nameOf(i)]. *)
Fixpoint updateTopLevelFields (arrowFields : list Field) (schema : RowType)
    (i : nat) : Fault + list Field :=
  match schema with
  | [] => inr []
  | (childName, childType) :: rest =>
      match arrowFields !! i with
      | None => inl IndexOutOfBounds
      | Some f =>
          match updateFieldNameRecursive f childType childName with
          | inl e => inl e
          | inr f' =>
              match updateTopLevelFields arrowFields rest (S i) with
              | inl e => inl e
              | inr fs => inr (f' :: fs)
              end
          end
      end
  end.

(** ** Fixed-width integers *)

(** Conversion of a mathematical integer to [int64_t] and to [uint64_t]:
    the value modulo 2^64, in the signed or the unsigned range. *)
Definition to_uint64 (z : Z) : Z := z mod 2 ^ 64.
Definition to_int64 (z : Z) : Z := (z + 2 ^ 63) mod 2 ^ 64 - 2 ^ 63.

(** ** Velox vectors, as the writer observes them *)

Module VectorEncoding.
Inductive Simple : Type :=
| BIASED | CONSTANT | DICTIONARY | FLAT | SEQUENCE | ROW | MAP | ARRAY
| LAZY | FUNCTION.
End VectorEncoding.

(** A vector is what [Writer::write] and [Writer::needFlatten] read from
    it: [asRowVector] is the result of [dynamic_pointer_cast<RowVector>]
    (the children when the cast succeeds, [None] for the null pointer),
    the other fields are the accessors of the same name.  [contents]
    stands for the values held. *)
Inductive Vector : Type :=
| mkVector (encoding : VectorEncoding.Simple) (type : Type_) (size : Z)
    (estimateFlatSize : Z) (asRowVector : option (list Vector))
    (hasValueVector : bool) (wrappedIsFlatEncoding : bool) (isScalar : bool)
    (contents : list Z).

Definition Vector_encoding (v : Vector) : VectorEncoding.Simple :=
  match v with mkVector e _ _ _ _ _ _ _ _ => e end.
Definition Vector_type (v : Vector) : Type_ :=
  match v with mkVector _ t _ _ _ _ _ _ _ => t end.
Definition Vector_size (v : Vector) : Z :=
  match v with mkVector _ _ n _ _ _ _ _ _ => n end.
Definition Vector_estimateFlatSize (v : Vector) : Z :=
  match v with mkVector _ _ _ b _ _ _ _ _ => b end.
Definition Vector_asRowVector (v : Vector) : option (list Vector) :=
  match v with mkVector _ _ _ _ r _ _ _ _ => r end.
Definition Vector_hasValueVector (v : Vector) : bool :=
  match v with mkVector _ _ _ _ _ b _ _ _ => b end.
Definition Vector_wrappedIsFlatEncoding (v : Vector) : bool :=
  match v with mkVector _ _ _ _ _ _ b _ _ => b end.
Definition Vector_isScalar (v : Vector) : bool :=
  match v with mkVector _ _ _ _ _ _ _ b _ => b end.

Definition isWrapperEncoding (e : VectorEncoding.Simple) : bool :=
  match e with
  | VectorEncoding.DICTIONARY | VectorEncoding.CONSTANT => true
  | _ => false
  end.

(** [Writer::needFlatten]: the [VELOX_CHECK_NOT_NULL] on the cast, then
    [std::any_of] over the children. *)
Definition needFlatten (data : Vector) : Exception + bool :=
  match Vector_asRowVector data with
  | None =>
      inl (VeloxRuntimeError "Arrow export expects a RowVector as input data.")
  | Some rowChildren =>
      inr (existsb
             (fun child =>
                let isNestedWrapped :=
                  isWrapperEncoding (Vector_encoding child)
                  && Vector_hasValueVector child
                  && negb (Vector_wrappedIsFlatEncoding child) in
                let isComplex := negb (Vector_isScalar child) in
                isNestedWrapped || isComplex)
             rowChildren)
  end.

(** ** Collaborators *)

(** [dwio::common::StripeProgress], with the two members that
    [getStripeProgress] sets. *)
Record StripeProgress : Type := mkStripeProgress {
  stripeRowCount : Z;
  stripeSizeEstimate : Z
}.

Definition getStripeProgress (stagingRows stagingBytes : Z) : StripeProgress :=
  {| stripeRowCount := stagingRows; stripeSizeEstimate := stagingBytes |}.

(** The flush policy held in [flushPolicy_]: the one made by the factory
    of the options when there is one, a [DefaultFlushPolicy] otherwise.
    Both are declared outside this file; the writer only calls
    [shouldFlush] and [rowsInRowGroup]. *)
Class FlushPolicy : Type := {
  shouldFlush : StripeProgress -> bool;
  rowsInRowGroup : Z
}.

(** The bridge from Velox vectors to Arrow: [BaseVector::flattenVector],
    the two [exportToArrow] overloads ([None] when they throw),
    [arrow::ImportSchema], [arrow::ImportRecordBatch] (the columns of the
    imported batch; [None] for a failed result), and the type test that
    [arrow::ChunkedArray::Make] applies to each chunk.  [Array] is a
    column fragment, [arrow::Array]. *)
Class ArrowBridge : Type := {
  Array : Type;
  ArrowArray : Type;
  ArrowSchema : Type;
  flattenVector : Vector -> Vector;
  exportToArrow_array : Vector -> option ArrowArray;
  exportToArrow_schema : Vector -> option ArrowSchema;
  ImportSchema : ArrowSchema -> option Schema;
  ImportRecordBatch : ArrowArray -> Schema -> option (list Array);
  Array_hasType : Array -> DataType -> bool
}.

Section ArrowTables.
Context `{ArrowBridge}.

Record ChunkedArray : Type := mkChunkedArray {
  chunks : list Array;
  ChunkedArray_type : DataType
}.

(** [arrow::ChunkedArray::Make(chunks, type)]: fails when a chunk is not
    of the given type. *)
Definition ChunkedArray_Make (arrays : list Array) (type : DataType)
    : option ChunkedArray :=
  if forallb (fun a => Array_hasType a type) arrays
  then Some (mkChunkedArray arrays type) else None.

(** [arrow::Table::Make(schema, columns, num_rows)]. *)
Record Table : Type := mkTable {
  Table_schema : Schema;
  Table_columns : list ChunkedArray;
  Table_num_rows : Z
}.

(** [arrow::RecordBatch]: its schema and one array per field. *)
Record RecordBatch : Type := mkRecordBatch {
  RecordBatch_schema : Schema;
  RecordBatch_columns : list Array
}.
End ArrowTables.

(** Compression kinds of Velox and of the encoder. *)
Inductive CompressionKind : Type :=
| CompressionKind_NONE | CompressionKind_ZLIB | CompressionKind_SNAPPY
| CompressionKind_LZO | CompressionKind_ZSTD | CompressionKind_LZ4
| CompressionKind_GZIP | CompressionKind_MAX.

Inductive Compression : Type :=
| Compression_UNCOMPRESSED | Compression_SNAPPY | Compression_GZIP
| Compression_ZSTD | Compression_LZ4_HADOOP.

Definition getArrowParquetCompression (compression : CompressionKind)
    : Exception + Compression :=
  match compression with
  | CompressionKind_SNAPPY => inr Compression_SNAPPY
  | CompressionKind_GZIP => inr Compression_GZIP
  | CompressionKind_ZSTD => inr Compression_ZSTD
  | CompressionKind_NONE => inr Compression_UNCOMPRESSED
  | CompressionKind_LZ4 => inr Compression_LZ4_HADOOP
  | _ => inl (VeloxRuntimeError "Unsupported compression")
  end.

(** The members of [parquet::WriterOptions] and of the encoder's
    [WriterProperties] that the model keeps: the compression kinds, whose
    mapping can fail, the row-group length and the int96 switch.  The
    other settings go to the encoder's builder as they are. *)
Record WriterOptions : Type := mkWriterOptions {
  compressionKind : option CompressionKind;
  columnCompressionsMap : list (string * CompressionKind);
  writeInt96AsTimestamp : bool
}.

Record WriterProperties : Type := mkWriterProperties {
  default_compression : Compression;
  column_compression : list (string * Compression);
  max_row_group_length : Z
}.

Fixpoint columnCompressions (m : list (string * CompressionKind))
    : Exception + list (string * Compression) :=
  match m with
  | [] => inr []
  | (column, kind) :: rest =>
      match getArrowParquetCompression kind with
      | inl e => inl e
      | inr c =>
          match columnCompressions rest with
          | inl e => inl e
          | inr cs => inr ((column, c) :: cs)
          end
      end
  end.

Definition getArrowParquetWriterOptions `{FlushPolicy}
    (options : WriterOptions) : Exception + WriterProperties :=
  match getArrowParquetCompression
          (default CompressionKind_NONE (compressionKind options)) with
  | inl e => inl e
  | inr c =>
      match columnCompressions (columnCompressionsMap options) with
      | inl e => inl e
      | inr cs =>
          inr {| default_compression := c;
                 column_compression := cs;
                 max_row_group_length := to_int64 rowsInRowGroup |}
      end
  end.

(** The Parquet encoder, [arrow::FileWriter].  Each call may write bytes
    to the output stream it was opened on and then succeeds (the encoder
    in its next state) or fails. *)
Class ParquetEncoder `{ArrowBridge} : Type := {
  FileWriter : Type;
  FileWriter_Open :
    Schema -> WriterProperties -> bool -> list byte * option FileWriter;
  FileWriter_WriteTable :
    FileWriter -> Table -> Z -> list byte * option FileWriter;
  FileWriter_Close : FileWriter -> list byte * bool
}.

(** The destination, [dwio::common::FileSink]: the buffers it has
    received, in order, and whether it is closed.  The class decides
    which calls fail with an I/O error. *)
Record FileSink : Type := mkFileSink {
  FileSink_received : list (list byte);
  FileSink_isClosed : bool
}.

Class Destination : Type := {
  write_succeeds : FileSink -> list byte -> bool;
  close_succeeds : FileSink -> bool
}.

(** ** [ArrowDataBufferSink]

    The output stream handed to the encoder.  [buffer_] is the content of
    the [DataBuffer]; its capacity, which [Write] reserves ahead by
    [growRatio_], changes no content and is read by no other member, so it
    is not kept.  [sink_] is the owning pointer to the destination, null
    after [abort]. *)
Record ArrowDataBufferSink : Type := mkArrowDataBufferSink {
  sink_ : option FileSink;
  buffer_ : list byte;
  bytesFlushed_ : Z
}.

Definition ArrowDataBufferSink_new (sink : FileSink) : ArrowDataBufferSink :=
  {| sink_ := Some sink; buffer_ := []; bytesFlushed_ := 0 |}.

Section Stream.
Context `{Destination}.
Local Open Scope cpp_scope.

(** Both overloads of [Write] append the bytes to the buffer. *)
Definition Sink_Write (data : list byte) : M ArrowDataBufferSink unit :=
  modify (fun s =>
    {| sink_ := sink_ s;
       buffer_ := buffer_ s ++ data;
       bytesFlushed_ := bytesFlushed_ s |}).

(** [Flush]: the counter first, then [sink_->write(std::move(buffer_))].
    The buffer is moved into the call, which leaves it empty whether or
    not the destination then fails. *)
Definition Sink_Flush : M ArrowDataBufferSink unit :=
  modify (fun s =>
    {| sink_ := sink_ s;
       buffer_ := buffer_ s;
       bytesFlushed_ :=
         to_int64 (bytesFlushed_ s + Z.of_nat (length (buffer_ s))) |}) ;;;
  s <- get ;;
  match sink_ s with
  | None => fault NullPointerDereference
  | Some sink =>
      if write_succeeds sink (buffer_ s) then
        put {| sink_ :=
                 Some {| FileSink_received :=
                           FileSink_received sink ++ [buffer_ s];
                         FileSink_isClosed := FileSink_isClosed sink |};
               buffer_ := [];
               bytesFlushed_ := bytesFlushed_ s |}
      else
        put {| sink_ := Some sink;
               buffer_ := [];
               bytesFlushed_ := bytesFlushed_ s |} ;;;
        throw IOError
  end.

(** [Tell] is a [const] member: it reads the two sizes. *)
Definition Sink_Tell : M ArrowDataBufferSink Z :=
  s <- get ;;
  ret (to_int64 (bytesFlushed_ s + Z.of_nat (length (buffer_ s)))).

Definition Sink_Close : M ArrowDataBufferSink unit :=
  Sink_Flush ;;;
  s <- get ;;
  match sink_ s with
  | None => fault NullPointerDereference
  | Some sink =>
      if close_succeeds sink then
        put {| sink_ :=
                 Some {| FileSink_received := FileSink_received sink;
                         FileSink_isClosed := true |};
               buffer_ := buffer_ s;
               bytesFlushed_ := bytesFlushed_ s |}
      else throw IOError
  end.

Definition Sink_closed : M ArrowDataBufferSink bool :=
  s <- get ;;
  match sink_ s with
  | None => fault NullPointerDereference
  | Some sink => ret (FileSink_isClosed sink)
  end.

Definition Sink_abort : M ArrowDataBufferSink unit :=
  modify (fun s =>
    {| sink_ := None; buffer_ := []; bytesFlushed_ := bytesFlushed_ s |}).

(** The operations of a stream that a caller interleaves. *)
Inductive SinkOp : Type :=
| OpWrite (data : list byte)
| OpFlush.

Definition sinkStep (s : ArrowDataBufferSink) (op : SinkOp)
    : ArrowDataBufferSink :=
  match op with
  | OpWrite data => final_state (Sink_Write data s)
  | OpFlush => final_state (Sink_Flush s)
  end.

Definition sinkRun (ops : list SinkOp) (s : ArrowDataBufferSink)
    : ArrowDataBufferSink :=
  fold_left sinkStep ops s.
End Stream.

(** What a sequence of stream operations says by itself: the bytes
    written since the last flush, and the total size of the bytes written
    before it. *)
Fixpoint bufferedAfter (ops : list SinkOp) (buffered : list byte)
    : list byte :=
  match ops with
  | [] => buffered
  | OpWrite data :: rest => bufferedAfter rest (buffered ++ data)
  | OpFlush :: rest => bufferedAfter rest []
  end.

Fixpoint flushedAfter (ops : list SinkOp) (buffered : list byte) (flushed : Z)
    : Z :=
  match ops with
  | [] => flushed
  | OpWrite data :: rest => flushedAfter rest (buffered ++ data) flushed
  | OpFlush :: rest =>
      flushedAfter rest [] (flushed + Z.of_nat (length buffered))
  end.

(** ** [ArrowContext] and [Writer] *)

Section WriterState.
Context `{ArrowBridge} `{!ParquetEncoder}.

Record ArrowContext : Type := mkArrowContext {
  writer : option FileWriter;
  schema : option Schema;
  properties : WriterProperties;
  stagingRows : Z;
  stagingBytes : Z;
  stagingChunks : list (list Array)
}.

(** The calls made on the encoder, kept for specification only. *)
Inductive EncoderCall : Type :=
| Call_Open (s : Schema) (p : WriterProperties) (int96 : bool)
| Call_WriteTable (table : Table) (chunk_size : Z)
| Call_Close.

(** The [Writer] object.  [schema_] is not null once the constructor
    has returned; [arrowContext_] is null after [abort].
    [encoderCalls] is a ghost member: the history of calls on the
    encoder, oldest first. *)
Record Writer : Type := mkWriter {
  stream_ : ArrowDataBufferSink;
  arrowContext_ : option ArrowContext;
  schema_ : RowType;
  writeInt96AsTimestamp_ : bool;
  encoderCalls : list EncoderCall
}.
End WriterState.

Section WriterMembers.
Context `{ArrowBridge} `{!ParquetEncoder} `{FlushPolicy} `{Destination}.
Local Open Scope cpp_scope.

Definition setStream (s : ArrowDataBufferSink) (w : Writer) : Writer :=
  {| stream_ := s;
     arrowContext_ := arrowContext_ w;
     schema_ := schema_ w;
     writeInt96AsTimestamp_ := writeInt96AsTimestamp_ w;
     encoderCalls := encoderCalls w |}.

Definition setArrowContext (c : option ArrowContext) (w : Writer) : Writer :=
  {| stream_ := stream_ w;
     arrowContext_ := c;
     schema_ := schema_ w;
     writeInt96AsTimestamp_ := writeInt96AsTimestamp_ w;
     encoderCalls := encoderCalls w |}.

Definition recordCall (c : EncoderCall) (w : Writer) : Writer :=
  {| stream_ := stream_ w;
     arrowContext_ := arrowContext_ w;
     schema_ := schema_ w;
     writeInt96AsTimestamp_ := writeInt96AsTimestamp_ w;
     encoderCalls := encoderCalls w ++ [c] |}.

Definition setWriter (fw : option FileWriter) (c : ArrowContext)
    : ArrowContext :=
  {| writer := fw; schema := schema c; properties := properties c;
     stagingRows := stagingRows c; stagingBytes := stagingBytes c;
     stagingChunks := stagingChunks c |}.

Definition setSchema (s : option Schema) (c : ArrowContext) : ArrowContext :=
  {| writer := writer c; schema := s; properties := properties c;
     stagingRows := stagingRows c; stagingBytes := stagingBytes c;
     stagingChunks := stagingChunks c |}.

Definition setStagingChunks (chunks : list (list Array)) (c : ArrowContext)
    : ArrowContext :=
  {| writer := writer c; schema := schema c; properties := properties c;
     stagingRows := stagingRows c; stagingBytes := stagingBytes c;
     stagingChunks := chunks |}.

Definition setStagingCounters (rows bytes : Z) (c : ArrowContext)
    : ArrowContext :=
  {| writer := writer c; schema := schema c; properties := properties c;
     stagingRows := rows; stagingBytes := bytes;
     stagingChunks := stagingChunks c |}.

(** [arrowContext_->]: the context, or a fault on the null pointer. *)
Definition context : M Writer ArrowContext :=
  fun w =>
    match arrowContext_ w with
    | Some c => Returns c w
    | None => Faults NullPointerDereference w
    end.

Definition updateContext (f : ArrowContext -> ArrowContext) : M Writer unit :=
  c <- context ;;
  modify (setArrowContext (Some (f c))).

(** A member of [stream_] run on the writer's stream. *)
Definition onStream {A} (m : M ArrowDataBufferSink A) : M Writer A :=
  fun w =>
    match m (stream_ w) with
    | Returns a s => Returns a (setStream s w)
    | Throws e s => Throws e (setStream s w)
    | Faults f s => Faults f (setStream s w)
    end.

(** A call on the encoder: the bytes it writes reach [stream_], then its
    status is checked. *)
Definition encoderCall {A} (call : EncoderCall) (bytes : list byte)
    (status : option A) : M Writer A :=
  modify (recordCall call) ;;;
  onStream (Sink_Write bytes) ;;;
  match status with
  | Some a => ret a
  | None => throw (ParquetStatusException "encoder")
  end.

Definition liftE {A} (r : Exception + A) : M Writer A :=
  match r with inl e => throw e | inr a => ret a end.

Definition liftF {A} (r : Fault + A) : M Writer A :=
  match r with inl f => fault f | inr a => ret a end.

(** The members as the constructor's initializer list and the default
    member initializers of [ArrowContext] leave them. *)
Definition initialWriter (sink : FileSink) (props : WriterProperties)
    (fields : RowType) (int96 : bool) : Writer :=
  {| stream_ := ArrowDataBufferSink_new sink;
     arrowContext_ :=
       Some {| writer := None; schema := None; properties := props;
               stagingRows := 0; stagingBytes := 0; stagingChunks := [] |};
     schema_ := fields;
     writeInt96AsTimestamp_ := int96;
     encoderCalls := [] |}.

(** The constructor: the schema is validated first, then the encoder
    properties are built.  Memory pools and reclaimers are not part of
    the model. *)
Definition Writer_new (sink : FileSink) (options : WriterOptions)
    (schema : RowTypePtr) : Exception + Writer :=
  match validateSchemaRecursive schema with
  | inl e => inl e
  | inr _ =>
      match getArrowParquetWriterOptions options with
      | inl e => inl e
      | inr props =>
          inr (initialWriter sink props (default [] schema)
                 (writeInt96AsTimestamp options))
      end
  end.

(** The loop of [flush] that builds one [ChunkedArray] per field: the
    staged fragments of column [colIdx] are moved out of
    [stagingChunks.at(colIdx)], which leaves that entry empty. *)
Fixpoint materializeColumns (fields : list Field) (colIdx : nat)
    : M Writer (list ChunkedArray) :=
  match fields with
  | [] => ret []
  | f :: rest =>
      c <- context ;;
      match stagingChunks c !! colIdx with
      | None => throw StdOutOfRange
      | Some arrays =>
          updateContext
            (setStagingChunks (<[colIdx := []]> (stagingChunks c))) ;;;
          match ChunkedArray_Make arrays (Field_type f) with
          | None => fault ValueOrDieAbort
          | Some chunk =>
              chunks <- materializeColumns rest (S colIdx) ;;
              ret (chunk :: chunks)
          end
      end
  end.

(** First block of [flush]: the encoder is opened on the canonical
    schema if it is not open yet. *)
Definition openFileWriter : M Writer unit :=
  c <- context ;;
  match writer c with
  | Some _ => ret tt
  | None =>
      match schema c with
      | None => fault NullPointerDereference
      | Some s =>
          w <- get ;;
          let r := FileWriter_Open s (properties c)
                     (writeInt96AsTimestamp_ w) in
          fw <- encoderCall
                  (Call_Open s (properties c) (writeInt96AsTimestamp_ w))
                  (fst r) (snd r) ;;
          updateContext (setWriter (Some fw))
      end
  end.

(** Second block of [flush]: the table is built from the staged
    fragments and written, the stream is flushed, the staging
    sequences are cleared and the counters reset. *)
Definition writeStagedTable : M Writer unit :=
  c <- context ;;
  match schema c with
  | None => fault NullPointerDereference
  | Some s =>
      chunks <- materializeColumns s 0%nat ;;
      c <- context ;;
      let table := mkTable s chunks (to_int64 (stagingRows c)) in
      match writer c with
      | None => fault NullPointerDereference
      | Some fw =>
          let r := FileWriter_WriteTable fw table
                     (to_int64 rowsInRowGroup) in
          fw' <- encoderCall
                   (Call_WriteTable table (to_int64 rowsInRowGroup))
                   (fst r) (snd r) ;;
          updateContext (setWriter (Some fw')) ;;;
          onStream Sink_Flush ;;;
          updateContext (fun c =>
            setStagingChunks (map (fun _ => []) (stagingChunks c)) c) ;;;
          updateContext (setStagingCounters 0 0)
      end
  end.

Definition Writer_flush : M Writer unit :=
  c <- context ;;
  if Z.ltb 0 (stagingRows c) then
    openFileWriter ;;;
    writeStagedTable
  else ret tt.

(** The loop of [write] that stages the columns of the record batch:
    [stagingChunks.at(colIdx).push_back(column)]. *)
Fixpoint stageColumns (columns : list Array) (colIdx : nat)
    : M Writer unit :=
  match columns with
  | [] => ret tt
  | column :: rest =>
      c <- context ;;
      match stagingChunks c !! colIdx with
      | None => throw StdOutOfRange
      | Some arrays =>
          updateContext
            (setStagingChunks
               (<[colIdx := arrays ++ [column]]> (stagingChunks c))) ;;;
          stageColumns rest (S colIdx)
      end
  end.

(** [arrow::ImportRecordBatch(&array, schema)]: the import fails unless
    the array has one child per field of the schema. *)
Definition importRecordBatch (array : ArrowArray) (s : Schema)
    : M Writer RecordBatch :=
  match ImportRecordBatch array s with
  | Some columns =>
      if Nat.eqb (length columns) (length s)
      then ret (mkRecordBatch s columns)
      else throw (ParquetStatusException "import")
  | None => throw (ParquetStatusException "import")
  end.

Definition schemaMismatch : Exception :=
  VeloxUserError
    "The file schema type should be equal with the input rowvector type.".

(** First half of [Writer::write], up to [ImportRecordBatch]: the type
    check, the flattening check, the export through the bridge, the
    renaming of the imported schema and the import of the batch. *)
Definition convertBatch (data : Vector) : M Writer RecordBatch :=
  w <- get ;;
  if negb (equivalent (Vector_type data) (ROW (schema_ w))) then
    throw schemaMismatch
  else
    flatten <- liftE (needFlatten data) ;;
    let exportData := if flatten then flattenVector data else data in
    array <- match exportToArrow_array exportData with
             | Some a => ret a
             | None => throw BridgeException
             end ;;
    cschema <- match exportToArrow_schema exportData with
               | Some s => ret s
               | None => throw BridgeException
               end ;;
    arrowSchema <- match ImportSchema cschema with
                   | Some s => ret s
                   | None => fault ValueOrDieAbort
                   end ;;
    newFields <- liftF (updateTopLevelFields arrowSchema (schema_ w) 0) ;;
    importRecordBatch array newFields.

(** Second half of [Writer::write]: the canonical schema on the first
    batch, the flush policy on the counters as they stand, then the
    staging of the columns and the update of the counters. *)
Definition stageBatch (data : Vector) (recordBatch : RecordBatch)
    : M Writer unit :=
  c <- context ;;
  (match schema c with
   | Some _ => ret tt
   | None =>
       updateContext (setSchema (Some (RecordBatch_schema recordBatch))) ;;;
       updateContext (fun c =>
         setStagingChunks
           (stagingChunks c ++
            replicate (length (RecordBatch_schema recordBatch)) []) c)
   end) ;;;
  let bytes := Vector_estimateFlatSize data in
  let numRows := Vector_size data in
  c <- context ;;
  (if shouldFlush (getStripeProgress (stagingRows c) (stagingBytes c))
   then Writer_flush else ret tt) ;;;
  stageColumns (RecordBatch_columns recordBatch) 0%nat ;;;
  updateContext (fun c =>
    setStagingCounters (to_uint64 (stagingRows c + numRows))
                       (to_int64 (stagingBytes c + bytes)) c).

Definition Writer_write (data : Vector) : M Writer unit :=
  recordBatch <- convertBatch data ;;
  stageBatch data recordBatch.

Definition Writer_close : M Writer unit :=
  Writer_flush ;;;
  c <- context ;;
  (match writer c with
   | Some fw =>
       let r := FileWriter_Close fw in
       encoderCall Call_Close (fst r)
                   (if snd r then Some tt else None) ;;;
       updateContext (setWriter None)
   | None => ret tt
   end) ;;;
  onStream Sink_Close ;;;
  updateContext (setStagingChunks []).

Definition Writer_abort : M Writer unit :=
  onStream Sink_abort ;;;
  modify (setArrowContext None).
End WriterMembers.

(** ** Specification vocabulary *)

(** The exceptions of the second half of [write] and of [flush]: a failed
    encoder call, [std::out_of_range] from [at], a failed destination. *)
Definition stagingError (e : Exception) : Prop :=
  e = ParquetStatusException "encoder" ∨ e = StdOutOfRange ∨ e = IOError.

Definition notRowVector : Exception :=
  VeloxRuntimeError "Arrow export expects a RowVector as input data.".

(** The exceptions of the first half of [write] once the type check has
    passed. *)
Definition conversionError (e : Exception) : Prop :=
  e = notRowVector ∨ e = BridgeException
  ∨ e = ParquetStatusException "import".

Section Vocabulary.
Context `{ArrowBridge} `{!ParquetEncoder} `{FlushPolicy} `{Destination}.

(** One batch staged: every column's sequence gets the fragment of that
    column, at its end. *)
Definition appendColumns (base : list (list Array)) (columns : list Array)
    : list (list Array) :=
  zip_with (fun col a => col ++ [a]) base columns.

(** The staging sequences after the batches of [group] have been staged,
    oldest first, on sequences that start as [base]. *)
Definition stageOnto (base : list (list Array)) (group : list (list Array))
    : list (list Array) :=
  fold_left appendColumns group base.

(** The canonical schema and the staging sequences once [write] has
    passed its first-batch block: on the first batch the schema of the
    record batch and one empty sequence per field. *)
Definition canonicalSchema (c : ArrowContext) (rb : RecordBatch) : Schema :=
  match schema c with
  | Some s => s
  | None => RecordBatch_schema rb
  end.

Definition preparedChunks (c : ArrowContext) (rb : RecordBatch)
    : list (list Array) :=
  match schema c with
  | Some _ => stagingChunks c
  | None =>
      stagingChunks c ++ replicate (length (RecordBatch_schema rb)) []
  end.

(** Whether [write] flushes before staging: the policy, asked about the
    counters of the context as [write] finds it, and rows to flush. *)
Definition flushDecision (c : ArrowContext) : bool :=
  shouldFlush (getStripeProgress (stagingRows c) (stagingBytes c))
  && Z.ltb 0 (stagingRows c).

(** The context is there and has one staging sequence per field of the
    canonical schema, itself as wide as the writer's schema. *)
Definition wellStaged (w : Writer) (c : ArrowContext) : Prop :=
  arrowContext_ w = Some c ∧
  match schema c with
  | None => stagingChunks c = []
  | Some s => length (stagingChunks c) = length s
              ∧ length s = length (schema_ w)
  end.

(** The table that [flush] builds from staging sequences. *)
Definition tableOf (s : Schema) (staged : list (list Array)) (rows : Z)
    : Table :=
  mkTable s
    (zip_with (fun arrays f => mkChunkedArray arrays (Field_type f)) staged s)
    (to_int64 rows).

(** Every staged fragment of a column has the type of its field. *)
Definition chunksTyped (staged : list (list Array)) (s : Schema) : Prop :=
  Forall2 (fun arrays f =>
             forallb (fun a => Array_hasType a (Field_type f)) arrays = true)
          staged s.

(** The tables handed to the encoder, oldest first. *)
Definition tablesOf (calls : list EncoderCall) : list Table :=
  omap (fun c => match c with
                 | Call_WriteTable t _ => Some t
                 | _ => None
                 end) calls.

(** Modelled from the spec: how the encoder turns the tables it is
    handed into row groups is decided by [FileWriter::WriteTable], which
    is not part of this file.  The specification makes the table built
    at a flush the row group: one row group per table handed over. *)
Definition rowGroupsOf (calls : list EncoderCall) : list Table :=
  tablesOf calls.

(** The stream of [w'] is the stream of [w] with bytes appended to its
    buffer. *)
Definition streamGrew (w w' : Writer) : Prop :=
  ∃ bytes,
    stream_ w' = {| sink_ := sink_ (stream_ w);
                    buffer_ := buffer_ (stream_ w) ++ bytes;
                    bytesFlushed_ := bytesFlushed_ (stream_ w) |}.

(** The stream of [w'] is the stream of [w] after the encoder has
    written bytes to it and its whole buffer has been handed to the
    destination in one call. *)
Definition streamFlushed (w w' : Writer) : Prop :=
  ∃ sink bytes,
    sink_ (stream_ w) = Some sink ∧
    stream_ w' =
      {| sink_ :=
           Some {| FileSink_received :=
                     FileSink_received sink ++ [buffer_ (stream_ w) ++ bytes];
                   FileSink_isClosed := FileSink_isClosed sink |};
         buffer_ := [];
         bytesFlushed_ :=
           to_int64 (bytesFlushed_ (stream_ w)
                     + Z.of_nat (length (buffer_ (stream_ w) ++ bytes))) |}.

(** The [Open] call that a flush makes when the encoder is not open. *)
Definition openCalls (w : Writer) (c : ArrowContext) (s : Schema)
    : list EncoderCall :=
  match writer c with
  | Some _ => []
  | None => [Call_Open s (properties c) (writeInt96AsTimestamp_ w)]
  end.

(** What a [flush] that found rows staged and returned has done to a
    writer whose context was [c], with canonical schema [s]. *)
Definition flushedFrom (w : Writer) (c : ArrowContext) (s : Schema)
    (w' : Writer) : Prop :=
  ∃ c',
    arrowContext_ w' = Some c'
    ∧ schema_ w' = schema_ w
    ∧ writeInt96AsTimestamp_ w' = writeInt96AsTimestamp_ w
    ∧ encoderCalls w' =
        encoderCalls w ++ openCalls w c s ++
        [Call_WriteTable (tableOf s (stagingChunks c) (stagingRows c))
                         (to_int64 rowsInRowGroup)]
    ∧ schema c' = Some s
    ∧ properties c' = properties c
    ∧ writer c' ≠ None
    ∧ stagingChunks c' = replicate (length (stagingChunks c)) []
    ∧ stagingRows c' = 0
    ∧ stagingBytes c' = 0
    ∧ streamFlushed w w'.

(** Every call on the encoder and on the destination succeeds. *)
Definition reliable : Prop :=
  (∀ s p b, snd (FileWriter_Open s p b) ≠ None)
  ∧ (∀ fw t n, snd (FileWriter_WriteTable fw t n) ≠ None)
  ∧ (∀ fw, snd (FileWriter_Close fw) = true)
  ∧ (∀ sink data, write_succeeds sink data = true)
  ∧ (∀ sink, close_succeeds sink = true).

(** A writer on which no row has been staged and no encoder opened,
    with an untouched stream onto [sink]. *)
Definition neverStaged (sink : FileSink) (w : Writer) : Prop :=
  ∃ c, arrowContext_ w = Some c
       ∧ stagingRows c = 0
       ∧ writer c = None
       ∧ encoderCalls w = []
       ∧ stream_ w = ArrowDataBufferSink_new sink.

(** The row counter after staging batches of the given sizes. *)
Definition rowsAfter (rows : Z) (sizes : list Z) : Z :=
  fold_left (fun acc n => to_uint64 (acc + n)) sizes rows.




(** A batch with its conversion: the columns it contributes and its
    row count. *)
Definition columnsOf (b : Vector * RecordBatch) : list Array :=
  RecordBatch_columns (snd b).
Definition sizeOf (b : Vector * RecordBatch) : Z := Vector_size (fst b).

(** The table built from a group of whole batches: column by column,
    the fragments of the batches of the group, oldest first. *)
Definition groupTable (s : Schema) (group : list (Vector * RecordBatch))
    : Table :=
  tableOf s
    (stageOnto (replicate (length s) []) (map columnsOf group))
    (rowsAfter 0 (map sizeOf group)).

(** The batches written so far, laid out as whole batches: the tables
    handed to the encoder are the tables of [groups], in order, and the
    staging sequences hold the batches of [current]. *)
Definition wholeBatchLayout (fields : RowType) (w : Writer) (s : Schema)
    (groups : list (list (Vector * RecordBatch)))
    (current : list (Vector * RecordBatch)) : Prop :=
  ∃ c, arrowContext_ w = Some c
       ∧ schema_ w = fields
       ∧ schema c = Some s
       ∧ length s = length fields
       ∧ Forall (fun b => length (columnsOf b) = length s) current
       ∧ stagingChunks c =
           stageOnto (replicate (length s) []) (map columnsOf current)
       ∧ stagingRows c = rowsAfter 0 (map sizeOf current)
       ∧ rowGroupsOf (encoderCalls w) = map (groupTable s) groups.




(** The writer after a sequence of [write] calls that all threw. *)
Fixpoint afterFailedWrites (batches : list Vector) (w : Writer)
    : option Writer :=
  match batches with
  | [] => Some w
  | data :: rest =>
      match Writer_write data w with
      | Throws _ w' => afterFailedWrites rest w'
      | _ => None
      end
  end.

(** The writer after a sequence of [write] calls that all returned. *)
Fixpoint afterWrites (batches : list Vector) (w : Writer) : option Writer :=
  match batches with
  | [] => Some w
  | data :: rest =>
      match Writer_write data w with
      | Returns _ w' => afterWrites rest w'
      | _ => None
      end
  end.
End Vocabulary.

(** ** A reference environment

    Collaborators that always succeed, used to run the writer on concrete
    batches. *)

Fixpoint toArrowType (t : Type_) : DataType :=
  match t with
  | Scalar _ => Primitive "scalar"
  | ARRAY e => ListType (mkField "item" (toArrowType e) true [])
  | MAP k v =>
      MapType (mkField "key" (toArrowType k) false [])
              (mkField "value" (toArrowType v) true []) false
  | ROW fields =>
      StructType
        ((fix eachChild (fs : list (string * Type_)) : list Field :=
            match fs with
            | [] => []
            | (n, child) :: rest =>
                mkField n (toArrowType child) true [] :: eachChild rest
            end) fields)
  end.

Definition Vector_contents (v : Vector) : list Z :=
  match v with mkVector _ _ _ _ _ _ _ _ c => c end.

Definition referenceBridge : ArrowBridge :=
  {| Array := list Z;
     ArrowArray := Vector;
     ArrowSchema := Vector;
     flattenVector := fun v => v;
     exportToArrow_array := Some;
     exportToArrow_schema := Some;
     ImportSchema := fun v =>
       match toArrowType (Vector_type v) with
       | StructType fs => Some fs
       | _ => None
       end;
     ImportRecordBatch := fun v _ =>
       match Vector_asRowVector v with
       | Some cs => Some (map Vector_contents cs)
       | None => None
       end;
     Array_hasType := fun _ _ => true |}.

Definition referenceEncoder : @ParquetEncoder referenceBridge :=
  {| FileWriter := nat;
     FileWriter_Open := fun _ _ _ => ([x50; x41; x52; x31], Some 0%nat);
     FileWriter_WriteTable := fun fw _ _ => ([x15], Some (S fw));
     FileWriter_Close := fun _ => ([x50; x41; x52; x31], true) |}.

Definition referenceDestination : Destination :=
  {| write_succeeds := fun _ _ => true; close_succeeds := fun _ => true |}.

Definition emptySink : FileSink :=
  {| FileSink_received := []; FileSink_isClosed := false |}.

(** A destination whose every write fails. *)
Definition failingDestination : Destination :=
  {| write_succeeds := fun _ _ => false; close_succeeds := fun _ => true |}.

Definition plainOptions : WriterOptions :=
  {| compressionKind := None; columnCompressionsMap := [];
     writeInt96AsTimestamp := false |}.

(** A flat column of [BIGINT] and a row vector of such columns. *)
Definition flatColumn (n : Z) (values : list Z) : Vector :=
  mkVector VectorEncoding.FLAT (Scalar BIGINT) n (8 * n) None false true true
           values.

Definition rowBatch (fields : RowType) (n : Z) (columns : list (list Z))
    : Vector :=
  mkVector VectorEncoding.ROW (ROW fields) n
           (8 * n * Z.of_nat (length columns))
           (Some (map (flatColumn n) columns)) false true false [].

Definition oneColumn : RowType := [("a", Scalar BIGINT)].

(** A policy that flushes from 1000 staged rows on. *)
Definition referencePolicy : FlushPolicy :=
  {| shouldFlush := fun p => Z.leb 1000 (stripeRowCount p);
     rowsInRowGroup := 1000 |}.

Definition referenceProperties : WriterProperties :=
  {| default_compression := Compression_UNCOMPRESSED;
     column_compression := [];
     max_row_group_length := 1000 |}.

(** A new writer on one [BIGINT] column named a. *)
Definition referenceWriter : @Writer referenceBridge referenceEncoder :=
  @initialWriter referenceBridge referenceEncoder emptySink
                 referenceProperties oneColumn false.

(** The reference writer after [n] batches of 400 rows with the values
    1, 2, 3, and its context. *)
Definition stagedContextOf (n : nat)
    : @ArrowContext referenceBridge referenceEncoder :=
  {| writer := None;
     schema := Some [mkField "a" (Primitive "scalar") true []];
     properties := referenceProperties;
     stagingRows := 400 * Z.of_nat n;
     stagingBytes := 3200 * Z.of_nat n;
     stagingChunks := [replicate n ([1; 2; 3] : @Array referenceBridge)] |}.

Definition stagedWriterOf (n : nat)
    : @Writer referenceBridge referenceEncoder :=
  {| stream_ := ArrowDataBufferSink_new emptySink;
     arrowContext_ := Some (stagedContextOf n);
     schema_ := oneColumn;
     writeInt96AsTimestamp_ := false;
     encoderCalls := [] |}.

Definition stagedContext := stagedContextOf 1.
Definition stagedWriter := stagedWriterOf 1.

(** A converted map field whose key is a struct with a positional field
    name, and the logical map type it is reconciled against. *)
Definition convertedMapField : Field :=
  mkField "m"
    (MapType
       (mkField "k" (StructType [mkField "f0" (Primitive "scalar") true []])
                false [])
       (mkField "v" (Primitive "scalar") true []) false)
    true [].

Definition logicalMapType : Type_ :=
  MAP (ROW [("a", Scalar BIGINT)]) (Scalar BIGINT).

(** A schema with an unnamed field in a struct under a list. *)
Definition listOfUnnamed : RowType :=
  [("a", ARRAY (ROW [("", Scalar BIGINT)]))].

(** ** Other members of the writer *)

(** [Writer::isCodecAvailable]: the kind is mapped first, then the codec
    registry of the encoder, [arrow::util::Codec::IsAvailable], is
    asked. *)
Class CodecRegistry : Type := {
  Codec_IsAvailable : Compression -> bool
}.

Definition Writer_isCodecAvailable `{CodecRegistry}
    (compression : CompressionKind) : Exception + bool :=
  match getArrowParquetCompression compression with
  | inl e => inl e
  | inr c => inr (Codec_IsAvailable c)
  end.

(** The kinds that [getArrowParquetCompression] maps. *)
Definition supportedCompression (kind : CompressionKind) : bool :=
  match kind with
  | CompressionKind_SNAPPY | CompressionKind_GZIP | CompressionKind_ZSTD
  | CompressionKind_NONE | CompressionKind_LZ4 => true
  | _ => false
  end.

(** [FileWriter::NewRowGroup], the one call of the encoder that only
    [Writer::newRowGroup] makes. *)
Class RowGroupEncoder `{ParquetEncoder} : Type := {
  FileWriter_NewRowGroup : FileWriter -> Z -> list byte * option FileWriter
}.

(** What [dwio::common::WriterOptions] shows to the factory: the result
    of [dynamic_pointer_cast<parquet::WriterOptions>] ([None] for the
    null pointer of a failed cast) and [asRowType(options->schema)]. *)
Record CommonWriterOptions : Type := mkCommonWriterOptions {
  asParquetWriterOptions : option WriterOptions;
  schemaAsRowType : RowTypePtr
}.

Section OtherMembers.
Context `{ArrowBridge} `{!ParquetEncoder} `{!RowGroupEncoder}
        `{FlushPolicy} `{Destination}.
Local Open Scope cpp_scope.

(** [Writer::newRowGroup]: [arrowContext_->writer->NewRowGroup(numRows)]
    with no test of either pointer. *)
Definition Writer_newRowGroup (numRows : Z) : M Writer unit :=
  c <- context ;;
  match writer c with
  | None => fault NullPointerDereference
  | Some fw =>
      let r := FileWriter_NewRowGroup fw numRows in
      onStream (Sink_Write (fst r)) ;;;
      match snd r with
      | Some fw' => updateContext (setWriter (Some fw'))
      | None => throw (ParquetStatusException "encoder")
      end
  end.

(** [ParquetWriterFactory::createWriter]. *)
Definition createWriter (sink : FileSink) (options : CommonWriterOptions)
    : Exception + Writer :=
  match asParquetWriterOptions options with
  | None =>
      inl (VeloxRuntimeError
             "Parquet writer factory expected a Parquet WriterOptions object.")
  | Some parquetOptions =>
      Writer_new sink parquetOptions (schemaAsRowType options)
  end.
End OtherMembers.

(** A row-group call for the reference encoder. *)
Definition referenceRowGroups : @RowGroupEncoder referenceBridge referenceEncoder :=
  {| FileWriter_NewRowGroup := fun fw _ => ([x15], Some fw) |}.

(** ** Vocabulary for the stream, the schema helpers and the row groups *)

(** The bytes that a sequence of stream operations writes, in order, and
    the number of its flushes. *)
Definition writtenBytes (ops : list SinkOp) : list byte :=
  concat (omap (fun op => match op with
                          | OpWrite data => Some data
                          | OpFlush => None
                          end) ops).

Fixpoint flushCount (ops : list SinkOp) : nat :=
  match ops with
  | [] => 0%nat
  | OpFlush :: rest => S (flushCount rest)
  | OpWrite _ :: rest => flushCount rest
  end.

(** The converted type has the container that [updateFieldNameRecursive]
    casts to wherever the logical type has one, and every struct has a
    field at each index that the loop reads. *)
Fixpoint shapeMatches (type : Type_) (dt : DataType) {struct type} : bool :=
  match type with
  | Scalar _ => true
  | ARRAY elementType =>
      match as_BaseListType dt with
      | Some elementField => shapeMatches elementType (Field_type elementField)
      | None => false
      end
  | MAP keyType valueType =>
      match as_MapType dt with
      | Some (key_field, item_field) =>
          shapeMatches keyType (Field_type key_field)
          && shapeMatches valueType (Field_type item_field)
      | None => false
      end
  | ROW rowType =>
      (fix eachChild (cs : list (string * Type_)) (i : nat) : bool :=
         match cs with
         | [] => true
         | (_, childType) :: rest =>
             match as_StructType dt with
             | None => false
             | Some structFields =>
                 match structFields !! i with
                 | None => false
                 | Some f =>
                     shapeMatches childType (Field_type f)
                     && eachChild rest (S i)
                 end
             end
         end) rowType 0%nat
  end.

(** The loop of the struct case of [shapeMatches], on its own. *)
Fixpoint childrenMatch (structType : option (list Field))
    (cs : list (string * Type_)) (i : nat) : bool :=
  match cs with
  | [] => true
  | (_, childType) :: rest =>
      match structType with
      | None => false
      | Some structFields =>
          match structFields !! i with
          | None => false
          | Some f =>
              shapeMatches childType (Field_type f)
              && childrenMatch structType rest (S i)
          end
      end
  end.

(** An Arrow type carries the names of a logical type: struct for
    struct with the same field names in the same order, list for array,
    map for map, at every depth. *)
Fixpoint namesReconciled (type : Type_) (dt : DataType) {struct type} : bool :=
  match type, dt with
  | Scalar _, _ => true
  | ARRAY elementType, ListType value_field =>
      namesReconciled elementType (Field_type value_field)
  | MAP keyType valueType, MapType key_field item_field _ =>
      namesReconciled keyType (Field_type key_field)
      && namesReconciled valueType (Field_type item_field)
  | ROW rowType, StructType fields =>
      (fix eachChild (cs : list (string * Type_)) (fs : list Field) : bool :=
         match cs, fs with
         | [], [] => true
         | (childName, childType) :: rest, f :: fs' =>
             String.eqb (Field_name f) childName
             && namesReconciled childType (Field_type f)
             && eachChild rest fs'
         | _, _ => false
         end) rowType fields
  | _, _ => false
  end.

(** The loop of the struct case of [namesReconciled], on its own. *)
Fixpoint childrenReconciled (cs : list (string * Type_)) (fs : list Field)
    : bool :=
  match cs, fs with
  | [], [] => true
  | (childName, childType) :: rest, f :: fs' =>
      String.eqb (Field_name f) childName
      && namesReconciled childType (Field_type f)
      && childrenReconciled rest fs'
  | _, _ => false
  end.

(** No struct level of the type, at any depth, has an empty field
    name. *)
Definition fullyNamed (type : Type_) : Prop :=
  Forall (fun level => "" ∉ level) (structLevels type).

Section RowGroupVocabulary.
Context `{ArrowBridge}.

(** The fragments of column [j] of a table, oldest first. *)
Definition tableColumn (j : nat) (t : Table) : list Array :=
  match Table_columns t !! j with
  | Some column => chunks column
  | None => []
  end.
End RowGroupVocabulary.

(** Sum of row counts. *)
Definition totalRows (sizes : list Z) : Z := fold_right Z.add 0 sizes.

(** ** Configuration: the readers and [WriterOptions::processConfigs] *)

(** What reading a configuration can throw: a Velox exception, the
    [folly::ConversionError] of a value that [folly::to] cannot parse,
    or whatever [config::toCapacity] throws on a malformed capacity. *)
Inductive ConfigException : Type :=
| VeloxException (e : Exception)
| FollyConversionError (value : string)
| CapacityException (value : string).

(** [config::ConfigBase] maps keys to raw string values. *)
Abbreviation ConfigBase := (gmap string string).

(** The parsers behind [ConfigBase::get<T>] and [config::toCapacity]
    with the unit [BYTE]; [None] is a value that they reject.  They are
    declared outside this file. *)
Class ConfigParsers : Type := {
  folly_to_uint8 : string -> option Z;
  folly_to_bool : string -> option bool;
  folly_to_int64 : string -> option Z;
  toCapacity : string -> option Z
}.

(** The configuration keys, constants of the writer's header. *)
Class ConfigKeys : Type := {
  kParquetSessionWriteTimestampUnit : string;
  kParquetSessionEnableDictionary : string;
  kParquetHiveConnectorEnableDictionary : string;
  kParquetSessionDictionaryPageSizeLimit : string;
  kParquetHiveConnectorDictionaryPageSizeLimit : string;
  kParquetSessionDataPageVersion : string;
  kParquetHiveConnectorDataPageVersion : string;
  kParquetSessionWritePageSize : string;
  kParquetHiveConnectorWritePageSize : string;
  kParquetSessionWriteBatchSize : string;
  kParquetHiveConnectorWriteBatchSize : string;
  kParquetHiveConnectorCreatedBy : string
}.

(** [config.get<T>(key)]: no value for an absent key, the parsed value
    for a present one, [folly::ConversionError] when it does not
    parse. *)
Definition ConfigBase_get {T} (parse : string -> option T)
    (config : ConfigBase) (key : string) : ConfigException + option T :=
  match config !! key with
  | None => inr None
  | Some value =>
      match parse value with
      | Some v => inr (Some v)
      | None => inl (FollyConversionError value)
      end
  end.

Section ConfigReaders.
Context `{ConfigParsers}.

(** The formatted arguments of the messages are left out. *)
Definition getTimestampUnit (config : ConfigBase) (configKey : string)
    : ConfigException + option Z :=
  match ConfigBase_get folly_to_uint8 config configKey with
  | inl e => inl e
  | inr None => inr None
  | inr (Some unit) =>
      if Z.eqb unit 3 || Z.eqb unit 6 || Z.eqb unit 9 then inr (Some unit)
      else inl (VeloxException (VeloxRuntimeError "Invalid timestamp unit"))
  end.

Definition getTimestampTimeZone (config : ConfigBase) (configKey : string)
    : ConfigException + option string :=
  ConfigBase_get Some config configKey.

Definition isParquetEnableDictionary (config : ConfigBase)
    (configKey : string) : ConfigException + option bool :=
  match ConfigBase_get folly_to_bool config configKey with
  | inl (FollyConversionError _) =>
      inl (VeloxException
             (VeloxUserError
                "Invalid parquet writer enable dictionary option"))
  | inl e => inl e
  | inr enableDictionary => inr enableDictionary
  end.

Definition getParquetDataPageVersion (config : ConfigBase)
    (configKey : string) : ConfigException + option bool :=
  match ConfigBase_get Some config configKey with
  | inl e => inl e
  | inr None => inr None
  | inr (Some version) =>
      if String.eqb version "V1" then inr (Some false)
      else if String.eqb version "V2" then inr (Some true)
      else inl (VeloxException
                  (VeloxRuntimeError "Unsupported parquet datapage version"))
  end.

Definition getParquetPageSize (config : ConfigBase) (configKey : string)
    : ConfigException + option Z :=
  match ConfigBase_get Some config configKey with
  | inl e => inl e
  | inr None => inr None
  | inr (Some pageSize) =>
      match toCapacity pageSize with
      | Some bytes => inr (Some (to_int64 bytes))
      | None => inl (CapacityException pageSize)
      end
  end.

Definition getParquetBatchSize (config : ConfigBase) (configKey : string)
    : ConfigException + option Z :=
  match ConfigBase_get folly_to_int64 config configKey with
  | inl (FollyConversionError _) =>
      inl (VeloxException
             (VeloxUserError "Invalid parquet writer batch size"))
  | inl e => inl e
  | inr batchSize => inr batchSize
  end.

Definition getParquetCreatedBy (config : ConfigBase) (configKey : string)
    : ConfigException + option string :=
  match ConfigBase_get Some config configKey with
  | inl e => inl e
  | inr (Some _) => ConfigBase_get Some config configKey
  | inr None => inr None
  end.
End ConfigReaders.

(** The members of [parquet::WriterOptions] that [processConfigs]
    resolves.  [sessionTimezoneName] is the value that its assignment to
    an optional string leaves there. *)
Record ConfiguredOptions : Type := mkConfiguredOptions {
  parquetWriteTimestampUnit : option Z;
  parquetWriteTimestampTimeZone : option string;
  sessionTimezoneName : option string;
  enableDictionary : option bool;
  dictionaryPageSizeLimit : option Z;
  useParquetDataPageV2 : option bool;
  dataPageSize : option Z;
  batchSize : option Z;
  createdBy : option string
}.

(** [processConfigs] returns, or throws with the members assigned so
    far. *)
Inductive ConfigOutcome : Type :=
| Configured (o : ConfiguredOptions)
| ConfigThrows (e : ConfigException) (o : ConfiguredOptions).

Definition setTimestampUnit (v : option Z) (o : ConfiguredOptions)
    : ConfiguredOptions :=
  mkConfiguredOptions v (parquetWriteTimestampTimeZone o)
    (sessionTimezoneName o) (enableDictionary o) (dictionaryPageSizeLimit o)
    (useParquetDataPageV2 o) (dataPageSize o) (batchSize o) (createdBy o).

Definition setTimestampTimeZone (v : option string) (o : ConfiguredOptions)
    : ConfiguredOptions :=
  mkConfiguredOptions (parquetWriteTimestampUnit o) v
    (sessionTimezoneName o) (enableDictionary o) (dictionaryPageSizeLimit o)
    (useParquetDataPageV2 o) (dataPageSize o) (batchSize o) (createdBy o).

Definition setEnableDictionary (v : option bool) (o : ConfiguredOptions)
    : ConfiguredOptions :=
  mkConfiguredOptions (parquetWriteTimestampUnit o)
    (parquetWriteTimestampTimeZone o) (sessionTimezoneName o) v
    (dictionaryPageSizeLimit o) (useParquetDataPageV2 o) (dataPageSize o)
    (batchSize o) (createdBy o).

Definition setDictionaryPageSizeLimit (v : option Z) (o : ConfiguredOptions)
    : ConfiguredOptions :=
  mkConfiguredOptions (parquetWriteTimestampUnit o)
    (parquetWriteTimestampTimeZone o) (sessionTimezoneName o)
    (enableDictionary o) v (useParquetDataPageV2 o) (dataPageSize o)
    (batchSize o) (createdBy o).

Definition setUseParquetDataPageV2 (v : option bool) (o : ConfiguredOptions)
    : ConfiguredOptions :=
  mkConfiguredOptions (parquetWriteTimestampUnit o)
    (parquetWriteTimestampTimeZone o) (sessionTimezoneName o)
    (enableDictionary o) (dictionaryPageSizeLimit o) v (dataPageSize o)
    (batchSize o) (createdBy o).

Definition setDataPageSize (v : option Z) (o : ConfiguredOptions)
    : ConfiguredOptions :=
  mkConfiguredOptions (parquetWriteTimestampUnit o)
    (parquetWriteTimestampTimeZone o) (sessionTimezoneName o)
    (enableDictionary o) (dictionaryPageSizeLimit o)
    (useParquetDataPageV2 o) v (batchSize o) (createdBy o).

Definition setBatchSize (v : option Z) (o : ConfiguredOptions)
    : ConfiguredOptions :=
  mkConfiguredOptions (parquetWriteTimestampUnit o)
    (parquetWriteTimestampTimeZone o) (sessionTimezoneName o)
    (enableDictionary o) (dictionaryPageSizeLimit o)
    (useParquetDataPageV2 o) (dataPageSize o) v (createdBy o).

Definition setCreatedBy (v : option string) (o : ConfiguredOptions)
    : ConfiguredOptions :=
  mkConfiguredOptions (parquetWriteTimestampUnit o)
    (parquetWriteTimestampTimeZone o) (sessionTimezoneName o)
    (enableDictionary o) (dictionaryPageSizeLimit o)
    (useParquetDataPageV2 o) (dataPageSize o) (batchSize o) v.

(** The conditional [reader(session, k).has_value() ? reader(session, k)
    : reader(connectorConfig, k')]: the session is read first, and again
    when it has a value; the connector configuration is read only when
    the session has none. *)
Definition sessionThenConnector {T}
    (fromSession fromConnector : ConfigException + option T)
    : ConfigException + option T :=
  match fromSession with
  | inl e => inl e
  | inr (Some _) => fromSession
  | inr None => fromConnector
  end.

(** One block [if (!member) { member = value; }]. *)
Definition assignIfUnset {T} (member : ConfiguredOptions -> option T)
    (set : option T -> ConfiguredOptions -> ConfiguredOptions)
    (value : ConfigException + option T) (o : ConfiguredOptions)
    : ConfigOutcome :=
  match member o with
  | Some _ => Configured o
  | None =>
      match value with
      | inl e => ConfigThrows e o
      | inr v => Configured (set v o)
      end
  end.

Definition andThen (r : ConfigOutcome)
    (k : ConfiguredOptions -> ConfigOutcome) : ConfigOutcome :=
  match r with
  | Configured o => k o
  | ConfigThrows e o => ConfigThrows e o
  end.

Section ProcessConfigs.
Context `{ConfigParsers} `{ConfigKeys}.

(** [WriterOptions::processConfigs].  The cast of [this] to its own
    class cannot fail.  The connector configuration is asked for the
    timestamp unit under the session key, as in the source. *)
Definition processConfigs (connectorConfig session : ConfigBase)
    (o : ConfiguredOptions) : ConfigOutcome :=
  andThen
    (assignIfUnset parquetWriteTimestampUnit setTimestampUnit
       (sessionThenConnector
          (getTimestampUnit session kParquetSessionWriteTimestampUnit)
          (getTimestampUnit connectorConfig
             kParquetSessionWriteTimestampUnit)) o) (fun o =>
  andThen
    (assignIfUnset parquetWriteTimestampTimeZone setTimestampTimeZone
       (inr (sessionTimezoneName o)) o) (fun o =>
  andThen
    (assignIfUnset enableDictionary setEnableDictionary
       (sessionThenConnector
          (isParquetEnableDictionary session kParquetSessionEnableDictionary)
          (isParquetEnableDictionary connectorConfig
             kParquetHiveConnectorEnableDictionary)) o) (fun o =>
  andThen
    (assignIfUnset dictionaryPageSizeLimit setDictionaryPageSizeLimit
       (sessionThenConnector
          (getParquetPageSize session kParquetSessionDictionaryPageSizeLimit)
          (getParquetPageSize connectorConfig
             kParquetHiveConnectorDictionaryPageSizeLimit)) o) (fun o =>
  andThen
    (assignIfUnset useParquetDataPageV2 setUseParquetDataPageV2
       (sessionThenConnector
          (getParquetDataPageVersion session kParquetSessionDataPageVersion)
          (getParquetDataPageVersion connectorConfig
             kParquetHiveConnectorDataPageVersion)) o) (fun o =>
  andThen
    (assignIfUnset dataPageSize setDataPageSize
       (sessionThenConnector
          (getParquetPageSize session kParquetSessionWritePageSize)
          (getParquetPageSize connectorConfig
             kParquetHiveConnectorWritePageSize)) o) (fun o =>
  andThen
    (assignIfUnset batchSize setBatchSize
       (sessionThenConnector
          (getParquetBatchSize session kParquetSessionWriteBatchSize)
          (getParquetBatchSize connectorConfig
             kParquetHiveConnectorWriteBatchSize)) o) (fun o =>
  assignIfUnset createdBy setCreatedBy
    (getParquetCreatedBy connectorConfig kParquetHiveConnectorCreatedBy)
    o))))))).
End ProcessConfigs.

(** Parsers and keys to run [processConfigs] on concrete
    configurations. *)
Definition referenceParsers : ConfigParsers :=
  {| folly_to_uint8 := fun v =>
       if String.eqb v "3" then Some 3
       else if String.eqb v "6" then Some 6
       else if String.eqb v "9" then Some 9
       else if String.eqb v "7" then Some 7
       else None;
     folly_to_bool := fun v =>
       if String.eqb v "true" then Some true
       else if String.eqb v "false" then Some false
       else None;
     folly_to_int64 := fun v =>
       if String.eqb v "1024" then Some 1024
       else if String.eqb v "2048" then Some 2048
       else None;
     toCapacity := fun v =>
       if String.eqb v "1KB" then Some 1024
       else if String.eqb v "1MB" then Some 1048576
       else None |}.

Definition referenceKeys : ConfigKeys :=
  {| kParquetSessionWriteTimestampUnit := "session.timestamp_unit";
     kParquetSessionEnableDictionary := "session.enable_dictionary";
     kParquetHiveConnectorEnableDictionary := "connector.enable_dictionary";
     kParquetSessionDictionaryPageSizeLimit := "session.dictionary_page_size";
     kParquetHiveConnectorDictionaryPageSizeLimit :=
       "connector.dictionary_page_size";
     kParquetSessionDataPageVersion := "session.datapage_version";
     kParquetHiveConnectorDataPageVersion := "connector.datapage_version";
     kParquetSessionWritePageSize := "session.page_size";
     kParquetHiveConnectorWritePageSize := "connector.page_size";
     kParquetSessionWriteBatchSize := "session.batch_size";
     kParquetHiveConnectorWriteBatchSize := "connector.batch_size";
     kParquetHiveConnectorCreatedBy := "connector.created_by" |}.

Definition unsetOptions : ConfiguredOptions :=
  mkConfiguredOptions None None (Some "UTC") None None None None None None.

(** ** The settings of the encoder's properties builder

    The part of [getArrowParquetWriterOptions] that does not concern
    compression: the calls on [WriterProperties::Builder] for the
    dictionary, the page and batch sizes, the data page version and the
    creator.  The builder, its initial settings and the four default
    constants belong to the encoder, outside this file; [encoding] and
    [codecOptions] are handed to the builder as they are. *)
Class PropertiesBuilder : Type := {
  Encoding : Type;
  CodecOptions : Type;
  DEFAULT_IS_DICTIONARY_ENABLED : bool;
  DEFAULT_DICTIONARY_PAGE_SIZE_LIMIT : Z;
  kDefaultDataPageSize : Z;
  DEFAULT_WRITE_BATCH_SIZE : Z
}.

Inductive ParquetDataPageVersion : Type := V1 | V2.

Section Builder.
Context `{PropertiesBuilder}.

Record BuilderSettings : Type := mkBuilderSettings {
  dictionary_enabled : bool;
  dictionary_pagesize_limit : Z;
  builder_encoding : Encoding;
  data_pagesize : Z;
  write_batch_size : Z;
  builder_codec_options : CodecOptions;
  store_decimal_as_integer : bool;
  data_page_version : ParquetDataPageVersion;
  created_by : string
}.

(** The builder calls of [getArrowParquetWriterOptions], in order, on a
    builder whose settings are [builder]. *)
Definition builderSettings (builder : BuilderSettings)
    (options : ConfiguredOptions) (encoding : Encoding)
    (codecOptions : CodecOptions) : BuilderSettings :=
  let enabled :=
    default DEFAULT_IS_DICTIONARY_ENABLED (enableDictionary options) in
  {| dictionary_enabled := enabled;
     dictionary_pagesize_limit :=
       if enabled
       then default DEFAULT_DICTIONARY_PAGE_SIZE_LIMIT
                    (dictionaryPageSizeLimit options)
       else dictionary_pagesize_limit builder;
     builder_encoding := encoding;
     data_pagesize := default kDefaultDataPageSize (dataPageSize options);
     write_batch_size := default DEFAULT_WRITE_BATCH_SIZE (batchSize options);
     builder_codec_options := codecOptions;
     store_decimal_as_integer := true;
     data_page_version :=
       if default false (useParquetDataPageV2 options) then V2 else V1;
     created_by :=
       match createdBy options with
       | Some creator => creator
       | None => created_by builder
       end |}.
End Builder.

Definition referenceBuilder : PropertiesBuilder :=
  {| Encoding := unit;
     CodecOptions := unit;
     DEFAULT_IS_DICTIONARY_ENABLED := true;
     DEFAULT_DICTIONARY_PAGE_SIZE_LIMIT := 1048576;
     kDefaultDataPageSize := 1048576;
     DEFAULT_WRITE_BATCH_SIZE := 1024 |}.

Definition referenceBuilderSettings : @BuilderSettings referenceBuilder :=
  @mkBuilderSettings referenceBuilder true 1048576 tt 1048576 1024 tt false
    V1 "parquet-cpp".

(** A member after [processConfigs]: the value it was given explicitly,
    or, when it had none, what the configuration resolved to. *)
Definition resolvesTo {T} (explicit : option T)
    (value : ConfigException + option T) (result : option T) : Prop :=
  match explicit with
  | Some v => result = Some v
  | None => value = inr result
  end.

(** Precedence of the session over the connector configuration for a
    member left unset: a value of the session is the result; the
    connector configuration decides when the session has none. *)
Definition sessionFirst {T} (explicit : option T)
    (fromSession fromConnector : ConfigException + option T)
    (result : option T) : Prop :=
  explicit = None ->
  (forall v, fromSession = inr (Some v) -> result = Some v)
  /\ (fromSession = inr None -> fromConnector = inr result).

Section ConfigVocabulary.
Context `{ConfigParsers} `{ConfigKeys}.

(** The options [o'] are the options [o] with every unset member
    resolved from the two configurations. *)
Definition configuredFrom (connectorConfig session : ConfigBase)
    (o o' : ConfiguredOptions) : Prop :=
  sessionTimezoneName o' = sessionTimezoneName o
  /\ resolvesTo (parquetWriteTimestampUnit o)
       (sessionThenConnector
          (getTimestampUnit session kParquetSessionWriteTimestampUnit)
          (getTimestampUnit connectorConfig
             kParquetSessionWriteTimestampUnit))
       (parquetWriteTimestampUnit o')
  /\ resolvesTo (parquetWriteTimestampTimeZone o)
       (inr (sessionTimezoneName o)) (parquetWriteTimestampTimeZone o')
  /\ resolvesTo (enableDictionary o)
       (sessionThenConnector
          (isParquetEnableDictionary session kParquetSessionEnableDictionary)
          (isParquetEnableDictionary connectorConfig
             kParquetHiveConnectorEnableDictionary))
       (enableDictionary o')
  /\ resolvesTo (dictionaryPageSizeLimit o)
       (sessionThenConnector
          (getParquetPageSize session kParquetSessionDictionaryPageSizeLimit)
          (getParquetPageSize connectorConfig
             kParquetHiveConnectorDictionaryPageSizeLimit))
       (dictionaryPageSizeLimit o')
  /\ resolvesTo (useParquetDataPageV2 o)
       (sessionThenConnector
          (getParquetDataPageVersion session kParquetSessionDataPageVersion)
          (getParquetDataPageVersion connectorConfig
             kParquetHiveConnectorDataPageVersion))
       (useParquetDataPageV2 o')
  /\ resolvesTo (dataPageSize o)
       (sessionThenConnector
          (getParquetPageSize session kParquetSessionWritePageSize)
          (getParquetPageSize connectorConfig
             kParquetHiveConnectorWritePageSize))
       (dataPageSize o')
  /\ resolvesTo (batchSize o)
       (sessionThenConnector
          (getParquetBatchSize session kParquetSessionWriteBatchSize)
          (getParquetBatchSize connectorConfig
             kParquetHiveConnectorWriteBatchSize))
       (batchSize o')
  /\ resolvesTo (createdBy o)
       (getParquetCreatedBy connectorConfig kParquetHiveConnectorCreatedBy)
       (createdBy o').
End ConfigVocabulary.

(** The options reached by [processConfigs], however it ends. *)
Definition optionsAfter (r : ConfigOutcome) : ConfiguredOptions :=
  match r with
  | Configured o | ConfigThrows _ o => o
  end.

(** Every member set in [o] has the same value in [o']. *)
Definition keepsExplicit (o o' : ConfiguredOptions) : Prop :=
  (forall v, parquetWriteTimestampUnit o = Some v ->
             parquetWriteTimestampUnit o' = Some v)
  /\ (forall v, parquetWriteTimestampTimeZone o = Some v ->
                parquetWriteTimestampTimeZone o' = Some v)
  /\ (forall v, enableDictionary o = Some v -> enableDictionary o' = Some v)
  /\ (forall v, dictionaryPageSizeLimit o = Some v ->
                dictionaryPageSizeLimit o' = Some v)
  /\ (forall v, useParquetDataPageV2 o = Some v ->
                useParquetDataPageV2 o' = Some v)
  /\ (forall v, dataPageSize o = Some v -> dataPageSize o' = Some v)
  /\ (forall v, batchSize o = Some v -> batchSize o' = Some v)
  /\ (forall v, createdBy o = Some v -> createdBy o' = Some v).

(** Every member that [processConfigs] resolves is set. *)
Definition allExplicit (o : ConfiguredOptions) : Prop :=
  parquetWriteTimestampUnit o <> None
  /\ parquetWriteTimestampTimeZone o <> None
  /\ enableDictionary o <> None
  /\ dictionaryPageSizeLimit o <> None
  /\ useParquetDataPageV2 o <> None
  /\ dataPageSize o <> None
  /\ batchSize o <> None
  /\ createdBy o <> None.

Section ProtocolVocabulary.
Context `{ArrowBridge} `{!ParquetEncoder} `{FlushPolicy} `{Destination}.

(** The encoder has not been opened and has received no call, or it
    was opened once, on the canonical schema, and has then been handed
    tables only. *)
Definition openedOnce (props : WriterProperties) (int96 : bool) (w : Writer)
    : Prop :=
  exists c,
    wellStaged w c
    /\ properties c = props
    /\ writeInt96AsTimestamp_ w = int96
    /\ ((writer c = None /\ encoderCalls w = [])
        \/ (writer c <> None
            /\ exists s tables,
                 schema c = Some s
                 /\ tables <> []
                 /\ encoderCalls w =
                      Call_Open s props int96
                      :: map (fun t => Call_WriteTable t
                                         (to_int64 rowsInRowGroup)) tables)).
End ProtocolVocabulary.


(** ** Fixed-width arithmetic *)

Lemma to_int64_small (z : Z) : - 2 ^ 63 <= z < 2 ^ 63 -> to_int64 z = z.
Proof.
  intros Hz. unfold to_int64.
  rewrite Z.mod_small by lia. lia.
Qed.

Lemma to_int64_add_l (a b : Z) : to_int64 (to_int64 a + b) = to_int64 (a + b).
Proof.
  unfold to_int64. f_equal.
  replace ((a + 2 ^ 63) mod 2 ^ 64 - 2 ^ 63 + b + 2 ^ 63)
    with ((a + 2 ^ 63) mod 2 ^ 64 + b) by lia.
  rewrite Zplus_mod_idemp_l. f_equal. lia.
Qed.

(** ** The output stream *)

Lemma flushedAfter_shift (ops : list SinkOp) :
  forall buffered flushed,
    flushedAfter ops buffered flushed = flushed + flushedAfter ops buffered 0.
Proof.
  induction ops as [|[data|] ops IH]; intros buffered flushed; simpl.
  - lia.
  - apply IH.
  - rewrite (IH [] (flushed + _)), (IH [] (0 + _)). lia.
Qed.

Section StreamFacts.
Context `{Destination}.

Lemma sinkRun_cons (op : SinkOp) (ops : list SinkOp) (s : ArrowDataBufferSink) :
  sinkRun (op :: ops) s = sinkRun ops (sinkStep s op).
Proof. reflexivity. Qed.

Lemma sinkStep_Flush (s : ArrowDataBufferSink) (sink : FileSink) :
  sink_ s = Some sink ->
  exists fs,
    sinkStep s OpFlush =
      {| sink_ := Some fs; buffer_ := [];
         bytesFlushed_ :=
           to_int64 (bytesFlushed_ s + Z.of_nat (length (buffer_ s))) |}.
Proof.
  intros Hsink.
  unfold sinkStep, Sink_Flush, bind, modify, get, put, throw. simpl.
  rewrite Hsink.
  destruct (write_succeeds sink (buffer_ s)); simpl; eauto.
Qed.

Lemma sinkRun_state (ops : list SinkOp) :
  forall s,
    sink_ s <> None ->
    buffer_ (sinkRun ops s) = bufferedAfter ops (buffer_ s)
    /\ to_int64 (bytesFlushed_ (sinkRun ops s))
       = to_int64 (bytesFlushed_ s + flushedAfter ops (buffer_ s) 0).
Proof.
  induction ops as [|[data|] ops IH]; intros s Hs.
  - simpl. split; [reflexivity | f_equal; lia].
  - rewrite sinkRun_cons. apply (IH (sinkStep s (OpWrite data))). exact Hs.
  - rewrite sinkRun_cons.
    destruct (sink_ s) as [sink|] eqn:Hsink; [|congruence].
    destruct (sinkStep_Flush s sink Hsink) as [fs Hstep].
    destruct (IH (sinkStep s OpFlush)) as [Hb Hf];
      [rewrite Hstep; simpl; congruence|].
    rewrite Hstep in Hb, Hf |- *.
    simpl in Hb, Hf. split; [exact Hb|].
    rewrite Hf, to_int64_add_l. simpl flushedAfter.
    rewrite (flushedAfter_shift ops [] (0 + _)). f_equal. lia.
Qed.

(** C7.  After any sequence of [Write] and [Flush] calls on a new
    stream, [Tell] returns the total size of the buffers handed over by
    the past flushes plus the size of the bytes held in the buffer, as
    an [int64_t]; the buffer holds exactly the bytes written since the
    last flush; and [Tell] leaves the stream as it was: nothing is
    flushed.  While the total stays below 2^63 the value is the exact
    sum. *)
Theorem Tell_is_flushed_plus_buffered (sink : FileSink) (ops : list SinkOp) :
  let s := sinkRun ops (ArrowDataBufferSink_new sink) in
  let flushed := flushedAfter ops [] 0 in
  let buffered := Z.of_nat (length (buffer_ s)) in
  buffer_ s = bufferedAfter ops []
  /\ Sink_Tell s = Returns (to_int64 (flushed + buffered)) s
  /\ (0 <= flushed + buffered < 2 ^ 63 ->
      Sink_Tell s = Returns (flushed + buffered) s).
Proof.
  intros s flushed buffered.
  destruct (sinkRun_state ops (ArrowDataBufferSink_new sink)) as [Hb Hf];
    [discriminate|].
  simpl in Hb, Hf. fold s in Hb, Hf. fold flushed in Hf.
  assert (HT : Sink_Tell s = Returns (to_int64 (flushed + buffered)) s).
  { unfold Sink_Tell, bind, get, ret. f_equal.
    rewrite <- to_int64_add_l, Hf, to_int64_add_l. reflexivity. }
  split; [exact Hb|]. split; [exact HT|].
  intros Hrange. rewrite HT. f_equal. apply to_int64_small. lia.
Qed.
End StreamFacts.

Lemma Tell_is_flushed_plus_buffered_witness :
  let ops := [OpWrite [x01; x02]; OpFlush; OpWrite [x03]] in
  let s := @sinkRun referenceDestination ops (ArrowDataBufferSink_new emptySink) in
  0 <= 3 < 2 ^ 63 /\ Sink_Tell s = Returns 3 s.
Proof.
  split; [lia|].
  apply (proj2 (proj2 (@Tell_is_flushed_plus_buffered referenceDestination
                         emptySink [OpWrite [x01; x02]; OpFlush; OpWrite [x03]]))).
  vm_compute. split; [discriminate | reflexivity].
Defined.

(** ** Schema validation *)

Lemma Type_ind_nested (P : Type_ -> Prop) :
  (forall k, P (Scalar k)) ->
  (forall e, P e -> P (ARRAY e)) ->
  (forall k v, P k -> P v -> P (MAP k v)) ->
  (forall fields, Forall (fun p => P (snd p)) fields -> P (ROW fields)) ->
  forall t, P t.
Proof.
  intros HS HA HM HR. fix IH 1. intros [k|e|k v|fields].
  - apply HS.
  - apply HA, IH.
  - apply HM; apply IH.
  - apply HR. induction fields as [|[n t] fs IHfs]; constructor.
    + apply IH.
    + exact IHfs.
Qed.

Lemma validateRowType_ROW (fields : RowType) :
  validateRowType (ROW fields) =
    match checkFieldNames (map fst fields) ∅ with
    | inl e => inl e
    | inr _ => validateChildren fields
    end.
Proof.
  simpl. destruct (checkFieldNames (map fst fields) ∅); [reflexivity|].
  induction fields as [|[n child] rest IH]; [reflexivity|].
  cbn [validateChildren]. rewrite <- IH. reflexivity.
Qed.

Lemma rowLevels_ROW (fields : RowType) :
  rowLevels (ROW fields) =
    map fst fields :: flat_map (fun p => rowLevels (snd p)) fields.
Proof.
  simpl. f_equal.
  induction fields as [|[n child] rest IH]; [reflexivity|].
  cbn [flat_map snd]. rewrite <- IH. reflexivity.
Qed.

Lemma structLevels_ROW (fields : RowType) :
  structLevels (ROW fields) =
    map fst fields :: flat_map (fun p => structLevels (snd p)) fields.
Proof.
  simpl. f_equal.
  induction fields as [|[n child] rest IH]; [reflexivity|].
  cbn [flat_map snd]. rewrite <- IH. reflexivity.
Qed.

Lemma checkFieldNames_ok (fieldNames : list string) :
  forall uniqueNames : gset string,
    checkFieldNames fieldNames uniqueNames = inr tt <->
    ("" ∉ fieldNames) /\ NoDup fieldNames
    /\ (forall n, n ∈ fieldNames -> n ∉ uniqueNames).
Proof.
  induction fieldNames as [|name rest IH]; intros uniqueNames; simpl.
  - split; [intros _|reflexivity].
    split; [apply not_elem_of_nil|]. split; [constructor|].
    intros n Hn. apply elem_of_nil in Hn. contradiction.
  - destruct (String.eqb_spec name "") as [->|Hne].
    { split; [discriminate|]. intros [Hin _]. exfalso. apply Hin. left. }
    case_bool_decide as Hseen.
    { split; [discriminate|]. intros (_ & _ & Hfresh). exfalso.
      apply (Hfresh name); [left | exact Hseen]. }
    rewrite IH, NoDup_cons, not_elem_of_cons.
    split.
    + intros (Hempty & Hnd & Hfresh). repeat split; try assumption.
      * congruence.
      * intros Hin. apply (Hfresh name Hin).
        apply elem_of_union. left. apply elem_of_singleton. reflexivity.
      * intros n Hn. apply elem_of_cons in Hn as [->|Hn]; [exact Hseen|].
        intros HU. apply (Hfresh n Hn), elem_of_union. right. exact HU.
    + intros ((_ & Hempty) & (Hnotin & Hnd) & Hfresh).
      repeat split; try assumption.
      intros n Hn. apply not_elem_of_union. split.
      * intros Heq. apply elem_of_singleton in Heq. subst. contradiction.
      * apply Hfresh. right. exact Hn.
Qed.

Lemma not_illNamed (level : list string) :
  ~ illNamed level <-> ("" ∉ level) /\ NoDup level.
Proof.
  unfold illNamed. split.
  - intros Hn. split; [tauto|].
    destruct (decide (NoDup level)); [assumption | tauto].
  - tauto.
Qed.

Lemma validateRowType_ok (t : Type_) :
  validateRowType t = inr tt <->
  Forall (fun level => ~ illNamed level) (rowLevels t).
Proof.
  induction t as [k|e _|k v _ _|fields IH] using Type_ind_nested;
    try (simpl; split; [constructor | reflexivity]).
  rewrite validateRowType_ROW, rowLevels_ROW, Forall_cons.
  assert (Hchildren :
    validateChildren fields = inr tt <->
    Forall (fun level => ~ illNamed level)
           (flat_map (fun p => rowLevels (snd p)) fields)).
  { induction IH as [|[n child] rest Hchild _ IHrest]; simpl.
    - split; [constructor | reflexivity].
    - rewrite Forall_app. simpl in Hchild. rewrite <- Hchild, <- IHrest.
      destruct child as [k|e|k v|sub];
        try (simpl; split; [intros ->; split; reflexivity | intros [_ ->]; reflexivity]).
      destruct (validateRowType (ROW sub)) as [e|[]].
      + split; [discriminate | intros [? _]; discriminate].
      + split; [intros ->; split; reflexivity | intros [_ ->]; reflexivity]. }
  rewrite <- Hchildren, not_illNamed.
  destruct (checkFieldNames (map fst fields) ∅) as [e|[]] eqn:Hcheck.
  - split; [discriminate|]. intros [[Hempty Hnd] _].
    assert (Hok : checkFieldNames (map fst fields) ∅ = inr tt).
    { apply checkFieldNames_ok. repeat split; try assumption.
      intros n _. apply not_elem_of_empty. }
    congruence.
  - apply checkFieldNames_ok in Hcheck as (Hempty & Hnd & _). tauto.
Qed.

Lemma checkFieldNames_error (fieldNames : list string) :
  forall (uniqueNames : gset string) e,
    checkFieldNames fieldNames uniqueNames = inl e -> isValidationError e.
Proof.
  induction fieldNames as [|name rest IH]; intros uniqueNames e; simpl.
  - discriminate.
  - destruct (String.eqb name "").
    { intros [= <-]. eexists. split; [reflexivity|]. right. left. reflexivity. }
    case_bool_decide.
    { intros [= <-]. eexists. split; [reflexivity|]. right. right.
      exists name. reflexivity. }
    apply IH.
Qed.

Lemma validateRowType_error (t : Type_) :
  forall e, validateRowType t = inl e -> isValidationError e.
Proof.
  induction t as [k|elem _|k v _ _|fields IH] using Type_ind_nested;
    intros e; try discriminate.
  rewrite validateRowType_ROW.
  destruct (checkFieldNames (map fst fields) ∅) as [e'|[]] eqn:Hcheck.
  - intros [= <-]. apply (checkFieldNames_error _ _ _ Hcheck).
  - clear Hcheck.
    induction IH as [|[n child] rest Hchild _ IHrest]; simpl; [discriminate|].
    simpl in Hchild. destruct child as [k|elem|k v|sub]; try exact IHrest.
    destruct (validateRowType (ROW sub)) as [e'|[]] eqn:Hsub.
    + intros [= <-]. apply Hchild. reflexivity.
    + exact IHrest.
Qed.

Lemma validateSchemaRecursive_error (schema : RowTypePtr) (e : Exception) :
  validateSchemaRecursive schema = inl e -> isValidationError e.
Proof.
  destruct schema as [fields|]; unfold validateSchemaRecursive.
  - apply validateRowType_error.
  - intros [= <-]. eexists. split; [reflexivity|]. left. reflexivity.
Qed.

Lemma validateSchemaRecursive_raises (fields : RowType) :
  (exists e, validateSchemaRecursive (Some fields) = inl e) <->
  Exists illNamed (rowLevels (ROW fields)).
Proof.
  unfold validateSchemaRecursive.
  pose proof (validateRowType_ok (ROW fields)) as Hok.
  split.
  - intros [e He].
    destruct (decide (Exists illNamed (rowLevels (ROW fields)))) as [|Hno];
      [assumption|].
    exfalso. assert (Hall : validateRowType (ROW fields) = inr tt).
    { apply Hok. apply Forall_forall. intros level Hin Hill.
      apply Hno, Exists_exists. eauto. }
    congruence.
  - intros Hex. destruct (validateRowType (ROW fields)) as [e|[]]; [eauto|].
    exfalso. apply Exists_exists in Hex as (level & Hin & Hill).
    destruct Hok as [Hok _]. specialize (Hok eq_refl).
    rewrite Forall_forall in Hok. exact (Hok level Hin Hill).
Qed.

(** ** The monad *)

Section MonadFacts.
Context {S : Type}.

Lemma throwsOnly_ret {A} (P : Exception -> Prop) (a : A) :
  throwsOnly P (ret a : M S A).
Proof. intros s e s'. discriminate. Qed.

Lemma throwsOnly_fault {A} (P : Exception -> Prop) (f : Fault) :
  throwsOnly P (fault f : M S A).
Proof. intros s e s'. discriminate. Qed.

Lemma throwsOnly_throw {A} (P : Exception -> Prop) (e : Exception) :
  P e -> throwsOnly P (throw e : M S A).
Proof. intros He s e' s'. unfold throw. intros [= <- _]. exact He. Qed.

Lemma throwsOnly_get (P : Exception -> Prop) : throwsOnly P (get : M S S).
Proof. intros s e s'. discriminate. Qed.

Lemma throwsOnly_put (P : Exception -> Prop) (s0 : S) :
  throwsOnly P (put s0).
Proof. intros s e s'. discriminate. Qed.

Lemma throwsOnly_modify (P : Exception -> Prop) (f : S -> S) :
  throwsOnly P (modify f).
Proof. intros s e s'. discriminate. Qed.

Lemma throwsOnly_bind {A B} (P : Exception -> Prop) (m : M S A)
    (k : A -> M S B) :
  throwsOnly P m -> (forall a, throwsOnly P (k a)) -> throwsOnly P (bind m k).
Proof.
  intros Hm Hk s e s'. unfold bind.
  destruct (m s) as [a s1|e1 s1|f s1] eqn:Hms.
  - apply Hk.
  - intros [= <- _]. exact (Hm _ _ _ Hms).
  - discriminate.
Qed.

Lemma throwsOnly_weaken {A} (P Q : Exception -> Prop) (m : M S A) :
  throwsOnly P m -> (forall e, P e -> Q e) -> throwsOnly Q m.
Proof. intros Hm HPQ s e s' Hs. exact (HPQ _ (Hm _ _ _ Hs)). Qed.
End MonadFacts.

Ltac throws_only_step :=
  first
    [ apply throwsOnly_bind; [|intros ?]
    | apply throwsOnly_ret
    | apply throwsOnly_fault
    | apply throwsOnly_get
    | apply throwsOnly_put
    | apply throwsOnly_modify
    | match goal with
      | |- throwsOnly _ (match ?x with _ => _ end) => destruct x
      | |- throwsOnly _ (if ?b then _ else _) => destruct b
      | |- throwsOnly _ (let _ := _ in _) => cbv zeta
      end ].

Lemma updateTopLevelFields_length (arrowFields : list Field) (schema : RowType) :
  forall i newFields,
    updateTopLevelFields arrowFields schema i = inr newFields ->
    length newFields = length schema.
Proof.
  induction schema as [|[n t] rest IH]; intros i newFields; simpl.
  - intros [= <-]. reflexivity.
  - destruct (arrowFields !! i); [|discriminate].
    destruct (updateFieldNameRecursive _ _ _); [discriminate|].
    destruct (updateTopLevelFields arrowFields rest (S i)) eqn:Hrest;
      [discriminate|].
    intros [= <-]. simpl. f_equal. eapply IH, Hrest.
Qed.

(** ** Exceptions of the writer *)

Section WriterExceptions.
Context `{ArrowBridge} `{!ParquetEncoder} `{FlushPolicy} `{Destination}.

Lemma throwsOnly_context (P : Exception -> Prop) : throwsOnly P context.
Proof.
  intros w e w'. unfold context. destruct (arrowContext_ w); discriminate.
Qed.

Lemma throwsOnly_updateContext (P : Exception -> Prop) f :
  throwsOnly P (updateContext f).
Proof.
  unfold updateContext. apply throwsOnly_bind;
    [apply throwsOnly_context | intros; apply throwsOnly_modify].
Qed.

Lemma throwsOnly_onStream {A} (P : Exception -> Prop)
    (m : M ArrowDataBufferSink A) :
  throwsOnly P m -> throwsOnly P (onStream m).
Proof.
  intros Hm w e w'. unfold onStream.
  destruct (m (stream_ w)) as [a s|e1 s|f s] eqn:Hms; try discriminate.
  intros [= <- _]. exact (Hm _ _ _ Hms).
Qed.

Lemma throwsOnly_Sink_Write (P : Exception -> Prop) data :
  throwsOnly P (Sink_Write data).
Proof. apply throwsOnly_modify. Qed.

Lemma throwsOnly_Sink_Flush (P : Exception -> Prop) :
  P IOError -> throwsOnly P Sink_Flush.
Proof.
  intros HP. unfold Sink_Flush. repeat throws_only_step.
  apply throwsOnly_throw, HP.
Qed.

Lemma throwsOnly_Sink_Close (P : Exception -> Prop) :
  P IOError -> throwsOnly P Sink_Close.
Proof.
  intros HP. unfold Sink_Close.
  apply throwsOnly_bind; [apply throwsOnly_Sink_Flush, HP | intros ?].
  repeat throws_only_step. apply throwsOnly_throw, HP.
Qed.

Lemma throwsOnly_encoderCall {A} (P : Exception -> Prop) call bytes
    (status : option A) :
  P (ParquetStatusException "encoder") ->
  throwsOnly P (encoderCall call bytes status).
Proof.
  intros HP. unfold encoderCall.
  apply throwsOnly_bind; [apply throwsOnly_modify | intros ?].
  apply throwsOnly_bind;
    [apply throwsOnly_onStream, throwsOnly_Sink_Write | intros ?].
  destruct status; [apply throwsOnly_ret | apply throwsOnly_throw, HP].
Qed.

Lemma throwsOnly_materializeColumns (P : Exception -> Prop) fields :
  P StdOutOfRange ->
  forall colIdx, throwsOnly P (materializeColumns fields colIdx).
Proof.
  intros HP. induction fields as [|f rest IH]; intros colIdx; simpl.
  - apply throwsOnly_ret.
  - apply throwsOnly_bind; [apply throwsOnly_context | intros c].
    destruct (stagingChunks c !! colIdx); [|apply throwsOnly_throw, HP].
    apply throwsOnly_bind; [apply throwsOnly_updateContext | intros ?].
    destruct (ChunkedArray_Make _ _); [|apply throwsOnly_fault].
    apply throwsOnly_bind; [apply IH | intros ?; apply throwsOnly_ret].
Qed.

Lemma throwsOnly_stageColumns (P : Exception -> Prop) columns :
  P StdOutOfRange ->
  forall colIdx, throwsOnly P (stageColumns columns colIdx).
Proof.
  intros HP. induction columns as [|a rest IH]; intros colIdx; simpl.
  - apply throwsOnly_ret.
  - apply throwsOnly_bind; [apply throwsOnly_context | intros c].
    destruct (stagingChunks c !! colIdx); [|apply throwsOnly_throw, HP].
    apply throwsOnly_bind; [apply throwsOnly_updateContext | intros ?].
    apply IH.
Qed.

Lemma throwsOnly_Writer_flush : throwsOnly stagingError Writer_flush.
Proof.
  unfold Writer_flush.
  apply throwsOnly_bind; [apply throwsOnly_context | intros c].
  destruct (Z.ltb 0 (stagingRows c)); [|apply throwsOnly_ret].
  apply throwsOnly_bind.
  { unfold openFileWriter.
    apply throwsOnly_bind; [apply throwsOnly_context | intros c0].
    destruct (writer c0); [apply throwsOnly_ret|].
    destruct (schema c0); [|apply throwsOnly_fault].
    apply throwsOnly_bind; [apply throwsOnly_get | intros w].
    cbv zeta.
    apply throwsOnly_bind;
      [apply throwsOnly_encoderCall; left; reflexivity | intros fw].
    apply throwsOnly_updateContext. }
  intros _. unfold writeStagedTable.
  apply throwsOnly_bind; [apply throwsOnly_context | intros c1].
  destruct (schema c1); [|apply throwsOnly_fault].
  apply throwsOnly_bind;
    [apply throwsOnly_materializeColumns; right; left; reflexivity
    | intros chunks].
  apply throwsOnly_bind; [apply throwsOnly_context | intros c2].
  cbv zeta. destruct (writer c2); [|apply throwsOnly_fault].
  apply throwsOnly_bind;
    [apply throwsOnly_encoderCall; left; reflexivity | intros fw].
  apply throwsOnly_bind; [apply throwsOnly_updateContext | intros _].
  apply throwsOnly_bind;
    [apply throwsOnly_onStream, throwsOnly_Sink_Flush; right; right;
     reflexivity | intros _].
  apply throwsOnly_bind; [apply throwsOnly_updateContext | intros _].
  apply throwsOnly_updateContext.
Qed.

Lemma throwsOnly_stageBatch data recordBatch :
  throwsOnly stagingError (stageBatch data recordBatch).
Proof.
  unfold stageBatch.
  apply throwsOnly_bind; [apply throwsOnly_context | intros c].
  apply throwsOnly_bind.
  { destruct (schema c); [apply throwsOnly_ret|].
    apply throwsOnly_bind; [apply throwsOnly_updateContext | intros _].
    apply throwsOnly_updateContext. }
  intros _. cbv zeta.
  apply throwsOnly_bind; [apply throwsOnly_context | intros c1].
  apply throwsOnly_bind.
  { destruct (shouldFlush _);
      [apply throwsOnly_Writer_flush | apply throwsOnly_ret]. }
  intros _.
  apply throwsOnly_bind;
    [apply throwsOnly_stageColumns; right; left; reflexivity | intros _].
  apply throwsOnly_updateContext.
Qed.

(** What [convertBatch] does, by cases: it never changes the writer; it
    throws the schema mismatch exactly when the types are not
    equivalent, and a conversion error otherwise. *)
Lemma convertBatch_cases (data : Vector) (w : Writer) :
  match convertBatch data w with
  | Returns rb w' =>
      w' = w /\ equivalent (Vector_type data) (ROW (schema_ w)) = true
      /\ Vector_asRowVector data <> None
      /\ length (RecordBatch_columns rb) = length (RecordBatch_schema rb)
      /\ length (RecordBatch_schema rb) = length (schema_ w)
  | Throws e w' =>
      w' = w /\
      ((e = schemaMismatch
        /\ equivalent (Vector_type data) (ROW (schema_ w)) = false)
       \/ (conversionError e
           /\ equivalent (Vector_type data) (ROW (schema_ w)) = true
           /\ (Vector_asRowVector data = None -> e = notRowVector)))
  | Faults f w' =>
      w' = w /\ equivalent (Vector_type data) (ROW (schema_ w)) = true
      /\ Vector_asRowVector data <> None
  end.
Proof.
  unfold convertBatch, bind, get, throw, liftE, liftF, needFlatten,
    importRecordBatch, ret, fault.
  destruct (equivalent (Vector_type data) (ROW (schema_ w))) eqn:Heq; simpl;
    [|split; [reflexivity | left; split; reflexivity]].
  destruct (Vector_asRowVector data) as [rowChildren|] eqn:Hrow; simpl.
  2: { split; [reflexivity|]. right. split; [left; reflexivity|].
       split; reflexivity. }
  assert (Hconv : forall e, conversionError e ->
            w = w /\
            ((e = schemaMismatch /\ true = false)
             \/ (conversionError e /\ true = true
                 /\ (Some rowChildren = None -> e = notRowVector)))).
  { intros e He. split; [reflexivity|]. right.
    split; [exact He|]. split; [reflexivity | discriminate]. }
  match goal with
  | |- context [exportToArrow_array ?v] =>
      destruct (exportToArrow_array v) as [array|]; simpl;
        [|apply Hconv; right; left; reflexivity];
      destruct (exportToArrow_schema v) as [cschema|]; simpl;
        [|apply Hconv; right; left; reflexivity]
  end.
  destruct (ImportSchema cschema) as [arrowSchema|]; simpl;
    [|repeat split; discriminate].
  destruct (updateTopLevelFields arrowSchema (schema_ w) 0)
    as [f|newFields] eqn:Hupd; simpl; [repeat split; discriminate|].
  destruct (ImportRecordBatch array newFields) as [columns|]; simpl;
    [|apply Hconv; right; right; reflexivity].
  destruct (Nat.eqb (length columns) (length newFields)) eqn:Hlen; simpl;
    [|apply Hconv; right; right; reflexivity].
  apply Nat.eqb_eq in Hlen.
  repeat split; try discriminate; try assumption.
  apply (updateTopLevelFields_length _ _ _ _ Hupd).
Qed.

Lemma throwsOnly_Writer_write (data : Vector) :
  throwsOnly (fun e => e = schemaMismatch \/ conversionError e
                       \/ stagingError e)
             (Writer_write data).
Proof.
  unfold Writer_write. apply throwsOnly_bind.
  - intros w e w' Hw. pose proof (convertBatch_cases data w) as Hc.
    rewrite Hw in Hc. destruct Hc as [_ [[-> _]|[He _]]]; tauto.
  - intros rb. eapply throwsOnly_weaken; [apply throwsOnly_stageBatch|].
    tauto.
Qed.
End WriterExceptions.

(** ** The type check of [write] *)

Lemma TypeKind_eqb_eq (a b : TypeKind) : TypeKind_eqb a b = true <-> a = b.
Proof. destruct a, b; simpl; split; congruence. Qed.

Lemma equivalent_eq (a : Type_) : forall b, equivalent a b = true <-> a = b.
Proof.
  induction a as [k|e IHe|k v IHk IHv|fields IH] using Type_ind_nested;
    intros [k'|e'|k' v'|fields']; simpl;
    try (split; [discriminate | congruence]).
  - rewrite TypeKind_eqb_eq. split; congruence.
  - rewrite IHe. split; congruence.
  - rewrite andb_true_iff, IHk, IHv. split; [intros [-> ->] | intros [= -> ->]]; auto.
  - revert fields'.
    induction IH as [|[n t] rest Hhead _ IHrest]; intros [|[n' t'] rest'];
      try (split; [discriminate | congruence]).
    + split; reflexivity.
    + rewrite !andb_true_iff, String.eqb_eq. simpl in Hhead.
      rewrite Hhead, IHrest.
      split; [intros [[-> ->] [= ->]] | intros [= -> -> ->]]; auto.
Qed.

Section WriteChecks.
Context `{ArrowBridge} `{!ParquetEncoder} `{FlushPolicy} `{Destination}.

Lemma Writer_write_mismatch (data : Vector) (w : Writer) :
  equivalent (Vector_type data) (ROW (schema_ w)) = false ->
  Writer_write data w = Throws schemaMismatch w.
Proof.
  intros Hne. unfold Writer_write, convertBatch, bind, get, throw.
  rewrite Hne. reflexivity.
Qed.

Lemma Writer_write_Throws (data : Vector) (w w' : Writer) (e : Exception) :
  Writer_write data w = Throws e w' ->
  (e = schemaMismatch
   /\ equivalent (Vector_type data) (ROW (schema_ w)) = false)
  \/ ((conversionError e \/ stagingError e)
      /\ equivalent (Vector_type data) (ROW (schema_ w)) = true).
Proof.
  unfold Writer_write, bind. pose proof (convertBatch_cases data w) as Hc.
  destruct (convertBatch data w) as [rb w1|e1 w1|f w1]; [| |discriminate].
  - destruct Hc as (-> & Heq & _). intros Hst. right. split; [|exact Heq].
    right. exact (throwsOnly_stageBatch data rb _ _ _ Hst).
  - intros [= <- <-]. destruct Hc as [_ [[-> Hne]|(He & Heq & _)]]; tauto.
Qed.

(** C1.  [write] compares the type of the batch with the writer's schema
    before anything else.  When the two are not equal (field order,
    field names and nested types), it throws the schema-mismatch user
    error and leaves the writer exactly as it was: nothing is converted
    into the writer and nothing is staged.  When they are equal, [write]
    never throws that error.  In particular a batch whose field types
    agree position by position with the schema but whose field names
    differ is rejected. *)
Theorem write_rejects_unequal_type (data : Vector) (w : Writer) :
  (Vector_type data <> ROW (schema_ w) ->
   Writer_write data w = Throws schemaMismatch w)
  /\ (Vector_type data = ROW (schema_ w) ->
      forall w', Writer_write data w <> Throws schemaMismatch w')
  /\ (forall fields,
        Vector_type data = ROW fields ->
        map snd fields = map snd (schema_ w) ->
        map fst fields <> map fst (schema_ w) ->
        Writer_write data w = Throws schemaMismatch w).
Proof.
  assert (Hreject : Vector_type data <> ROW (schema_ w) ->
                    Writer_write data w = Throws schemaMismatch w).
  { intros Hne. apply Writer_write_mismatch.
    destruct (equivalent _ _) eqn:Heq; [|reflexivity].
    apply equivalent_eq in Heq. contradiction. }
  split; [exact Hreject|]. split.
  - intros Heq w' Hthrows.
    apply Writer_write_Throws in Hthrows as [[_ Hne]|[Herr _]].
    + assert (Ht : equivalent (Vector_type data) (ROW (schema_ w)) = true)
        by (apply equivalent_eq; exact Heq).
      congruence.
    + unfold schemaMismatch, conversionError, stagingError, notRowVector
        in Herr.
      destruct Herr as [[|[|]]|[|[|]]]; discriminate.
  - intros fields Htype _ Hnames. apply Hreject.
    rewrite Htype. intros [= ->]. contradiction.
Qed.

(** C9 (amended).  An input that is not a row vector never gets past the
    two checks at the head of [write], and the writer is left as it was:
    when its type is not equivalent to the schema, the schema-mismatch
    user error is thrown by the type check; otherwise the flattening
    check throws the runtime error on the failed cast. *)
Theorem write_rejects_non_row_vector (data : Vector) (w : Writer) :
  Vector_asRowVector data = None ->
  Writer_write data w =
    Throws (if equivalent (Vector_type data) (ROW (schema_ w))
            then notRowVector else schemaMismatch) w.
Proof.
  intros Hrow. unfold Writer_write, convertBatch, bind, get, throw, liftE,
    needFlatten.
  destruct (equivalent (Vector_type data) (ROW (schema_ w))); simpl;
    [|reflexivity].
  rewrite Hrow. reflexivity.
Qed.

(** C5 (amended).  [abort] releases the destination and the staging
    context.  After it, [flush], [close] and [write] never return
    normally, and the writer is left as [abort] left it: no encoder call
    is made and there is no destination to receive bytes. *)
Theorem no_output_after_abort (data : Vector) (w : Writer) :
  let aborted := final_state (Writer_abort w) in
  Writer_abort w = Returns tt aborted
  /\ sink_ (stream_ aborted) = None
  /\ encoderCalls aborted = encoderCalls w
  /\ stopsAt aborted (Writer_flush aborted)
  /\ stopsAt aborted (Writer_close aborted)
  /\ stopsAt aborted (Writer_write data aborted).
Proof.
  intros aborted. split; [reflexivity|]. split; [reflexivity|].
  split; [reflexivity|].
  assert (Hflush : Writer_flush aborted = Faults NullPointerDereference aborted)
    by reflexivity.
  split; [|split].
  - rewrite Hflush. reflexivity.
  - unfold Writer_close, bind. rewrite Hflush. reflexivity.
  - unfold stopsAt, Writer_write, bind.
    pose proof (convertBatch_cases data aborted) as Hc.
    destruct (convertBatch data aborted) as [rb w1|e w1|f w1].
    + destruct Hc as [-> _]. reflexivity.
    + tauto.
    + tauto.
Qed.
End WriteChecks.

Lemma write_rejects_unequal_type_witness :
  let data := rowBatch [("b", Scalar BIGINT)] 3 [[1; 2; 3]] in
  Vector_type data <> ROW (schema_ referenceWriter)
  /\ @Writer_write referenceBridge referenceEncoder referencePolicy
        referenceDestination data referenceWriter
     = Throws schemaMismatch referenceWriter.
Proof.
  assert (Hne : Vector_type (rowBatch [("b", Scalar BIGINT)] 3 [[1; 2; 3]])
                <> ROW (schema_ referenceWriter)) by discriminate.
  split; [exact Hne|].
  exact (proj1 (@write_rejects_unequal_type referenceBridge referenceEncoder
                  referencePolicy referenceDestination _ referenceWriter) Hne).
Defined.

Lemma write_rejects_non_row_vector_witness :
  Vector_asRowVector (flatColumn 3 [1; 2; 3]) = None
  /\ @Writer_write referenceBridge referenceEncoder referencePolicy
        referenceDestination (flatColumn 3 [1; 2; 3]) referenceWriter
     = Throws schemaMismatch referenceWriter.
Proof.
  split; [reflexivity|].
  exact (@write_rejects_non_row_vector referenceBridge referenceEncoder
           referencePolicy referenceDestination (flatColumn 3 [1; 2; 3])
           referenceWriter eq_refl).
Defined.

(** C9, as stated, fails: a flat [BIGINT] vector is not a row vector, and
    [write] rejects it at the type check with the schema-mismatch user
    error, not with the error of the flattening check. *)
Lemma flat_vector_fails_type_check_first :
  Vector_asRowVector (flatColumn 3 [1; 2; 3]) = None
  /\ ~ (exists w',
          @Writer_write referenceBridge referenceEncoder referencePolicy
            referenceDestination (flatColumn 3 [1; 2; 3]) referenceWriter
          = Throws notRowVector w').
Proof.
  split; [reflexivity|]. intros [w' Hw']. vm_compute in Hw'. discriminate.
Qed.

(** C5, as stated, fails: after [abort], [flush] neither throws nor
    returns; it dereferences the released context. *)
Lemma flush_after_abort_faults :
  let aborted :=
    final_state (@Writer_abort referenceBridge referenceEncoder referenceWriter) in
  @Writer_flush referenceBridge referenceEncoder referencePolicy
    referenceDestination aborted = Faults NullPointerDereference aborted
  /\ ~ ((exists e w',
          @Writer_flush referenceBridge referenceEncoder referencePolicy
            referenceDestination aborted = Throws e w')
        \/ (exists w',
              @Writer_flush referenceBridge referenceEncoder referencePolicy
                referenceDestination aborted = Returns tt w')).
Proof.
  split; [reflexivity|]. intros [(e & w' & Hw')|(w' & Hw')]; discriminate.
Qed.

(** ** Construction *)

Lemma columnCompressions_error m e :
  columnCompressions m = inl e -> e = VeloxRuntimeError "Unsupported compression".
Proof.
  induction m as [|[column kind] rest IH]; simpl; [discriminate|].
  destruct kind; simpl; try (intros [= <-]; reflexivity);
    destruct (columnCompressions rest); try discriminate;
    intros [= <-]; apply IH; reflexivity.
Qed.

Lemma getArrowParquetWriterOptions_error `{FlushPolicy} options e :
  getArrowParquetWriterOptions options = inl e ->
  e = VeloxRuntimeError "Unsupported compression".
Proof.
  unfold getArrowParquetWriterOptions.
  destruct (default CompressionKind_NONE (compressionKind options)); simpl;
    try (intros [= <-]; reflexivity);
    destruct (columnCompressions _) eqn:Hc; try discriminate;
    intros [= <-]; apply (columnCompressions_error _ _ Hc).
Qed.

Lemma schemaMismatch_not_validation : ~ isValidationError schemaMismatch.
Proof.
  intros (m & [= <-] & [Hm|[Hm|[n Hm]]]); simpl in Hm; discriminate.
Qed.

Section Construction.
Context `{ArrowBridge} `{!ParquetEncoder} `{FlushPolicy} `{Destination}.

(** C6 (amended).  The constructor validates the schema before anything
    else.  For a non-null schema it raises a schema configuration error
    if and only if the top-level struct, or a struct reached from it
    through struct-typed fields only, has an empty field name or two
    fields with the same name.  The check belongs to construction:
    [write] never raises such an error. *)
Theorem construction_validates_row_levels (sink : FileSink)
    (options : WriterOptions) (fields : RowType) :
  ((exists e, Writer_new sink options (Some fields) = inl e
              /\ isValidationError e)
   <-> Exists illNamed (rowLevels (ROW fields)))
  /\ (forall data w e w',
        Writer_write data w = Throws e w' -> ~ isValidationError e).
Proof.
  split.
  - rewrite <- validateSchemaRecursive_raises. unfold Writer_new.
    destruct (validateSchemaRecursive (Some fields)) as [e|[]] eqn:Hv.
    + split; [eauto|]. intros _. exists e. split; [reflexivity|].
      apply (validateSchemaRecursive_error _ _ Hv).
    + split; [|intros [e He]; discriminate].
      intros (e & He & Hve). exfalso.
      destruct (getArrowParquetWriterOptions options) eqn:Hopt;
        [|discriminate].
      injection He as <-.
      apply getArrowParquetWriterOptions_error in Hopt as ->.
      destruct Hve as (m & Hm & _). discriminate.
  - intros data w e w' Hthrows Hve.
    apply throwsOnly_Writer_write in Hthrows.
    destruct Hthrows as [->|[Hc|Hs]].
    + exact (schemaMismatch_not_validation Hve).
    + destruct Hve as (m & -> & _).
      destruct Hc as [Hc|[Hc|Hc]]; discriminate.
    + destruct Hve as (m & -> & _).
      destruct Hs as [Hs|[Hs|Hs]]; discriminate.
Qed.
End Construction.

Lemma construction_validates_row_levels_witness :
  let data := rowBatch [("b", Scalar BIGINT)] 3 [[1; 2; 3]] in
  @Writer_write referenceBridge referenceEncoder referencePolicy
    referenceDestination data referenceWriter
  = Throws schemaMismatch referenceWriter
  /\ ~ isValidationError schemaMismatch.
Proof.
  split; [reflexivity|].
  exact (proj2 (@construction_validates_row_levels referenceBridge
                  referenceEncoder referencePolicy referenceDestination
                  emptySink plainOptions oneColumn)
               (rowBatch [("b", Scalar BIGINT)] 3 [[1; 2; 3]])
               referenceWriter schemaMismatch referenceWriter eq_refl).
Defined.

(** C6, as stated, fails: in this schema a struct (the element of a list)
    has an empty field name, and construction succeeds. *)
Lemma unnamed_field_under_list_is_accepted :
  Exists illNamed (structLevels (ROW listOfUnnamed))
  /\ ~ (exists e,
          @Writer_new referenceBridge referenceEncoder referencePolicy
            emptySink plainOptions (Some listOfUnnamed) = inl e).
Proof.
  split.
  - right. left. left. left.
  - intros [e He]. vm_compute in He. discriminate.
Qed.

(** ** Schema reconciliation *)

Lemma updateFieldNameRecursive_ROW (field : Field) (rowType : RowType)
    (name : string) :
  updateFieldNameRecursive field (ROW rowType) name =
    match updateChildren (as_StructType (Field_type (WithName field name)))
                         rowType 0 with
    | inl e => inl e
    | inr newFields =>
        inr (WithType (WithName field name) (arrow_struct_ newFields))
    end.
Proof.
  simpl.
  set (structType := as_StructType (Field_type (WithName field name))).
  assert (Hloop : forall cs i,
    (fix eachChild (cs : list (string * Type_)) (i : nat) : Fault + list Field :=
       match cs with
       | [] => inr []
       | (childName, childType) :: rest =>
           match structType with
           | None => inl NullPointerDereference
           | Some structFields =>
               match structFields !! i with
               | None => inl IndexOutOfBounds
               | Some f =>
                   match updateFieldNameRecursive f childType childName with
                   | inl e => inl e
                   | inr f' =>
                       match eachChild rest (S i) with
                       | inl e => inl e
                       | inr fs => inr (f' :: fs)
                       end
                   end
               end
           end
       end) cs i = updateChildren structType cs i).
  { induction cs as [|[n t] rest IH]; intros i; [reflexivity|].
    cbn [updateChildren]. rewrite <- IH. reflexivity. }
  rewrite Hloop. reflexivity.
Qed.

(** The name of a reconciled field: the given name, except for a scalar
    reconciled with the empty name, which keeps the name it had. *)
Lemma updateFieldNameRecursive_name (field : Field) (type : Type_)
    (name : string) (f' : Field) :
  updateFieldNameRecursive field type name = inr f' ->
  Field_name f' =
    if (match type with Scalar _ => String.eqb name "" | _ => false end)
    then Field_name field else name.
Proof.
  destruct type as [k|e|k v|rowType].
  - simpl. destruct (String.eqb name ""); simpl; intros [= <-]; reflexivity.
  - simpl. destruct (as_BaseListType _); [|discriminate].
    destruct (updateFieldNameRecursive _ _ _); [discriminate|].
    intros [= <-]. reflexivity.
  - simpl. destruct (as_MapType _) as [[kf vf]|]; [|discriminate].
    destruct (updateFieldNameRecursive kf _ _); [discriminate|].
    destruct (updateFieldNameRecursive vf _ _); [discriminate|].
    intros [= <-]. reflexivity.
  - rewrite updateFieldNameRecursive_ROW.
    destruct (updateChildren _ _ _); [discriminate|].
    intros [= <-]. reflexivity.
Qed.

Lemma updateChildren_names (structType : option (list Field))
    (cs : list (string * Type_)) :
  forall i newFields,
    updateChildren structType cs i = inr newFields ->
    "" ∉ map fst cs ->
    map Field_name newFields = map fst cs.
Proof.
  induction cs as [|[n t] rest IH]; intros i newFields; simpl.
  - intros [= <-] _. reflexivity.
  - destruct structType as [structFields|]; [|discriminate].
    destruct (structFields !! i) as [f|]; [|discriminate].
    destruct (updateFieldNameRecursive f t n) as [|f'] eqn:Hf; [discriminate|].
    destruct (updateChildren (Some structFields) rest (S i)) as [|fs] eqn:Hrest;
      [discriminate|].
    intros [= <-] Hempty. apply not_elem_of_cons in Hempty as [Hn Hempty].
    simpl. f_equal.
    + rewrite (updateFieldNameRecursive_name _ _ _ _ Hf).
      destruct t; try reflexivity.
      destruct (String.eqb_spec n ""); [congruence | reflexivity].
    + exact (IH _ _ Hrest Hempty).
Qed.

(** A field reconciled against a struct type is a struct whose field
    names are the logical names, when none of those is empty. *)
Lemma updateFieldNameRecursive_struct_names (field : Field)
    (rowType : RowType) (name : string) (f' : Field) :
  updateFieldNameRecursive field (ROW rowType) name = inr f' ->
  "" ∉ map fst rowType ->
  exists fs, Field_type f' = StructType fs
             /\ map Field_name fs = map fst rowType.
Proof.
  rewrite updateFieldNameRecursive_ROW.
  destruct (updateChildren _ rowType 0) as [|fs] eqn:Hloop; [discriminate|].
  intros [= <-] Hempty. exists fs. split; [reflexivity|].
  exact (updateChildren_names _ _ _ _ Hloop Hempty).
Qed.

(** C2 (amended).  For a converted field of map type, reconciliation
    recurses into the key field against the logical key type and into the
    item field against the logical value type, each with no name of its
    own, and rebuilds the map from the TYPES of the two reconciled fields:
    the key and item fields of the result are the ones the map factory
    makes (named key and value), not the reconciled fields.  The names
    given to the fields nested in the key and the value are in those
    types and so in the result: a struct key or value carries the logical
    field names. *)
Theorem map_rebuilt_from_reconciled_types (n : string) (kf vf : Field)
    (sorted nullable : bool) (md : list (string * string))
    (keyType valueType : Type_) (name : string) :
  let field := mkField n (MapType kf vf sorted) nullable md in
  updateFieldNameRecursive field (MAP keyType valueType) name =
    match updateFieldNameRecursive kf keyType "" with
    | inl e => inl e
    | inr newKeyField =>
        match updateFieldNameRecursive vf valueType "" with
        | inl e => inl e
        | inr newValueField =>
            inr (mkField name
                   (MapType
                      (mkField "key" (Field_type newKeyField) false [])
                      (mkField "value" (Field_type newValueField) true [])
                      false)
                   nullable md)
        end
    end
  /\ (forall f' newKeyField newValueField,
        updateFieldNameRecursive field (MAP keyType valueType) name = inr f' ->
        updateFieldNameRecursive kf keyType "" = inr newKeyField ->
        updateFieldNameRecursive vf valueType "" = inr newValueField ->
        as_MapType (Field_type f') =
          Some (mkField "key" (Field_type newKeyField) false [],
                mkField "value" (Field_type newValueField) true [])
        /\ (forall ks, keyType = ROW ks -> "" ∉ map fst ks ->
             exists fs, Field_type newKeyField = StructType fs
                        /\ map Field_name fs = map fst ks)
        /\ (forall vs, valueType = ROW vs -> "" ∉ map fst vs ->
             exists fs, Field_type newValueField = StructType fs
                        /\ map Field_name fs = map fst vs)).
Proof.
  intros field.
  assert (Heq :
    updateFieldNameRecursive field (MAP keyType valueType) name =
      match updateFieldNameRecursive kf keyType "" with
      | inl e => inl e
      | inr newKeyField =>
          match updateFieldNameRecursive vf valueType "" with
          | inl e => inl e
          | inr newValueField =>
              inr (mkField name
                     (MapType
                        (mkField "key" (Field_type newKeyField) false [])
                        (mkField "value" (Field_type newValueField) true [])
                        false)
                     nullable md)
          end
      end).
  { simpl. destruct (updateFieldNameRecursive kf keyType ""); [reflexivity|].
    destruct (updateFieldNameRecursive vf valueType ""); reflexivity. }
  split; [exact Heq|].
  intros f' newKeyField newValueField Hf Hk Hv.
  rewrite Heq, Hk, Hv in Hf. injection Hf as <-.
  split; [reflexivity|]. split.
  - intros ks -> Hempty.
    exact (updateFieldNameRecursive_struct_names _ _ _ _ Hk Hempty).
  - intros vs -> Hempty.
    exact (updateFieldNameRecursive_struct_names _ _ _ _ Hv Hempty).
Qed.

Lemma map_rebuilt_from_reconciled_types_witness :
  exists f' newKeyField newValueField,
    updateFieldNameRecursive convertedMapField logicalMapType "col" = inr f'
    /\ as_MapType (Field_type f') =
         Some (mkField "key" (Field_type newKeyField) false [],
               mkField "value" (Field_type newValueField) true [])
    /\ exists fs, Field_type newKeyField = StructType fs
                  /\ map Field_name fs = ["a"].
Proof.
  pose proof (map_rebuilt_from_reconciled_types "m"
    (mkField "k" (StructType [mkField "f0" (Primitive "scalar") true []])
             false [])
    (mkField "v" (Primitive "scalar") true []) false true []
    (ROW [("a", Scalar BIGINT)]) (Scalar BIGINT) "col") as [_ Hparts].
  eexists _, _, _.
  destruct (Hparts _ _ _ eq_refl eq_refl eq_refl) as (Hmap & Hkey & _).
  split; [reflexivity|]. split; [exact Hmap|].
  apply (Hkey [("a", Scalar BIGINT)] eq_refl).
  intros Hin. apply list_elem_of_singleton in Hin. discriminate.
Defined.

(** C2, as stated, fails: the reconciled key field of this map has the
    empty name and the reconciled item field the name v, and the rebuilt
    map type holds neither of them; its fields are named key and value. *)
Lemma rebuilt_map_drops_reconciled_fields :
  exists f' newKeyField newValueField keyField itemField,
    updateFieldNameRecursive convertedMapField logicalMapType "col" = inr f'
    /\ updateFieldNameRecursive
         (mkField "k" (StructType [mkField "f0" (Primitive "scalar") true []])
                  false [])
         (ROW [("a", Scalar BIGINT)]) "" = inr newKeyField
    /\ updateFieldNameRecursive (mkField "v" (Primitive "scalar") true [])
         (Scalar BIGINT) "" = inr newValueField
    /\ as_MapType (Field_type f') = Some (keyField, itemField)
    /\ keyField <> newKeyField /\ itemField <> newValueField.
Proof.
  eexists _, _, _, _, _.
  split; [reflexivity|]. split; [reflexivity|]. split; [reflexivity|].
  split; [reflexivity|]. split; discriminate.
Qed.

(** ** Symbolic execution of the staging members *)

Section Staging.
Context `{ArrowBridge} `{!ParquetEncoder} `{FlushPolicy} `{Destination}.

Lemma context_eq (w : Writer) (c : ArrowContext) :
  arrowContext_ w = Some c -> context w = Returns c w.
Proof. intros Hc. unfold context. rewrite Hc. reflexivity. Qed.

Lemma updateContext_eq (f : ArrowContext -> ArrowContext) (w : Writer)
    (c : ArrowContext) :
  arrowContext_ w = Some c ->
  updateContext f w = Returns tt (setArrowContext (Some (f c)) w).
Proof.
  intros Hc. unfold updateContext, bind. rewrite (context_eq _ _ Hc).
  reflexivity.
Qed.

Lemma materializeColumns_spec (fields : list Field) :
  forall (w : Writer) (c : ArrowContext) (pre mid post : list (list Array)),
    arrowContext_ w = Some c ->
    stagingChunks c = pre ++ mid ++ post ->
    length mid = length fields ->
    match materializeColumns fields (length pre) w with
    | Returns cols w' =>
        cols = zip_with (fun arrays f => mkChunkedArray arrays (Field_type f))
                        mid fields
        /\ w' = setArrowContext
                  (Some (setStagingChunks
                           (pre ++ replicate (length mid) [] ++ post) c)) w
    | Throws _ _ => False
    | Faults _ _ => ~ chunksTyped mid fields
    end.
Proof.
  induction fields as [|f rest IH]; intros w c pre mid post Hc Hchunks Hlen.
  - destruct mid; [|discriminate]. simpl. split; [reflexivity|].
    destruct c, w; simpl in *. subst. reflexivity.
  - destruct mid as [|arrays mid]; [discriminate|].
    injection Hlen as Hlen. simpl in Hchunks.
    cbn [materializeColumns]. unfold bind at 1.
    rewrite (context_eq _ _ Hc), Hchunks.
    rewrite list_lookup_middle by reflexivity.
    unfold bind at 1. rewrite (updateContext_eq _ _ _ Hc).
    unfold ChunkedArray_Make.
    destruct (forallb (fun a => Array_hasType a (Field_type f)) arrays)
      eqn:Htyped.
    2: { unfold fault. intros Hall. inversion Hall; subst. congruence. }
    set (w1 := setArrowContext _ w).
    assert (Hc1 : arrowContext_ w1 =
                  Some (setStagingChunks
                          (<[length pre := []]> (pre ++ arrays :: mid ++ post)) c))
      by reflexivity.
    assert (Hins : <[length pre := []]> (pre ++ arrays :: mid ++ post)
                   = (pre ++ [[]]) ++ mid ++ post).
    { rewrite insert_app_r_alt by lia. rewrite Nat.sub_diag. simpl.
      rewrite <- app_assoc. reflexivity. }
    specialize (IH w1 _ (pre ++ [[]]) mid post Hc1 Hins Hlen).
    rewrite length_app in IH. simpl in IH.
    rewrite Nat.add_1_r in IH.
    unfold bind at 1.
    destruct (materializeColumns rest (S (length pre)) w1) as [cols w2| |].
    + destruct IH as [-> ->]. unfold ret. split; [reflexivity|].
      subst w1. unfold setArrowContext, setStagingChunks. simpl.
      rewrite <- app_assoc. reflexivity.
    + exact IH.
    + intros Hall. apply IH. inversion Hall; subst. assumption.
Qed.

Lemma stageColumns_spec (columns : list Array) :
  forall (w : Writer) (c : ArrowContext) (pre mid post : list (list Array)),
    arrowContext_ w = Some c ->
    stagingChunks c = pre ++ mid ++ post ->
    length mid = length columns ->
    stageColumns columns (length pre) w =
      Returns tt
        (setArrowContext
           (Some (setStagingChunks
                    (pre ++ zip_with (fun col a => col ++ [a]) mid columns
                         ++ post) c)) w).
Proof.
  induction columns as [|a rest IH]; intros w c pre mid post Hc Hchunks Hlen.
  - destruct mid; [|discriminate]. simpl. unfold ret. f_equal.
    destruct c, w; simpl in *. subst. reflexivity.
  - destruct mid as [|arrays mid]; [discriminate|].
    injection Hlen as Hlen. simpl in Hchunks.
    cbn [stageColumns]. unfold bind at 1.
    rewrite (context_eq _ _ Hc), Hchunks.
    rewrite list_lookup_middle by reflexivity.
    unfold bind at 1. rewrite (updateContext_eq _ _ _ Hc).
    set (w1 := setArrowContext _ w).
    assert (Hc1 : arrowContext_ w1 =
                  Some (setStagingChunks
                          (<[length pre := arrays ++ [a]]>
                             (pre ++ arrays :: mid ++ post)) c))
      by reflexivity.
    assert (Hins : <[length pre := arrays ++ [a]]>
                     (pre ++ arrays :: mid ++ post)
                   = (pre ++ [arrays ++ [a]]) ++ mid ++ post).
    { rewrite insert_app_r_alt by lia. rewrite Nat.sub_diag. simpl.
      rewrite <- app_assoc. reflexivity. }
    specialize (IH w1 _ (pre ++ [arrays ++ [a]]) mid post Hc1 Hins Hlen).
    rewrite length_app in IH. simpl in IH. rewrite Nat.add_1_r in IH.
    rewrite IH. f_equal. subst w1.
    unfold setArrowContext, setStagingChunks. simpl.
    rewrite <- app_assoc. reflexivity.
Qed.

Lemma encoderCall_eq {A} (call : EncoderCall) (bytes : list byte)
    (status : option A) (w : Writer) :
  encoderCall call bytes status w =
    let w1 :=
      setStream {| sink_ := sink_ (stream_ w);
                   buffer_ := buffer_ (stream_ w) ++ bytes;
                   bytesFlushed_ := bytesFlushed_ (stream_ w) |}
                (recordCall call w) in
    match status with
    | Some a => Returns a w1
    | None => Throws (ParquetStatusException "encoder") w1
    end.
Proof.
  unfold encoderCall, bind, modify, onStream, Sink_Write, ret, throw.
  destruct status; reflexivity.
Qed.

Lemma Writer_flush_noop (w : Writer) (c : ArrowContext) :
  arrowContext_ w = Some c -> stagingRows c <= 0 ->
  Writer_flush w = Returns tt w.
Proof.
  intros Hc Hrows. unfold Writer_flush, bind.
  rewrite (context_eq _ _ Hc).
  destruct (Z.ltb_spec 0 (stagingRows c)); [lia | reflexivity].
Qed.

Lemma openFileWriter_spec (w : Writer) (c : ArrowContext) (s : Schema) :
  arrowContext_ w = Some c -> schema c = Some s ->
  match openFileWriter w with
  | Returns _ w1 =>
      exists fw,
        arrowContext_ w1 = Some (setWriter (Some fw) c)
        /\ schema_ w1 = schema_ w
        /\ writeInt96AsTimestamp_ w1 = writeInt96AsTimestamp_ w
        /\ encoderCalls w1 = encoderCalls w ++ openCalls w c s
        /\ streamGrew w w1
  | Throws e w1 =>
      ~ reliable
      /\ arrowContext_ w1 = Some c /\ schema_ w1 = schema_ w
      /\ encoderCalls w1 = encoderCalls w ++ openCalls w c s
  | Faults _ _ => False
  end.
Proof.
  intros Hc Hs. unfold openFileWriter, bind at 1.
  rewrite (context_eq _ _ Hc). unfold openCalls.
  destruct (writer c) as [fw|] eqn:Hw.
  - unfold ret. exists fw. split.
    { rewrite Hc. f_equal. destruct c; simpl in *. subst. reflexivity. }
    split; [reflexivity|]. split; [reflexivity|].
    split; [rewrite app_nil_r; reflexivity|].
    exists []. rewrite app_nil_r. destruct (stream_ w); reflexivity.
  - rewrite Hs. unfold bind, get. cbv zeta. rewrite encoderCall_eq. cbv zeta.
    destruct (snd (FileWriter_Open s (properties c) (writeInt96AsTimestamp_ w)))
      as [fw|] eqn:Hopen.
    + rewrite (updateContext_eq _ _ c) by exact Hc.
      exists fw. repeat split; try reflexivity. eexists. reflexivity.
    + split; [|repeat split; assumption].
      intros (Hopen' & _). exact (Hopen' _ _ _ Hopen).
Qed.

Lemma writeStagedTable_spec (w : Writer) (c : ArrowContext) (s : Schema)
    (fw : FileWriter) :
  arrowContext_ w = Some c -> schema c = Some s ->
  length (stagingChunks c) = length s -> writer c = Some fw ->
  match writeStagedTable w with
  | Returns _ w' =>
      exists c',
        arrowContext_ w' = Some c'
        /\ schema_ w' = schema_ w
        /\ writeInt96AsTimestamp_ w' = writeInt96AsTimestamp_ w
        /\ encoderCalls w' =
             encoderCalls w ++
             [Call_WriteTable (tableOf s (stagingChunks c) (stagingRows c))
                              (to_int64 rowsInRowGroup)]
        /\ schema c' = Some s
        /\ properties c' = properties c
        /\ writer c' <> None
        /\ stagingChunks c' = replicate (length (stagingChunks c)) []
        /\ stagingRows c' = 0
        /\ stagingBytes c' = 0
        /\ streamFlushed w w'
  | Throws e w' =>
      ~ reliable
      /\ exists c',
           arrowContext_ w' = Some c' /\ schema_ w' = schema_ w
           /\ schema c' = Some s
           /\ stagingChunks c' = replicate (length (stagingChunks c)) []
  | Faults _ _ =>
      ~ chunksTyped (stagingChunks c) s \/ sink_ (stream_ w) = None
  end.
Proof.
  intros Hc Hs Hlen Hw. unfold writeStagedTable, bind at 1.
  rewrite (context_eq _ _ Hc), Hs. unfold bind at 1.
  pose proof (materializeColumns_spec s w c [] (stagingChunks c) [] Hc) as Hm.
  rewrite app_nil_r in Hm. specialize (Hm eq_refl Hlen).
  change (length (@nil (list Array))) with 0%nat in Hm.
  destruct (materializeColumns s 0 w) as [cols w1|e w1|f w1];
    [|contradiction|left; exact Hm].
  destruct Hm as [-> ->]. rewrite app_nil_r. simpl app.
  set (c1 := setStagingChunks (replicate (length (stagingChunks c)) []) c).
  set (w1 := setArrowContext (Some c1) w).
  assert (Hc1 : arrowContext_ w1 = Some c1) by reflexivity.
  unfold bind at 1. rewrite (context_eq _ _ Hc1). cbv zeta.
  change (writer c1) with (writer c). rewrite Hw.
  change (stagingRows c1) with (stagingRows c).
  fold (tableOf s (stagingChunks c) (stagingRows c)).
  set (table := tableOf s (stagingChunks c) (stagingRows c)).
  unfold bind at 1. rewrite encoderCall_eq. cbv zeta.
  destruct (snd (FileWriter_WriteTable fw table (to_int64 rowsInRowGroup)))
    as [fw'|] eqn:Hwrite.
  2: { split; [intros (_ & Hwrite' & _); exact (Hwrite' _ _ _ Hwrite)|].
       exists c1. repeat split; reflexivity || assumption. }
  set (w2 := setStream _ (recordCall _ w1)).
  assert (Hc2 : arrowContext_ w2 = Some c1) by reflexivity.
  unfold bind at 1. rewrite (updateContext_eq _ _ _ Hc2).
  set (w3 := setArrowContext _ w2).
  unfold bind at 1, onStream, Sink_Flush, bind, modify, get, put, throw, fault.
  simpl.
  destruct (sink_ (stream_ w)) as [sink|] eqn:Hsink; [|right; reflexivity].
  match goal with
  | |- context [write_succeeds sink ?d] =>
      destruct (write_succeeds sink d) eqn:Hdest
  end.
  2: { simpl. split;
         [intros (_ & _ & _ & Hdest' & _); rewrite Hdest' in Hdest;
          discriminate|].
       eexists. repeat split; reflexivity || assumption. }
  simpl. unfold updateContext, bind, context, modify. simpl.
  eexists. split; [reflexivity|]. simpl.
  repeat split; try reflexivity; try assumption; try discriminate.
  - rewrite fmap_replicate. reflexivity.
  - exists sink. eexists. split; [exact Hsink | reflexivity].
Qed.

Lemma Writer_flush_spec (w : Writer) (c : ArrowContext) (s : Schema) :
  arrowContext_ w = Some c -> schema c = Some s ->
  length (stagingChunks c) = length s -> 0 < stagingRows c ->
  match Writer_flush w with
  | Returns _ w' => flushedFrom w c s w'
  | Throws e w' =>
      ~ reliable
      /\ exists c',
           arrowContext_ w' = Some c' /\ schema_ w' = schema_ w
           /\ schema c' = Some s
           /\ (stagingChunks c' = stagingChunks c
               \/ stagingChunks c' = replicate (length (stagingChunks c)) [])
  | Faults _ _ =>
      ~ chunksTyped (stagingChunks c) s \/ sink_ (stream_ w) = None
  end.
Proof.
  intros Hc Hs Hlen Hrows. unfold Writer_flush, bind at 1.
  rewrite (context_eq _ _ Hc).
  destruct (Z.ltb_spec 0 (stagingRows c)); [|lia].
  unfold bind. pose proof (openFileWriter_spec w c s Hc Hs) as Hopen.
  destruct (openFileWriter w) as [[] w1|e w1|f w1]; [| |contradiction].
  2: { destruct Hopen as (Hrel & Hc1 & Hschema & _). split; [exact Hrel|].
       exists c. repeat split; try assumption. left. reflexivity. }
  destruct Hopen as (fw & Hc1 & Hschema & Hint96 & Hcalls & bytes1 & Hstream).
  pose proof (writeStagedTable_spec w1 _ s fw Hc1 Hs Hlen eq_refl) as Hwrite.
  change (stagingChunks (setWriter (Some fw) c)) with (stagingChunks c)
    in Hwrite.
  change (stagingRows (setWriter (Some fw) c)) with (stagingRows c) in Hwrite.
  destruct (writeStagedTable w1) as [[] w'|e w'|f w'].
  - destruct Hwrite as (c' & Hc' & Hschema' & Hint96' & Hcalls' & Hs' & Hp'
                        & Hw' & Hchunks' & Hrows' & Hbytes' & Hflushed).
    exists c'. repeat split; try assumption; try congruence.
    + rewrite Hcalls', Hcalls, <- app_assoc. reflexivity.
    + destruct Hflushed as (sink & bytes2 & Hsink & Hst).
      rewrite Hstream in Hsink, Hst. simpl in Hsink, Hst.
      exists sink, (bytes1 ++ bytes2). split; [exact Hsink|].
      rewrite Hst, <- app_assoc. reflexivity.
  - destruct Hwrite as (Hrel & c' & Hc' & Hschema' & Hs' & Hchunks').
    split; [exact Hrel|]. exists c'.
    repeat split; try assumption; try congruence. right. exact Hchunks'.
  - destruct Hwrite as [Hty|Hsink]; [left; exact Hty|right].
    rewrite Hstream in Hsink. exact Hsink.
Qed.

(** With collaborators that never fail, a present destination and
    fragments of the right types, [flush] returns. *)
Lemma Writer_flush_returns (w : Writer) (c : ArrowContext) (s : Schema) :
  reliable ->
  arrowContext_ w = Some c -> schema c = Some s ->
  length (stagingChunks c) = length s -> 0 < stagingRows c ->
  chunksTyped (stagingChunks c) s -> sink_ (stream_ w) <> None ->
  exists w', Writer_flush w = Returns tt w'.
Proof.
  intros Hrel Hc Hs Hlen Hrows Hty Hsink.
  pose proof (Writer_flush_spec w c s Hc Hs Hlen Hrows) as Hspec.
  destruct (Writer_flush w) as [[] w'|e w'|f w'].
  - eauto.
  - destruct Hspec as [Hno _]. contradiction.
  - destruct Hspec; contradiction.
Qed.

(** A [flush] that throws at the opening of the encoder has changed
    nothing in the staging. *)
Lemma openFileWriter_Throws (w : Writer) (c : ArrowContext) (s : Schema) :
  arrowContext_ w = Some c -> schema c = Some s ->
  match openFileWriter w with
  | Throws e w1 =>
      e = ParquetStatusException "encoder"
      /\ writer c = None
      /\ arrowContext_ w1 = Some c
      /\ encoderCalls w1 =
           encoderCalls w
           ++ [Call_Open s (properties c) (writeInt96AsTimestamp_ w)]
  | _ => True
  end.
Proof.
  intros Hc Hs. unfold openFileWriter, bind at 1.
  rewrite (context_eq _ _ Hc).
  destruct (writer c) as [fw|] eqn:Hw; [exact I|].
  rewrite Hs. unfold bind, get. cbv zeta. rewrite encoderCall_eq. cbv zeta.
  destruct (snd (FileWriter_Open s (properties c) (writeInt96AsTimestamp_ w)))
    as [fw|] eqn:Hopen.
  - rewrite (updateContext_eq _ _ c) by exact Hc. exact I.
  - repeat split. exact Hc.
Qed.

(** A [flush] that throws after the table was built: the fragments have
    been moved out of every staging sequence, the table has been handed
    to the encoder, and the two counters are as they were. *)
Lemma writeStagedTable_Throws (w : Writer) (c : ArrowContext) (s : Schema)
    (fw : FileWriter) :
  arrowContext_ w = Some c -> schema c = Some s ->
  length (stagingChunks c) = length s -> writer c = Some fw ->
  match writeStagedTable w with
  | Throws e w' =>
      (e = ParquetStatusException "encoder" \/ e = IOError)
      /\ exists c',
           arrowContext_ w' = Some c'
           /\ stagingChunks c' = replicate (length (stagingChunks c)) []
           /\ stagingRows c' = stagingRows c
           /\ stagingBytes c' = stagingBytes c
           /\ encoderCalls w' =
                encoderCalls w ++
                [Call_WriteTable (tableOf s (stagingChunks c) (stagingRows c))
                                 (to_int64 rowsInRowGroup)]
  | _ => True
  end.
Proof.
  intros Hc Hs Hlen Hw. unfold writeStagedTable, bind at 1.
  rewrite (context_eq _ _ Hc), Hs. unfold bind at 1.
  pose proof (materializeColumns_spec s w c [] (stagingChunks c) [] Hc) as Hm.
  rewrite app_nil_r in Hm. specialize (Hm eq_refl Hlen).
  change (length (@nil (list Array))) with 0%nat in Hm.
  destruct (materializeColumns s 0 w) as [cols w1|e w1|f w1];
    [|contradiction|exact I].
  destruct Hm as [-> ->]. rewrite app_nil_r. simpl app.
  set (c1 := setStagingChunks (replicate (length (stagingChunks c)) []) c).
  set (w1 := setArrowContext (Some c1) w).
  assert (Hc1 : arrowContext_ w1 = Some c1) by reflexivity.
  unfold bind at 1. rewrite (context_eq _ _ Hc1). cbv zeta.
  change (writer c1) with (writer c). rewrite Hw.
  change (stagingRows c1) with (stagingRows c).
  fold (tableOf s (stagingChunks c) (stagingRows c)).
  set (table := tableOf s (stagingChunks c) (stagingRows c)).
  unfold bind at 1. rewrite encoderCall_eq. cbv zeta.
  destruct (snd (FileWriter_WriteTable fw table (to_int64 rowsInRowGroup)))
    as [fw'|] eqn:Hwrite.
  2: { split; [left; reflexivity|]. exists c1. repeat split. }
  set (w2 := setStream _ (recordCall _ w1)).
  assert (Hc2 : arrowContext_ w2 = Some c1) by reflexivity.
  unfold bind at 1. rewrite (updateContext_eq _ _ _ Hc2).
  set (w3 := setArrowContext _ w2).
  unfold bind at 1, onStream, Sink_Flush, bind, modify, get, put, throw, fault.
  simpl.
  destruct (sink_ (stream_ w)) as [sink|] eqn:Hsink; [|exact I].
  match goal with
  | |- context [write_succeeds sink ?d] =>
      destruct (write_succeeds sink d) eqn:Hdest
  end.
  2: { simpl. split; [right; reflexivity|]. eexists. repeat split. }
  simpl. unfold updateContext, bind, context, modify. simpl. exact I.
Qed.

(** What a [flush] that threw has left. *)
Lemma Writer_flush_Throws (w : Writer) (c : ArrowContext) (s : Schema)
    (e : Exception) (w' : Writer) :
  arrowContext_ w = Some c -> schema c = Some s ->
  length (stagingChunks c) = length s -> 0 < stagingRows c ->
  Writer_flush w = Throws e w' ->
  exists c',
    arrowContext_ w' = Some c'
    /\ stagingRows c' = stagingRows c
    /\ stagingBytes c' = stagingBytes c
    /\ ((e = ParquetStatusException "encoder"
         /\ writer c = None
         /\ stagingChunks c' = stagingChunks c
         /\ tablesOf (encoderCalls w') = tablesOf (encoderCalls w))
        \/ ((e = ParquetStatusException "encoder" \/ e = IOError)
            /\ stagingChunks c' = replicate (length (stagingChunks c)) []
            /\ tablesOf (encoderCalls w') =
                 tablesOf (encoderCalls w)
                 ++ [tableOf s (stagingChunks c) (stagingRows c)])).
Proof.
  intros Hc Hs Hlen Hrows. unfold Writer_flush, bind at 1.
  rewrite (context_eq _ _ Hc).
  destruct (Z.ltb_spec 0 (stagingRows c)); [|lia].
  unfold bind.
  pose proof (openFileWriter_spec w c s Hc Hs) as Hopen.
  pose proof (openFileWriter_Throws w c s Hc Hs) as Hfail.
  destruct (openFileWriter w) as [[] w1|e1 w1|f w1]; [| |discriminate].
  2: { destruct Hfail as (-> & Hnone & Hc1 & Hcalls). intros [= <- <-].
       exists c. split; [exact Hc1|]. split; [reflexivity|].
       split; [reflexivity|]. left. split; [reflexivity|].
       split; [exact Hnone|]. split; [reflexivity|].
       rewrite Hcalls. unfold tablesOf. rewrite omap_app. simpl.
       rewrite app_nil_r. reflexivity. }
  destruct Hopen as (fw & Hc1 & _ & _ & Hcalls & _).
  pose proof (writeStagedTable_Throws w1 _ s fw Hc1 Hs Hlen eq_refl)
    as Hwrite.
  change (stagingChunks (setWriter (Some fw) c)) with (stagingChunks c)
    in Hwrite.
  change (stagingRows (setWriter (Some fw) c)) with (stagingRows c) in Hwrite.
  change (stagingBytes (setWriter (Some fw) c)) with (stagingBytes c)
    in Hwrite.
  destruct (writeStagedTable w1) as [[] w2|e2 w2|f w2]; try discriminate.
  destruct Hwrite as (He & c' & Hc' & Hchunks' & Hrows' & Hbytes' & Hcalls').
  intros [= <- <-]. exists c'. split; [exact Hc'|].
  split; [exact Hrows'|]. split; [exact Hbytes'|]. right.
  split; [exact He|]. split; [exact Hchunks'|].
  rewrite Hcalls', Hcalls. unfold tablesOf, openCalls.
  rewrite !omap_app. destruct (writer c); simpl; rewrite ?app_nil_r;
    reflexivity.
Qed.

(** C4 (amended).  [flush] on an open writer.  With no row staged it
    returns and the writer is unchanged: no encoder is opened, no table
    is built.  With rows staged, a [flush] that returns has built one
    table from exactly the staged sequences, column by column, with the
    staged row count, has handed it to the encoder (after opening the
    encoder if it was not open), has flushed the stream to the
    destination, and has left every staging sequence empty and both
    counters at zero; and it does return when the collaborators succeed.
    A [flush] that throws is not all or nothing: both counters keep
    their values, and the staging sequences are untouched only if the
    opening of the encoder failed; if the encoder refused the table or
    the destination failed, the table has been handed over and every
    staging sequence is empty. *)
Theorem flush_clears_all_or_keeps_counters (w : Writer) (c : ArrowContext) :
  arrowContext_ w = Some c ->
  (stagingRows c = 0 -> Writer_flush w = Returns tt w)
  /\ (0 < stagingRows c ->
      forall s,
        schema c = Some s -> length (stagingChunks c) = length s ->
        (forall w', Writer_flush w = Returns tt w' -> flushedFrom w c s w')
        /\ (reliable -> chunksTyped (stagingChunks c) s ->
            sink_ (stream_ w) <> None ->
            exists w', Writer_flush w = Returns tt w')
        /\ (forall e w',
              Writer_flush w = Throws e w' ->
              exists c',
                arrowContext_ w' = Some c'
                /\ stagingRows c' = stagingRows c
                /\ stagingBytes c' = stagingBytes c
                /\ ((e = ParquetStatusException "encoder"
                     /\ writer c = None
                     /\ stagingChunks c' = stagingChunks c
                     /\ tablesOf (encoderCalls w')
                        = tablesOf (encoderCalls w))
                    \/ ((e = ParquetStatusException "encoder" \/ e = IOError)
                        /\ stagingChunks c'
                           = replicate (length (stagingChunks c)) []
                        /\ tablesOf (encoderCalls w') =
                             tablesOf (encoderCalls w)
                             ++ [tableOf s (stagingChunks c)
                                         (stagingRows c)])))).
Proof.
  intros Hc. split.
  - intros Hrows. apply (Writer_flush_noop w c Hc). lia.
  - intros Hrows s Hs Hlen. split; [|split].
    + intros w' Hflush.
      pose proof (Writer_flush_spec w c s Hc Hs Hlen Hrows) as Hspec.
      rewrite Hflush in Hspec. exact Hspec.
    + intros Hrel Hty Hsink.
      exact (Writer_flush_returns w c s Hrel Hc Hs Hlen Hrows Hty Hsink).
    + intros e w' Hthrows.
      exact (Writer_flush_Throws w c s e w' Hc Hs Hlen Hrows Hthrows).
Qed.
End Staging.

Lemma reference_reliable :
  @reliable referenceBridge referenceEncoder referenceDestination.
Proof. repeat split; discriminate. Qed.

Lemma flush_clears_all_or_keeps_counters_witness :
  arrowContext_ stagedWriter = Some stagedContext
  /\ exists w',
       @Writer_flush referenceBridge referenceEncoder referencePolicy
         referenceDestination stagedWriter = Returns tt w'
       /\ @flushedFrom referenceBridge referenceEncoder referencePolicy
            stagedWriter stagedContext
            [mkField "a" (Primitive "scalar") true []] w'.
Proof.
  split; [reflexivity|].
  destruct (@flush_clears_all_or_keeps_counters referenceBridge
              referenceEncoder referencePolicy referenceDestination
              stagedWriter stagedContext eq_refl) as [_ Hstaged].
  destruct (Hstaged eq_refl [mkField "a" (Primitive "scalar") true []]
              eq_refl eq_refl) as (Hdone & Hreturns & _).
  destruct Hreturns as [w' Hw'].
  - exact reference_reliable.
  - repeat constructor.
  - discriminate.
  - exists w'. split; [exact Hw' | exact (Hdone w' Hw')].
Defined.

(** C4, as stated, fails: on a destination that refuses the buffer the
    flush of one staged batch of 400 rows throws, and leaves the one
    staging sequence empty while the row counter is still 400 and the
    byte counter still 3200: a partial clear. *)
Lemma failed_flush_empties_staging_and_keeps_counters :
  stagingChunks stagedContext = [[[1; 2; 3]]]
  /\ stagingRows stagedContext = 400
  /\ stagingBytes stagedContext = 3200
  /\ exists w' c',
       @Writer_flush referenceBridge referenceEncoder referencePolicy
         failingDestination stagedWriter = Throws IOError w'
       /\ arrowContext_ w' = Some c'
       /\ stagingChunks c' = [[]]
       /\ stagingRows c' = 400
       /\ stagingBytes c' = 3200.
Proof.
  split; [reflexivity|]. split; [reflexivity|]. split; [reflexivity|].
  eexists. eexists. split; [vm_compute; reflexivity|].
  split; [reflexivity|]. split; [reflexivity|]. split; reflexivity.
Qed.

(** ** A writer that never staged a row *)

Section NeverStaged.
Context `{ArrowBridge} `{!ParquetEncoder} `{FlushPolicy} `{Destination}.

Lemma setStagingChunks_id (w : Writer) (c : ArrowContext) :
  arrowContext_ w = Some c ->
  setArrowContext (Some (setStagingChunks (stagingChunks c) c)) w = w.
Proof. intros Hc. destruct w, c; simpl in *. subst. reflexivity. Qed.

(** [stageColumns] touches nothing but the staging sequences. *)
Lemma stageColumns_frame (columns : list Array) :
  forall (colIdx : nat) (w : Writer) (c : ArrowContext),
    arrowContext_ w = Some c ->
    exists staged,
      final_state (stageColumns columns colIdx w) =
        setArrowContext (Some (setStagingChunks staged c)) w.
Proof.
  induction columns as [|a rest IH]; intros colIdx w c Hc.
  - exists (stagingChunks c). simpl. rewrite setStagingChunks_id; auto.
  - cbn [stageColumns]. unfold bind at 1. rewrite (context_eq _ _ Hc).
    destruct (stagingChunks c !! colIdx) as [arrays|].
    2: { exists (stagingChunks c). simpl.
         rewrite setStagingChunks_id; auto. }
    unfold bind. rewrite (updateContext_eq _ _ _ Hc).
    set (w1 := setArrowContext _ w).
    destruct (IH (S colIdx) w1 _ eq_refl) as [staged Hstaged].
    exists staged.
    destruct (stageColumns rest (S colIdx) w1); simpl in Hstaged |- *;
      rewrite Hstaged; reflexivity.
Qed.

Lemma neverStaged_initial (sink : FileSink) (props : WriterProperties)
    (fields : RowType) (int96 : bool) :
  neverStaged sink (initialWriter sink props fields int96).
Proof. eexists. repeat split; reflexivity. Qed.

Lemma neverStaged_stageBatch_Throws (sink : FileSink) (data : Vector)
    (rb : RecordBatch) (w w' : Writer) (e : Exception) :
  neverStaged sink w ->
  stageBatch data rb w = Throws e w' ->
  neverStaged sink w'.
Proof.
  intros (c & Hc & Hrows & Hw & Hcalls & Hstream).
  unfold stageBatch, bind at 1. rewrite (context_eq _ _ Hc).
  unfold bind at 1.
  assert (Hinit : exists c1,
    (match schema c with
     | Some _ => ret tt
     | None =>
         bind (updateContext (setSchema (Some (RecordBatch_schema rb))))
           (fun _ => updateContext (fun c0 =>
              setStagingChunks
                (stagingChunks c0 ++
                 replicate (length (RecordBatch_schema rb)) []) c0))
     end) w = Returns tt (setArrowContext (Some c1) w)
    /\ stagingRows c1 = 0 /\ writer c1 = None).
  { destruct (schema c).
    - exists c. unfold ret. split; [|auto]. f_equal.
      destruct w; simpl in *. subst. reflexivity.
    - unfold bind. rewrite (updateContext_eq _ _ _ Hc).
      erewrite updateContext_eq by reflexivity.
      eexists. split; [reflexivity|]. auto. }
  destruct Hinit as (c1 & -> & Hrows1 & Hw1).
  set (w1 := setArrowContext (Some c1) w).
  assert (Hc1 : arrowContext_ w1 = Some c1) by reflexivity.
  unfold bind at 1. rewrite (context_eq _ _ Hc1). unfold bind at 1.
  assert (Hpolicy :
    (if shouldFlush (getStripeProgress (stagingRows c1) (stagingBytes c1))
     then Writer_flush else ret tt) w1 = Returns tt w1).
  { destruct (shouldFlush _); [|reflexivity].
    apply (Writer_flush_noop w1 c1 Hc1). lia. }
  rewrite Hpolicy. unfold bind at 1.
  destruct (stageColumns_frame (RecordBatch_columns rb) 0 w1 c1 Hc1)
    as [staged Hstaged].
  destruct (stageColumns (RecordBatch_columns rb) 0 w1) as [[] w2|e2 w2|f w2];
    simpl in Hstaged; subst w2.
  - erewrite updateContext_eq by reflexivity. discriminate.
  - intros [= <- <-]. eexists. repeat split; try reflexivity; assumption.
  - discriminate.
Qed.

Lemma neverStaged_afterFailedWrites (sink : FileSink)
    (batches : list Vector) :
  forall w w',
    neverStaged sink w ->
    afterFailedWrites batches w = Some w' ->
    neverStaged sink w'.
Proof.
  induction batches as [|data rest IH]; intros w w' Hw; simpl.
  - intros [= <-]. exact Hw.
  - unfold Writer_write, bind.
    pose proof (convertBatch_cases data w) as Hc.
    destruct (convertBatch data w) as [rb w1|e w1|f w1]; [| |discriminate].
    + destruct Hc as [-> _].
      destruct (stageBatch data rb w) as [|e w2|] eqn:Hstage;
        try discriminate.
      apply IH. exact (neverStaged_stageBatch_Throws _ _ _ _ _ _ Hw Hstage).
    + destruct Hc as [-> _]. apply IH. exact Hw.
Qed.

(** [close] on a writer that never staged a row. *)
Lemma neverStaged_close (sink : FileSink) (w : Writer) :
  neverStaged sink w ->
  let closed := final_state (Writer_close w) in
  encoderCalls closed = []
  /\ (exists c', arrowContext_ closed = Some c' /\ writer c' = None)
  /\ (exists sink',
        sink_ (stream_ closed) = Some sink'
        /\ concat (FileSink_received sink') = concat (FileSink_received sink))
  /\ (reliable ->
      exists w',
        Writer_close w = Returns tt w'
        /\ sink_ (stream_ w') =
             Some {| FileSink_received := FileSink_received sink ++ [[]];
                     FileSink_isClosed := true |}).
Proof.
  intros (c & Hc & Hrows & Hw & Hcalls & Hstream). cbv zeta.
  remember (Writer_close w) as o eqn:Ho.
  unfold Writer_close, bind in Ho.
  rewrite (Writer_flush_noop w c Hc) in Ho by lia.
  rewrite (context_eq _ _ Hc), Hw in Ho. unfold ret in Ho.
  unfold onStream, Sink_Close, Sink_Flush, bind, modify, get, put, throw,
    fault in Ho.
  rewrite Hstream in Ho. simpl in Ho.
  destruct (write_succeeds sink []) eqn:Hdest; simpl in Ho.
  2: { subst o. simpl. repeat split; try assumption.
       - eauto.
       - exists sink. split; reflexivity.
       - intros (_ & _ & _ & Hdest' & _). rewrite Hdest' in Hdest.
         discriminate. }
  match type of Ho with
  | context [close_succeeds ?d] => destruct (close_succeeds d) eqn:Hclose
  end; simpl in Ho.
  2: { subst o. simpl. repeat split; try assumption.
       - eauto.
       - eexists. split; [reflexivity|]. simpl.
         rewrite concat_app. simpl. rewrite app_nil_r. reflexivity.
       - intros (_ & _ & _ & _ & Hclose'). rewrite Hclose' in Hclose.
         discriminate. }
  unfold updateContext, bind, context, modify in Ho. simpl in Ho.
  rewrite Hc in Ho. subst o. simpl.
  repeat split; try assumption.
  - eexists. split; [reflexivity|]. exact Hw.
  - eexists. split; [reflexivity|]. simpl.
    rewrite concat_app. simpl. rewrite app_nil_r. reflexivity.
  - intros _. eexists. split; reflexivity.
Qed.

(** C8.  [close] on a writer built by the constructor on which every
    [write], if any, has thrown: the encoder is never opened and never
    called, the destination receives no byte (at most one empty
    buffer), and when the destination accepts its calls, [close]
    returns after exactly one [write] of an empty buffer and one
    [close] on the destination.  No footer is written. *)
Theorem close_without_rows_writes_no_footer (sink : FileSink)
    (options : WriterOptions) (schema : RowTypePtr) (batches : list Vector)
    (w0 w : Writer) :
  Writer_new sink options schema = inr w0 ->
  afterFailedWrites batches w0 = Some w ->
  let closed := final_state (Writer_close w) in
  encoderCalls closed = []
  /\ (exists c', arrowContext_ closed = Some c' /\ writer c' = None)
  /\ (exists sink',
        sink_ (stream_ closed) = Some sink'
        /\ concat (FileSink_received sink') = concat (FileSink_received sink))
  /\ (reliable ->
      exists w',
        Writer_close w = Returns tt w'
        /\ sink_ (stream_ w') =
             Some {| FileSink_received := FileSink_received sink ++ [[]];
                     FileSink_isClosed := true |}).
Proof.
  intros Hnew Hwrites. apply neverStaged_close.
  apply (neverStaged_afterFailedWrites sink batches w0 w); [|exact Hwrites].
  unfold Writer_new in Hnew.
  destruct (validateSchemaRecursive schema); [discriminate|].
  destruct (getArrowParquetWriterOptions options); [discriminate|].
  injection Hnew as <-. apply neverStaged_initial.
Qed.
End NeverStaged.

Lemma close_without_rows_writes_no_footer_witness :
  let bad := rowBatch [("b", Scalar BIGINT)] 3 [[1; 2; 3]] in
  @Writer_new referenceBridge referenceEncoder referencePolicy emptySink
    plainOptions (Some oneColumn) = inr referenceWriter
  /\ @afterFailedWrites referenceBridge referenceEncoder referencePolicy
       referenceDestination [bad] referenceWriter = Some referenceWriter
  /\ exists w',
       @Writer_close referenceBridge referenceEncoder referencePolicy
         referenceDestination referenceWriter = Returns tt w'
       /\ encoderCalls w' = []
       /\ sink_ (stream_ w') =
            Some {| FileSink_received := [[]]; FileSink_isClosed := true |}.
Proof.
  intros bad. split; [reflexivity|]. split; [reflexivity|].
  destruct (@close_without_rows_writes_no_footer referenceBridge
              referenceEncoder referencePolicy referenceDestination emptySink
              plainOptions (Some oneColumn) [bad] referenceWriter
              referenceWriter eq_refl eq_refl)
    as (Hcalls & _ & _ & Hreturns).
  destruct (Hreturns reference_reliable) as (w' & Hw' & Hsink).
  exists w'. split; [exact Hw'|]. split; [|exact Hsink].
  rewrite Hw' in Hcalls. exact Hcalls.
Defined.

(** ** The second half of [write] *)

Section StageBatch.
Context `{ArrowBridge} `{!ParquetEncoder} `{FlushPolicy} `{Destination}.

Lemma tablesOf_app (l1 l2 : list EncoderCall) :
  tablesOf (l1 ++ l2) = tablesOf l1 ++ tablesOf l2.
Proof. apply omap_app. Qed.

Lemma tablesOf_flushedFrom (w w' : Writer) (c : ArrowContext) (s : Schema) :
  flushedFrom w c s w' ->
  tablesOf (encoderCalls w') =
    tablesOf (encoderCalls w)
    ++ [tableOf s (stagingChunks c) (stagingRows c)].
Proof.
  intros (c' & _ & _ & _ & Hcalls & _). rewrite Hcalls, !tablesOf_app.
  f_equal. unfold openCalls. destruct (writer c); reflexivity.
Qed.

Lemma preparedChunks_length (w : Writer) (c : ArrowContext)
    (rb : RecordBatch) :
  wellStaged w c ->
  length (preparedChunks c rb) = length (canonicalSchema c rb).
Proof.
  intros [_ Hinv]. unfold preparedChunks, canonicalSchema.
  destruct (schema c); [tauto|].
  rewrite Hinv. simpl. apply length_replicate.
Qed.

Lemma canonicalSchema_length (w : Writer) (c : ArrowContext)
    (rb : RecordBatch) :
  wellStaged w c ->
  length (RecordBatch_schema rb) = length (schema_ w) ->
  length (canonicalSchema c rb) = length (schema_ w).
Proof.
  intros [_ Hinv] Hrb. unfold canonicalSchema.
  destruct (schema c); tauto.
Qed.

Lemma stageBatch_spec (data : Vector) (rb : RecordBatch) (w : Writer)
    (c : ArrowContext) :
  wellStaged w c ->
  length (RecordBatch_columns rb) = length (RecordBatch_schema rb) ->
  length (RecordBatch_schema rb) = length (schema_ w) ->
  match stageBatch data rb w with
  | Returns _ w' =>
      exists c',
        arrowContext_ w' = Some c'
        /\ schema_ w' = schema_ w
        /\ schema c' = Some (canonicalSchema c rb)
        /\ stagingChunks c' =
             appendColumns
               (if flushDecision c
                then replicate (length (preparedChunks c rb)) []
                else preparedChunks c rb)
               (RecordBatch_columns rb)
        /\ stagingRows c' =
             to_uint64 ((if flushDecision c then 0 else stagingRows c)
                        + Vector_size data)
        /\ stagingBytes c' =
             to_int64 ((if flushDecision c then 0 else stagingBytes c)
                       + Vector_estimateFlatSize data)
        /\ tablesOf (encoderCalls w') =
             tablesOf (encoderCalls w) ++
             (if flushDecision c
              then [tableOf (canonicalSchema c rb) (preparedChunks c rb)
                            (stagingRows c)]
              else [])
  | Throws e w' =>
      exists c',
        arrowContext_ w' = Some c'
        /\ schema_ w' = schema_ w
        /\ schema c' = Some (canonicalSchema c rb)
        /\ (stagingChunks c' = preparedChunks c rb
            \/ stagingChunks c' =
                 replicate (length (preparedChunks c rb)) [])
  | Faults _ _ => True
  end.
Proof.
  intros Hws Hcols Hwidth.
  pose proof (preparedChunks_length w c rb Hws) as Hplen.
  pose proof (canonicalSchema_length w c rb Hws Hwidth) as Hslen.
  destruct Hws as [Hc Hinv].
  unfold stageBatch, bind at 1. rewrite (context_eq _ _ Hc).
  unfold bind at 1.
  set (c1 := setStagingChunks (preparedChunks c rb)
               (setSchema (Some (canonicalSchema c rb)) c)).
  set (w1 := setArrowContext (Some c1) w).
  assert (Hinit :
    (match schema c with
     | Some _ => ret tt
     | None =>
         bind (updateContext (setSchema (Some (RecordBatch_schema rb))))
           (fun _ => updateContext (fun c0 =>
              setStagingChunks
                (stagingChunks c0 ++
                 replicate (length (RecordBatch_schema rb)) []) c0))
     end) w = Returns tt w1).
  { subst w1 c1. unfold preparedChunks, canonicalSchema.
    destruct (schema c) eqn:Hs.
    - unfold ret. f_equal. destruct w, c; simpl in *. subst. reflexivity.
    - unfold bind. rewrite (updateContext_eq _ _ _ Hc).
      erewrite updateContext_eq by reflexivity. reflexivity. }
  rewrite Hinit.
  assert (Hc1 : arrowContext_ w1 = Some c1) by reflexivity.
  assert (Hs1 : schema c1 = Some (canonicalSchema c rb)) by reflexivity.
  assert (Hcolumns : length (preparedChunks c rb)
                     = length (RecordBatch_columns rb)) by congruence.
  unfold bind at 1. rewrite (context_eq _ _ Hc1).
  change (stagingRows c1) with (stagingRows c).
  change (stagingBytes c1) with (stagingBytes c).
  unfold flushDecision.
  (* the three ways past the policy *)
  assert (Hstage : forall (w2 : Writer) (c2 : ArrowContext),
    arrowContext_ w2 = Some c2 ->
    length (stagingChunks c2) = length (RecordBatch_columns rb) ->
    bind (stageColumns (RecordBatch_columns rb) 0)
      (fun _ => updateContext (fun c0 =>
         setStagingCounters
           (to_uint64 (stagingRows c0 + Vector_size data))
           (to_int64 (stagingBytes c0 + Vector_estimateFlatSize data)) c0))
      w2 =
    Returns tt
      (setArrowContext
         (Some (setStagingCounters
                  (to_uint64 (stagingRows c2 + Vector_size data))
                  (to_int64 (stagingBytes c2 + Vector_estimateFlatSize data))
                  (setStagingChunks
                     (appendColumns (stagingChunks c2)
                                    (RecordBatch_columns rb)) c2)))
         w2)).
  { intros w2 c2 Hc2 Hlen2. unfold bind.
    pose proof (stageColumns_spec (RecordBatch_columns rb) w2 c2 []
                  (stagingChunks c2) []) as Hst.
    rewrite app_nil_r in Hst. specialize (Hst Hc2 eq_refl Hlen2).
    simpl in Hst. rewrite Hst, app_nil_r.
    erewrite updateContext_eq by reflexivity. reflexivity. }
  unfold bind at 1.
  destruct (shouldFlush (getStripeProgress (stagingRows c) (stagingBytes c)))
    eqn:Hpolicy; simpl andb.
  - destruct (Z.ltb_spec 0 (stagingRows c)) as [Hrows|Hrows].
    + pose proof (Writer_flush_spec w1 c1 _ Hc1 Hs1) as Hflush.
      change (stagingChunks c1) with (preparedChunks c rb) in Hflush.
      change (stagingRows c1) with (stagingRows c) in Hflush.
      specialize (Hflush Hplen Hrows).
      destruct (Writer_flush w1) as [[] w2|e w2|f w2]; [| |exact I].
      * pose proof (tablesOf_flushedFrom _ _ _ _ Hflush) as Htables.
        destruct Hflush as (c2 & Hc2 & Hschema2 & _ & _ & Hs2 & _ & _
                            & Hchunks2 & Hrows2 & Hbytes2 & _).
        change (stagingChunks c1) with (preparedChunks c rb)
          in Hchunks2, Htables.
        change (stagingRows c1) with (stagingRows c) in Htables.
        rewrite (Hstage w2 c2 Hc2)
          by (rewrite Hchunks2, length_replicate; exact Hcolumns).
        eexists. split; [reflexivity|]. simpl.
        rewrite Hchunks2, Hrows2, Hbytes2.
        repeat split; try assumption.
      * destruct Hflush as (_ & c2 & Hc2 & Hschema2 & Hs2 & Hchunks2).
        exists c2. repeat split; assumption.
    + rewrite (Writer_flush_noop w1 c1 Hc1) by exact Hrows.
      rewrite (Hstage w1 c1 Hc1 Hcolumns).
      eexists. split; [reflexivity|]. simpl.
      rewrite app_nil_r. repeat split; reflexivity.
  - unfold ret. rewrite (Hstage w1 c1 Hc1 Hcolumns).
    eexists. split; [reflexivity|]. simpl.
    rewrite app_nil_r. repeat split; reflexivity.
Qed.
End StageBatch.

(** ** Invariant of the staging sequences *)

Section StagingInvariant.
Context `{ArrowBridge} `{!ParquetEncoder} `{FlushPolicy} `{Destination}.

Lemma appendColumns_length (base : list (list Array)) :
  forall columns,
    length base = length columns ->
    length (appendColumns base columns) = length base.
Proof.
  induction base as [|col base IH]; intros [|a columns]; simpl;
    try discriminate; [reflexivity|].
  intros [= Hlen]. f_equal. apply IH, Hlen.
Qed.





(** With rows staged and no canonical schema, [flush] dereferences the
    null schema. *)
Lemma Writer_flush_without_schema (w : Writer) (c : ArrowContext) :
  arrowContext_ w = Some c -> schema c = None -> 0 < stagingRows c ->
  exists f w', Writer_flush w = Faults f w'.
Proof.
  intros Hc Hs Hrows. unfold Writer_flush, bind at 1.
  rewrite (context_eq _ _ Hc).
  destruct (Z.ltb_spec 0 (stagingRows c)); [|lia].
  unfold bind at 1, openFileWriter, bind at 1.
  rewrite (context_eq _ _ Hc).
  destruct (writer c).
  - unfold ret, writeStagedTable, bind. rewrite (context_eq _ _ Hc), Hs.
    unfold fault. eauto.
  - rewrite Hs. unfold fault. eauto.
Qed.





End StagingInvariant.

(** ** Whole batches *)

Section WholeBatches.
Context `{ArrowBridge} `{!ParquetEncoder} `{FlushPolicy} `{Destination}.

Lemma to_uint64_nonneg (z : Z) : 0 <= to_uint64 z.
Proof. unfold to_uint64. apply Z.mod_pos_bound. lia. Qed.

Lemma to_uint64_le (z : Z) : 0 <= z -> to_uint64 z <= z.
Proof. intros Hz. unfold to_uint64. apply Z.mod_le; lia. Qed.

Lemma convertBatch_schema (data : Vector) (rb : RecordBatch)
    (w1 w2 : Writer) :
  schema_ w1 = schema_ w2 ->
  convertBatch data w1 = Returns rb w1 ->
  convertBatch data w2 = Returns rb w2.
Proof.
  unfold convertBatch, bind, get, throw, liftE, liftF, importRecordBatch,
    ret, fault.
  intros <-.
  destruct (negb (equivalent (Vector_type data) (ROW (schema_ w1))));
    [discriminate|].
  destruct (needFlatten data) as [e|flatten]; simpl; [discriminate|].
  destruct (exportToArrow_array _); [|discriminate].
  destruct (exportToArrow_schema _); [|discriminate].
  destruct (ImportSchema _); [|discriminate].
  destruct (updateTopLevelFields _ _ _); simpl; [discriminate|].
  destruct (ImportRecordBatch _ _); [|discriminate].
  destruct (Nat.eqb _ _); [|discriminate].
  intros [= <-]. reflexivity.
Qed.

(** What a returned [write] has done, in terms of the context it
    found. *)
Lemma Writer_write_Returns (data : Vector) (w w' : Writer)
    (c : ArrowContext) :
  wellStaged w c ->
  Writer_write data w = Returns tt w' ->
  exists c' rb,
    arrowContext_ w' = Some c'
    /\ convertBatch data w = Returns rb w
    /\ length (RecordBatch_columns rb) = length (canonicalSchema c rb)
    /\ length (canonicalSchema c rb) = length (schema_ w)
    /\ schema_ w' = schema_ w
    /\ schema c' = Some (canonicalSchema c rb)
    /\ tablesOf (encoderCalls w') =
         tablesOf (encoderCalls w) ++
         (if flushDecision c
          then [tableOf (canonicalSchema c rb) (preparedChunks c rb)
                        (stagingRows c)]
          else [])
    /\ stagingChunks c' =
         appendColumns
           (if flushDecision c
            then replicate (length (preparedChunks c rb)) []
            else preparedChunks c rb)
           (RecordBatch_columns rb)
    /\ stagingRows c' =
         to_uint64 ((if flushDecision c then 0 else stagingRows c)
                    + Vector_size data)
    /\ stagingBytes c' =
         to_int64 ((if flushDecision c then 0 else stagingBytes c)
                   + Vector_estimateFlatSize data).
Proof.
  intros Hws. unfold Writer_write, bind.
  pose proof (convertBatch_cases data w) as Hconv.
  destruct (convertBatch data w) as [rb w1|e w1|f w1]; try discriminate.
  destruct Hconv as (-> & _ & _ & Hcols & Hwidth).
  pose proof (stageBatch_spec data rb w c Hws Hcols Hwidth) as Hspec.
  pose proof (canonicalSchema_length w c rb Hws Hwidth) as Hslen.
  intros Hstage. rewrite Hstage in Hspec.
  destruct Hspec as (c' & Hc' & Hschema' & Hs' & Hchunks' & Hrows' & Hbytes'
                     & Htables').
  exists c', rb. repeat split; try assumption. congruence.
Qed.

Lemma stageOnto_length (k : nat) (group : list (list Array)) :
  Forall (fun columns => length columns = k) group ->
  length (stageOnto (replicate k []) group) = k.
Proof.
  unfold stageOnto.
  assert (Hgen : forall base,
            length base = k ->
            length (fold_left appendColumns group base) = k
            \/ ~ Forall (fun columns => length columns = k) group).
  { induction group as [|columns rest IH]; intros base Hbase; simpl.
    - left. exact Hbase.
    - destruct (decide (length columns = k)) as [Hk|Hk].
      + destruct (IH (appendColumns base columns)) as [Hl|Hn].
        * rewrite appendColumns_length; congruence.
        * left. exact Hl.
        * right. intros Hall. inversion Hall; subst. contradiction.
      + right. intros Hall. inversion Hall; subst. contradiction. }
  intros Hall. destruct (Hgen (replicate k [])) as [Hl|Hn];
    [apply length_replicate | exact Hl | contradiction].
Qed.

Lemma stageOnto_snoc (base : list (list Array)) (group : list (list Array))
    (columns : list Array) :
  stageOnto base (group ++ [columns]) =
    appendColumns (stageOnto base group) columns.
Proof. unfold stageOnto. rewrite fold_left_app. reflexivity. Qed.

Lemma rowsAfter_snoc (rows : Z) (sizes : list Z) (n : Z) :
  rowsAfter rows (sizes ++ [n]) = to_uint64 (rowsAfter rows sizes + n).
Proof. unfold rowsAfter. rewrite fold_left_app. reflexivity. Qed.

Lemma wholeBatchLayout_wellStaged fields w s groups current :
  wholeBatchLayout fields w s groups current ->
  exists c, wellStaged w c /\ schema c = Some s
            /\ stagingChunks c =
                 stageOnto (replicate (length s) []) (map columnsOf current)
            /\ stagingRows c = rowsAfter 0 (map sizeOf current).
Proof.
  intros (c & Hc & Hfields & Hs & Hwidth & Hcols & Hchunks & Hrows & _).
  exists c. split; [|auto]. split; [exact Hc|]. rewrite Hs, Hchunks.
  split; [|congruence]. apply stageOnto_length.
  apply Forall_fmap. exact Hcols.
Qed.

(** One more batch on a layout of whole batches: the staged batches
    become a table of their own, or the batch joins them. *)
Lemma wholeBatchLayout_write fields w s groups current data w' :
  wholeBatchLayout fields w s groups current ->
  Writer_write data w = Returns tt w' ->
  exists rb,
    convertBatch data w = Returns rb w
    /\ (wholeBatchLayout fields w' s (groups ++ [current]) [(data, rb)]
        \/ wholeBatchLayout fields w' s groups (current ++ [(data, rb)])).
Proof.
  intros Hlayout Hwrite. unfold wholeBatchLayout, rowGroupsOf in *.
  destruct (wholeBatchLayout_wellStaged _ _ _ _ _ Hlayout)
    as (c & Hws & Hs & Hchunks & Hrows).
  destruct Hlayout as (c0 & Hc0 & Hfields & _ & Hwidth & Hcols & _ & _
                       & Htables).
  destruct (Writer_write_Returns data w w' c Hws Hwrite)
    as (c' & rb & Hc' & Hconv & Hrbcols & _ & Hschema' & Hs' & Htables'
        & Hchunks' & Hrows' & _).
  assert (Hcan : canonicalSchema c rb = s)
    by (unfold canonicalSchema; rewrite Hs; reflexivity).
  assert (Hprep : preparedChunks c rb = stagingChunks c)
    by (unfold preparedChunks; rewrite Hs; reflexivity).
  rewrite Hcan in *. rewrite Hprep in *.
  assert (Hlen : length (stagingChunks c) = length s).
  { destruct Hws as [_ Hshape]. rewrite Hs in Hshape. tauto. }
  exists rb. split; [exact Hconv|].
  destruct (flushDecision c).
  - left. exists c'. repeat split; try assumption; try congruence.
    + constructor; [exact Hrbcols | constructor].
    + rewrite Hchunks', Hlen. reflexivity.
    + rewrite Htables', Htables, map_app. simpl. f_equal.
      unfold groupTable. rewrite <- Hchunks, <- Hrows. reflexivity.
  - right. exists c'. repeat split; try assumption; try congruence.
    + apply Forall_app. split; [exact Hcols|].
      constructor; [exact Hrbcols | constructor].
    + rewrite Hchunks', Hchunks, map_app. simpl.
      rewrite stageOnto_snoc. reflexivity.
    + rewrite Hrows', Hrows, map_app. simpl.
      rewrite rowsAfter_snoc. reflexivity.
    + rewrite Htables', app_nil_r. exact Htables.
Qed.

Lemma wholeBatchLayout_afterWrites fields (batches : list Vector) :
  forall w s groups current w',
    wholeBatchLayout fields w s groups current ->
    afterWrites batches w = Some w' ->
    exists rbs groups' current',
      Forall2 (fun data rb => convertBatch data w = Returns rb w) batches rbs
      /\ concat groups ++ current ++ zip batches rbs
         = concat groups' ++ current'
      /\ wholeBatchLayout fields w' s groups' current'.
Proof.
  induction batches as [|data rest IH]; intros w s groups current w' Hlayout;
    simpl.
  - intros [= <-]. exists [], groups, current.
    split; [constructor|]. split; [rewrite app_nil_r; reflexivity|].
    exact Hlayout.
  - destruct (Writer_write data w) as [[] w1|e w1|f w1] eqn:Hwrite;
      try discriminate.
    intros Hrest.
    destruct (wholeBatchLayout_write _ _ _ _ _ _ _ Hlayout Hwrite)
      as (rb & Hconv & Hnext).
    assert (Hschema : schema_ w1 = schema_ w).
    { destruct Hlayout as (c0 & _ & Hf0 & _).
      destruct Hnext as [(c1 & _ & Hf1 & _)|(c1 & _ & Hf1 & _)]; congruence. }
    assert (Hrbs : forall rbs,
      Forall2 (fun d r => convertBatch d w1 = Returns r w1) rest rbs ->
      Forall2 (fun d r => convertBatch d w = Returns r w) (data :: rest)
              (rb :: rbs)).
    { intros rbs Hall. constructor; [exact Hconv|].
      eapply Forall2_impl; [exact Hall|]. intros d r Hd. simpl in Hd.
      exact (convertBatch_schema d r w1 w Hschema Hd). }
    destruct Hnext as [Hnext|Hnext];
      destruct (IH _ _ _ _ _ Hnext Hrest)
        as (rbs & groups' & current' & Hall & Hsplit & Hlayout');
      exists (rb :: rbs), groups', current';
      (split; [apply Hrbs, Hall|]); (split; [|exact Hlayout']);
      rewrite <- Hsplit; simpl.
    + rewrite concat_app. simpl. rewrite app_nil_r, <- app_assoc.
      reflexivity.
    + rewrite <- app_assoc. reflexivity.
Qed.

Lemma rowsAfter_nonneg (sizes : list Z) :
  forall rows, 0 <= rows -> 0 <= rowsAfter rows sizes.
Proof.
  unfold rowsAfter. induction sizes as [|n rest IH]; intros rows Hrows; simpl.
  - exact Hrows.
  - apply IH, to_uint64_nonneg.
Qed.

Lemma wellStaged_initial (sink : FileSink) (props : WriterProperties)
    (fields : RowType) (int96 : bool) :
  exists c,
    wellStaged (initialWriter sink props fields int96) c
    /\ schema c = None /\ stagingChunks c = [] /\ stagingRows c = 0.
Proof. eexists. split; [split; reflexivity|]. auto. Qed.

(** The first batch on a new writer is staged alone, on one sequence per
    field of its reconciled schema. *)
Lemma first_write_layout (sink : FileSink) (props : WriterProperties)
    (fields : RowType) (int96 : bool) (data : Vector) (w1 : Writer) :
  Writer_write data (initialWriter sink props fields int96)
    = Returns tt w1 ->
  exists rb,
    convertBatch data (initialWriter sink props fields int96)
      = Returns rb (initialWriter sink props fields int96)
    /\ wholeBatchLayout fields w1 (RecordBatch_schema rb) [] [(data, rb)].
Proof.
  intros Hwrite.
  destruct (wellStaged_initial sink props fields int96)
    as (c & Hws & Hs & Hchunks & Hrows).
  destruct (Writer_write_Returns data _ w1 c Hws Hwrite)
    as (c' & rb & Hc' & Hconv & Hrbcols & Hwidth & Hschema' & Hs' & Htables'
        & Hchunks' & Hrows' & _).
  assert (Hcan : canonicalSchema c rb = RecordBatch_schema rb)
    by (unfold canonicalSchema; rewrite Hs; reflexivity).
  assert (Hprep : preparedChunks c rb
                  = replicate (length (RecordBatch_schema rb)) []).
  { unfold preparedChunks. rewrite Hs, Hchunks. reflexivity. }
  assert (Hno : flushDecision c = false).
  { unfold flushDecision. rewrite Hrows. apply andb_false_r. }
  rewrite Hcan, Hprep, Hno in *. rewrite Hrows in Hrows'.
  exists rb. split; [exact Hconv|].
  exists c'. repeat split; try assumption.
  constructor; [exact Hrbcols | constructor].
Qed.

Lemma afterWrites_layout (sink : FileSink) (props : WriterProperties)
    (fields : RowType) (int96 : bool) (batches : list Vector) (w : Writer) :
  afterWrites batches (initialWriter sink props fields int96) = Some w ->
  (batches = [] /\ w = initialWriter sink props fields int96)
  \/ exists s rbs groups current,
       Forall2 (fun data rb =>
                  convertBatch data (initialWriter sink props fields int96)
                  = Returns rb (initialWriter sink props fields int96))
               batches rbs
       /\ zip batches rbs = concat groups ++ current
       /\ wholeBatchLayout fields w s groups current.
Proof.
  set (w0 := initialWriter sink props fields int96).
  destruct batches as [|data rest]; simpl.
  - intros [= <-]. left. auto.
  - destruct (Writer_write data w0) as [[] w1|e w1|f w1] eqn:Hwrite;
      try discriminate.
    intros Hrest. right.
    destruct (first_write_layout _ _ _ _ _ _ Hwrite) as (rb & Hconv & Hlayout).
    destruct (wholeBatchLayout_afterWrites _ _ _ _ _ _ _ Hlayout Hrest)
      as (rbs & groups & current & Hall & Hsplit & Hlayout').
    exists (RecordBatch_schema rb), (rb :: rbs), groups, current.
    split; [|split; [exact Hsplit | exact Hlayout']].
    constructor; [exact Hconv|].
    eapply Forall2_impl; [exact Hall|]. intros d r Hd. simpl in Hd.
    apply (convertBatch_schema d r w1 w0); [|exact Hd].
    destruct Hlayout as (c1 & _ & Hf1 & _). exact Hf1.
Qed.

(** [close] makes no [WriteTable] call of its own: the tables handed to
    the encoder are those of its flush. *)
Lemma Writer_close_tables (w w' : Writer) :
  Writer_close w = Returns tt w' ->
  exists w1,
    Writer_flush w = Returns tt w1
    /\ tablesOf (encoderCalls w') = tablesOf (encoderCalls w1).
Proof.
  unfold Writer_close, bind at 1.
  destruct (Writer_flush w) as [[] w1|e w1|f w1]; try discriminate.
  intros Hclose. exists w1. split; [reflexivity|]. revert Hclose.
  unfold bind at 1, context.
  destruct (arrowContext_ w1) as [c1|] eqn:Hc1; try discriminate.
  unfold bind at 1.
  assert (Hcalls : forall w2,
    (match writer c1 with
     | Some fw =>
         bind (encoderCall Call_Close (fst (FileWriter_Close fw))
                 (if snd (FileWriter_Close fw) then Some tt else None))
              (fun _ => updateContext (setWriter None))
     | None => ret tt
     end) w1 = Returns tt w2 ->
    tablesOf (encoderCalls w2) = tablesOf (encoderCalls w1)
    /\ arrowContext_ w2 <> None).
  { intros w2. destruct (writer c1) as [fw|].
    - unfold bind. rewrite encoderCall_eq. cbv zeta.
      destruct (snd (FileWriter_Close fw)); [|discriminate].
      erewrite updateContext_eq by (simpl; exact Hc1).
      intros [= <-]. simpl. rewrite tablesOf_app. simpl.
      rewrite app_nil_r. split; [reflexivity | discriminate].
    - unfold ret. intros [= <-]. split; [reflexivity | congruence]. }
  match goal with
  | |- context [match ?m w1 with _ => _ end] =>
      destruct (m w1) as [[] w2|e w2|f w2] eqn:Hw2; try discriminate
  end.
  destruct (Hcalls w2 eq_refl) as [<- Hc2].
  unfold bind at 1, onStream.
  destruct (Sink_Close (stream_ w2)) as [[] st|e st|f st]; try discriminate.
  destruct (arrowContext_ w2) as [c2|] eqn:Hc2'; [|congruence].
  erewrite updateContext_eq by (simpl; exact Hc2').
  intros [= <-]. reflexivity.
Qed.

(** [close] on a layout of whole batches: the staged batches become the
    last table when rows are staged, and no table otherwise. *)
Lemma wholeBatchLayout_close fields w s groups current w' :
  wholeBatchLayout fields w s groups current ->
  Writer_close w = Returns tt w' ->
  rowGroupsOf (encoderCalls w') =
    map (groupTable s)
        (groups ++ (if Z.ltb 0 (rowsAfter 0 (map sizeOf current))
                    then [current] else [])).
Proof.
  intros Hlayout Hclose. unfold rowGroupsOf in *.
  destruct (wholeBatchLayout_wellStaged _ _ _ _ _ Hlayout)
    as (c & [Hc Hshape] & Hs & Hchunks & Hrows).
  destruct Hlayout as (c0 & _ & _ & _ & _ & _ & _ & _ & Htables).
  unfold rowGroupsOf in Htables.
  destruct (Writer_close_tables w w' Hclose) as (w1 & Hflush & ->).
  rewrite Hs in Hshape. destruct Hshape as [Hlen _].
  rewrite <- Hrows.
  destruct (Z.ltb_spec 0 (stagingRows c)) as [Hpos|Hzero].
  - pose proof (Writer_flush_spec w c s Hc Hs Hlen Hpos) as Hspec.
    rewrite Hflush in Hspec.
    rewrite (tablesOf_flushedFrom _ _ _ _ Hspec), Htables, map_app.
    simpl. unfold groupTable. rewrite <- Hchunks, <- Hrows. reflexivity.
  - rewrite (Writer_flush_noop w c Hc Hzero) in Hflush.
    injection Hflush as <-. rewrite app_nil_r. exact Htables.
Qed.

(** C3.  A row group is what [flush] hands to the encoder in one
    [WriteTable] call.  Every [write] that returns on an open writer has
    asked the flush policy about the row count and the byte estimate of
    the context as it found it, before the incoming batch is staged:
    when it flushes, the row group is built from the sequences staged
    before, and the batch is then staged alone; otherwise the batch joins
    the staged ones.  So the staged rows after a [write] are the rows of
    that one batch on top of a count that is zero or that the policy
    declined to flush: with a policy that flushes from [R] rows on, fewer
    than [R] rows plus one batch.  For the writes that returned on a new
    writer, the batches written so far split, in order, into consecutive
    groups of whole batches, one per row group, followed by the batches
    still staged; every row group holds, column by column, the fragments
    of the batches of its group and nothing else; and [close] turns the
    staged batches into the last row group. *)
Theorem batches_are_never_split :
  (forall (w : Writer) (c : ArrowContext) (data : Vector) (w' : Writer),
      wellStaged w c -> 0 <= stagingRows c ->
      Writer_write data w = Returns tt w' ->
      exists c' rb,
        arrowContext_ w' = Some c'
        /\ convertBatch data w = Returns rb w
        /\ rowGroupsOf (encoderCalls w') =
             rowGroupsOf (encoderCalls w) ++
             (if flushDecision c
              then [tableOf (canonicalSchema c rb) (preparedChunks c rb)
                            (stagingRows c)]
              else [])
        /\ stagingChunks c' =
             appendColumns
               (if flushDecision c
                then replicate (length (preparedChunks c rb)) []
                else preparedChunks c rb)
               (RecordBatch_columns rb)
        /\ stagingRows c' =
             to_uint64 ((if flushDecision c then 0 else stagingRows c)
                        + Vector_size data)
        /\ stagingBytes c' =
             to_int64 ((if flushDecision c then 0 else stagingBytes c)
                       + Vector_estimateFlatSize data)
        /\ (forall R,
              (forall p, R <= stripeRowCount p -> shouldFlush p = true) ->
              0 < R -> 0 <= Vector_size data ->
              stagingRows c' < R + Vector_size data))
  /\ (forall (sink : FileSink) (options : WriterOptions)
             (schema0 : RowTypePtr) (w0 : Writer) (batches : list Vector)
             (w : Writer),
        Writer_new sink options schema0 = inr w0 ->
        afterWrites batches w0 = Some w ->
        batches = []
        \/ exists s rbs groups current,
             Forall2 (fun data rb => convertBatch data w0 = Returns rb w0)
                     batches rbs
             /\ zip batches rbs = concat groups ++ current
             /\ wholeBatchLayout (schema_ w0) w s groups current
             /\ (exists c, wellStaged w c /\ 0 <= stagingRows c)
             /\ (forall w',
                   Writer_close w = Returns tt w' ->
                   rowGroupsOf (encoderCalls w') =
                     map (groupTable s)
                         (groups ++
                          (if Z.ltb 0 (rowsAfter 0 (map sizeOf current))
                           then [current] else [])))).
Proof.
  split.
  - intros w c data w' Hws Hnonneg Hwrite. unfold rowGroupsOf.
    destruct (Writer_write_Returns data w w' c Hws Hwrite)
      as (c' & rb & Hc' & Hconv & _ & _ & _ & _ & Htables' & Hchunks'
          & Hrows' & Hbytes').
    exists c', rb. repeat split; try assumption.
    intros R Hpolicy HR Hsize. rewrite Hrows'.
    assert (Hbelow : (if flushDecision c then 0 else stagingRows c) < R).
    { unfold flushDecision.
      destruct (shouldFlush (getStripeProgress (stagingRows c) (stagingBytes c)))
        eqn:Hflush; simpl.
      - destruct (Z.ltb_spec 0 (stagingRows c)); lia.
      - destruct (Z.lt_ge_cases (stagingRows c) R) as [Hlt|Hge]; [exact Hlt|].
        rewrite (Hpolicy (getStripeProgress (stagingRows c) (stagingBytes c)))
          in Hflush; [discriminate | exact Hge]. }
    assert (Hlow : 0 <= (if flushDecision c then 0 else stagingRows c))
      by (destruct (flushDecision c); lia).
    pose proof (to_uint64_le
      ((if flushDecision c then 0 else stagingRows c) + Vector_size data)).
    lia.
  - intros sink options schema0 w0 batches w Hnew Hwrites.
    unfold Writer_new in Hnew.
    destruct (validateSchemaRecursive schema0); [discriminate|].
    destruct (getArrowParquetWriterOptions options) as [|props];
      [discriminate|].
    injection Hnew as <-.
    destruct (afterWrites_layout _ _ _ _ _ _ Hwrites)
      as [[-> _]|(s & rbs & groups & current & Hall & Hsplit & Hlayout)];
      [left; reflexivity|right].
    exists s, rbs, groups, current.
    split; [exact Hall|]. split; [exact Hsplit|]. split; [exact Hlayout|].
    split.
    + destruct (wholeBatchLayout_wellStaged _ _ _ _ _ Hlayout)
        as (c & Hws & _ & _ & Hrows).
      exists c. split; [exact Hws|]. rewrite Hrows.
      apply rowsAfter_nonneg. lia.
    + intros w' Hclose.
      exact (wholeBatchLayout_close _ _ _ _ _ _ Hlayout Hclose).
Qed.
End WholeBatches.

(** Three batches of 400 rows with a policy that flushes from 1000 rows
    on: the third [write] finds 800 rows staged and does not flush, and
    1200 rows are staged after it, fewer than 1000 plus one batch. *)
Lemma batches_are_never_split_witness :
  let batch := rowBatch oneColumn 400 [[1; 2; 3]] in
  wellStaged (stagedWriterOf 2) (stagedContextOf 2)
  /\ 0 <= stagingRows (stagedContextOf 2)
  /\ @Writer_write referenceBridge referenceEncoder referencePolicy
       referenceDestination batch (stagedWriterOf 2)
     = Returns tt (stagedWriterOf 3)
  /\ stagingRows (stagedContextOf 3) = 1200
  /\ stagingRows (stagedContextOf 3) < 1000 + 400
  /\ rowGroupsOf (encoderCalls (stagedWriterOf 3)) = [].
Proof.
  intros batch.
  assert (Hws : wellStaged (stagedWriterOf 2) (stagedContextOf 2))
    by (split; [reflexivity | split; reflexivity]).
  assert (Hnonneg : 0 <= stagingRows (stagedContextOf 2))
    by (vm_compute; discriminate).
  assert (Hwrite : @Writer_write referenceBridge referenceEncoder
                     referencePolicy referenceDestination batch
                     (stagedWriterOf 2) = Returns tt (stagedWriterOf 3))
    by (vm_compute; reflexivity).
  destruct (proj1 (@batches_are_never_split referenceBridge referenceEncoder
                     referencePolicy referenceDestination)
                  (stagedWriterOf 2) (stagedContextOf 2) batch
                  (stagedWriterOf 3) Hws Hnonneg Hwrite)
    as (c' & rb & Hc' & _ & Htables & _ & Hrows & _ & Hbound).
  injection Hc' as <-.
  split; [exact Hws|]. split; [exact Hnonneg|]. split; [exact Hwrite|].
  split; [rewrite Hrows; reflexivity|]. split.
  - apply (Hbound 1000); [|lia|vm_compute; discriminate].
    intros p Hp. simpl. apply Z.leb_le. exact Hp.
  - rewrite Htables. reflexivity.
Defined.

(** The run of the same three batches from construction to [close]: one
    row group, of 1200 rows, above the 1000 rows of the policy. *)
Example three_batches_make_one_row_group :
  let batch := rowBatch oneColumn 400 [[1; 2; 3]] in
  @afterWrites referenceBridge referenceEncoder referencePolicy
    referenceDestination [batch; batch; batch] referenceWriter
  = Some (stagedWriterOf 3)
  /\ exists w',
       @Writer_close referenceBridge referenceEncoder referencePolicy
         referenceDestination (stagedWriterOf 3) = Returns tt w'
       /\ map Table_num_rows (rowGroupsOf (encoderCalls w')) = [1200].
Proof.
  intros batch. split; [vm_compute; reflexivity|].
  eexists. split; vm_compute; reflexivity.
Qed.

(** * Further properties of the code *)

(** ** The stream hands over what was written *)

Section StreamDelivery.
Context `{Destination}.

Lemma sinkStep_Write (s : ArrowDataBufferSink) (data : list byte) :
  sinkStep s (OpWrite data) =
    {| sink_ := sink_ s; buffer_ := buffer_ s ++ data;
       bytesFlushed_ := bytesFlushed_ s |}.
Proof. reflexivity. Qed.

Lemma Sink_Flush_accepted (s : ArrowDataBufferSink) (sink : FileSink) :
  sink_ s = Some sink ->
  write_succeeds sink (buffer_ s) = true ->
  Sink_Flush s =
    Returns tt
      {| sink_ :=
           Some {| FileSink_received := FileSink_received sink ++ [buffer_ s];
                   FileSink_isClosed := FileSink_isClosed sink |};
         buffer_ := [];
         bytesFlushed_ :=
           to_int64 (bytesFlushed_ s + Z.of_nat (length (buffer_ s))) |}.
Proof.
  intros Hsink Hok. unfold Sink_Flush, bind, modify, get, put. simpl.
  rewrite Hsink, Hok. reflexivity.
Qed.

Lemma sinkRun_delivery (ops : list SinkOp) :
  (forall sink data, write_succeeds sink data = true) ->
  forall s sink,
    sink_ s = Some sink ->
    exists sink',
      sink_ (sinkRun ops s) = Some sink'
      /\ concat (FileSink_received sink') ++ buffer_ (sinkRun ops s)
         = concat (FileSink_received sink) ++ buffer_ s ++ writtenBytes ops
      /\ length (FileSink_received sink')
         = (length (FileSink_received sink) + flushCount ops)%nat
      /\ FileSink_isClosed sink' = FileSink_isClosed sink.
Proof.
  intros Hok. induction ops as [|op ops IH]; intros s sink Hsink.
  - exists sink. simpl. unfold writtenBytes. simpl.
    rewrite app_nil_r. auto.
  - rewrite sinkRun_cons. destruct op as [data|].
    + rewrite sinkStep_Write.
      destruct (IH {| sink_ := sink_ s; buffer_ := buffer_ s ++ data;
                      bytesFlushed_ := bytesFlushed_ s |} sink Hsink)
        as (sink' & Hs' & Hbytes & Hlen & Hclosed).
      exists sink'. split; [exact Hs'|]. split; [|split; assumption].
      rewrite Hbytes. simpl. unfold writtenBytes. simpl.
      rewrite <- !app_assoc. reflexivity.
    + assert (Hstep : sinkStep s OpFlush =
                {| sink_ :=
                     Some {| FileSink_received :=
                               FileSink_received sink ++ [buffer_ s];
                             FileSink_isClosed := FileSink_isClosed sink |};
                   buffer_ := [];
                   bytesFlushed_ :=
                     to_int64 (bytesFlushed_ s
                               + Z.of_nat (length (buffer_ s))) |}).
      { unfold sinkStep.
        rewrite (Sink_Flush_accepted s sink Hsink (Hok _ _)). reflexivity. }
      rewrite Hstep.
      match goal with
      | |- context [sinkRun ops ?s1] =>
          destruct (IH s1 _ eq_refl)
            as (sink' & Hs' & Hbytes & Hlen & Hclosed)
      end.
      exists sink'. split; [exact Hs'|]. simpl in *.
      split; [|split].
      * rewrite Hbytes, concat_app. simpl. rewrite app_nil_r.
        unfold writtenBytes. simpl. rewrite <- app_assoc. reflexivity.
      * rewrite Hlen, length_app. simpl. lia.
      * exact Hclosed.
Qed.

(** X1.  When the destination accepts every buffer, a stream that has
    run any sequence of [Write] and [Flush] calls has lost and reordered
    nothing: the buffers received by the destination, concatenated, and
    then the bytes still buffered are exactly the bytes written, in the
    order written; and the destination has been called once per
    [Flush]. *)
Theorem stream_keeps_written_bytes_in_order (sink : FileSink)
    (ops : list SinkOp) :
  (forall sink data, write_succeeds sink data = true) ->
  let s := sinkRun ops (ArrowDataBufferSink_new sink) in
  exists sink',
    sink_ s = Some sink'
    /\ concat (FileSink_received sink') ++ buffer_ s
       = concat (FileSink_received sink) ++ writtenBytes ops
    /\ length (FileSink_received sink')
       = (length (FileSink_received sink) + flushCount ops)%nat.
Proof.
  intros Hok s.
  destruct (sinkRun_delivery ops Hok (ArrowDataBufferSink_new sink) sink
              eq_refl) as (sink' & Hs' & Hbytes & Hlen & _).
  exists sink'. split; [exact Hs'|]. split; [|exact Hlen].
  exact Hbytes.
Qed.

(** X2.  [Close] after any sequence of [Write] and [Flush] calls, on a
    destination that accepts every call, returns and leaves nothing
    behind: the buffer is empty, the destination is closed and holds
    exactly the bytes written, in order, and [Tell] still reports their
    number. *)
Theorem Close_delivers_everything (sink : FileSink) (ops : list SinkOp) :
  (forall sink data, write_succeeds sink data = true) ->
  (forall sink, close_succeeds sink = true) ->
  exists s' sink',
    Sink_Close (sinkRun ops (ArrowDataBufferSink_new sink)) = Returns tt s'
    /\ sink_ s' = Some sink'
    /\ buffer_ s' = []
    /\ FileSink_isClosed sink' = true
    /\ concat (FileSink_received sink')
       = concat (FileSink_received sink) ++ writtenBytes ops
    /\ Sink_Tell s' =
         Returns (to_int64 (Z.of_nat (length (writtenBytes ops)))) s'.
Proof.
  intros Hok Hclose.
  destruct (sinkRun_delivery ops Hok (ArrowDataBufferSink_new sink) sink
              eq_refl) as (sink1 & Hs1 & Hbytes & _ & _).
  destruct (sinkRun_state ops (ArrowDataBufferSink_new sink))
    as [Hbuf Hflushed]; [discriminate|].
  set (s := sinkRun ops (ArrowDataBufferSink_new sink)) in *.
  simpl in Hbytes, Hbuf, Hflushed.
  eexists. eexists. split.
  - unfold Sink_Close, bind.
    rewrite (Sink_Flush_accepted s sink1 Hs1 (Hok _ _)).
    unfold get, put. simpl. rewrite Hclose. reflexivity.
  - simpl. split; [reflexivity|]. split; [reflexivity|].
    split; [reflexivity|]. split.
    + simpl. rewrite concat_app. simpl. rewrite app_nil_r. exact Hbytes.
    + unfold Sink_Tell, bind, get, ret. simpl. f_equal.
      rewrite to_int64_add_l, Z.add_0_r.
      rewrite <- (to_int64_add_l (bytesFlushed_ s)), Hflushed.
      rewrite to_int64_add_l.
      f_equal.
      assert (Hlen : forall ops buffered,
                 flushedAfter ops buffered 0
                 + Z.of_nat (length (bufferedAfter ops buffered))
                 = Z.of_nat (length buffered)
                   + Z.of_nat (length (writtenBytes ops))).
      { clear. induction ops as [|[data|] ops IH]; intros buffered.
        - unfold writtenBytes. simpl. lia.
        - change (writtenBytes (OpWrite data :: ops))
            with (data ++ writtenBytes ops).
          simpl. rewrite IH, !length_app. lia.
        - change (writtenBytes (OpFlush :: ops)) with (writtenBytes ops).
          simpl. rewrite flushedAfter_shift.
          specialize (IH []). simpl in IH. lia. }
      specialize (Hlen ops []). simpl in Hlen. rewrite Hbuf. lia.
Qed.
End StreamDelivery.

Lemma stream_keeps_written_bytes_in_order_witness :
  let ops := [OpWrite [x01; x02]; OpFlush; OpWrite [x03]] in
  let s := @sinkRun referenceDestination ops
             (ArrowDataBufferSink_new emptySink) in
  (forall sink data, @write_succeeds referenceDestination sink data = true)
  /\ exists sink',
       sink_ s = Some sink'
       /\ concat (FileSink_received sink') ++ buffer_ s = [x01; x02; x03]
       /\ length (FileSink_received sink') = 1%nat.
Proof.
  split; [reflexivity|].
  exact (@stream_keeps_written_bytes_in_order referenceDestination emptySink
           [OpWrite [x01; x02]; OpFlush; OpWrite [x03]]
           (fun _ _ => eq_refl)).
Defined.

Lemma Close_delivers_everything_witness :
  let ops := [OpWrite [x01; x02]; OpFlush; OpWrite [x03]] in
  (forall sink data, @write_succeeds referenceDestination sink data = true)
  /\ (forall sink, @close_succeeds referenceDestination sink = true)
  /\ exists s' sink',
       @Sink_Close referenceDestination
         (@sinkRun referenceDestination ops (ArrowDataBufferSink_new emptySink))
       = Returns tt s'
       /\ sink_ s' = Some sink'
       /\ buffer_ s' = []
       /\ FileSink_isClosed sink' = true
       /\ concat (FileSink_received sink') = [x01; x02; x03]
       /\ Sink_Tell s' = Returns 3 s'.
Proof.
  split; [reflexivity|]. split; [reflexivity|].
  exact (@Close_delivers_everything referenceDestination emptySink
           [OpWrite [x01; x02]; OpFlush; OpWrite [x03]]
           (fun _ _ => eq_refl) (fun _ => eq_refl)).
Defined.

(** ** Which naming error is reported *)

Lemma checkFieldNames_prefix (pre rest : list string) :
  forall uniqueNames : gset string,
    "" ∉ pre -> NoDup pre -> (forall x, x ∈ pre -> x ∉ uniqueNames) ->
    exists seen : gset string,
      (forall x, x ∈ seen <-> x ∈ pre \/ x ∈ uniqueNames)
      /\ checkFieldNames (pre ++ rest) uniqueNames = checkFieldNames rest seen.
Proof.
  induction pre as [|name pre IH]; intros uniqueNames Hempty Hnodup Hfresh.
  - exists uniqueNames. split; [|reflexivity].
    intros x. rewrite elem_of_nil. tauto.
  - apply not_elem_of_cons in Hempty as [Hname Hempty].
    apply NoDup_cons in Hnodup as [Hnotin Hnodup].
    destruct (IH ({[ name ]} ∪ uniqueNames) Hempty Hnodup)
      as (seen & Hseen & Hcheck).
    { intros x Hx Hin. apply elem_of_union in Hin as [Hin|Hin].
      - apply elem_of_singleton in Hin as ->. exact (Hnotin Hx).
      - apply (Hfresh x); [apply elem_of_cons; auto | exact Hin]. }
    exists seen. split.
    + intros x. rewrite Hseen, elem_of_union, elem_of_singleton, elem_of_cons.
      tauto.
    + simpl. destruct (String.eqb_spec name "") as [->|_]; [congruence|].
      rewrite bool_decide_eq_false_2; [exact Hcheck|].
      apply Hfresh, elem_of_cons. auto.
Qed.

(** X3.  The naming error of the top level is decided by the first
    offending name, in field order: when the names before it are non-empty
    and distinct, an empty name is reported as such, and a name that
    repeats an earlier one is reported as the duplicate column, with that
    name in the message.  The top level is checked before any child, so
    this holds whatever the nested types are. *)
Theorem validation_reports_first_offending_name (fields : RowType)
    (pre post : list string) (n : string) :
  map fst fields = pre ++ n :: post ->
  "" ∉ pre -> NoDup pre ->
  (n = "" ->
   validateSchemaRecursive (Some fields)
   = inl (VeloxUserError "Field name must not be empty."))
  /\ (n <> "" -> n ∈ pre ->
      validateSchemaRecursive (Some fields)
      = inl (VeloxUserError
               ("File schema should not have duplicate columns: " ++ n))).
Proof.
  intros Hnames Hempty Hnodup.
  destruct (checkFieldNames_prefix pre (n :: post) ∅ Hempty Hnodup)
    as (seen & Hseen & Hcheck).
  { intros x _. apply not_elem_of_empty. }
  unfold validateSchemaRecursive. rewrite validateRowType_ROW, Hnames, Hcheck.
  split.
  - intros ->. reflexivity.
  - intros Hn Hin. simpl.
    destruct (String.eqb_spec n "") as [->|_]; [congruence|].
    rewrite bool_decide_eq_true_2; [reflexivity|].
    apply Hseen. left. exact Hin.
Qed.

Lemma validation_reports_first_offending_name_witness :
  let fields := [("a", Scalar BIGINT);
                 ("b", ROW [("", Scalar BIGINT)]);
                 ("a", Scalar VARCHAR);
                 ("", Scalar BIGINT)] in
  map fst fields = ["a"; "b"] ++ "a" :: [""]
  /\ ("" ∉ ["a"; "b"]) /\ NoDup ["a"; "b"] /\ "a" <> ""
  /\ ("a" ∈ ["a"; "b"])
  /\ validateSchemaRecursive (Some fields)
     = inl (VeloxUserError
              "File schema should not have duplicate columns: a").
Proof.
  intros fields.
  assert (Hempty : "" ∉ ["a"; "b"])
    by (apply (bool_decide_unpack _); vm_compute; exact I).
  assert (Hnodup : NoDup ["a"; "b"])
    by (apply (bool_decide_unpack _); vm_compute; exact I).
  assert (Hin : "a" ∈ ["a"; "b"])
    by (apply (bool_decide_unpack _); vm_compute; exact I).
  assert (Hn : "a" <> "") by discriminate.
  split; [reflexivity|]. split; [exact Hempty|]. split; [exact Hnodup|].
  split; [exact Hn|]. split; [exact Hin|].
  exact (proj2 (validation_reports_first_offending_name fields
                  ["a"; "b"] [""] "a" eq_refl Hempty Hnodup) Hn Hin).
Defined.

(** ** Construction: the order of the checks, and the compression kinds *)

Lemma getArrowParquetCompression_supported (kind : CompressionKind) :
  (exists c, getArrowParquetCompression kind = inr c)
  <-> supportedCompression kind = true.
Proof.
  destruct kind; simpl; split; intros Hk;
    try reflexivity; try discriminate; try (destruct Hk; discriminate);
    eexists; reflexivity.
Qed.

Lemma getArrowParquetCompression_unsupported (kind : CompressionKind) :
  supportedCompression kind = false ->
  getArrowParquetCompression kind
  = inl (VeloxRuntimeError "Unsupported compression").
Proof. destruct kind; simpl; intros Hk; try discriminate; reflexivity. Qed.

Lemma columnCompressions_supported (m : list (string * CompressionKind)) :
  (exists cs, columnCompressions m = inr cs)
  <-> Forall (fun p => supportedCompression (snd p) = true) m.
Proof.
  induction m as [|[column kind] m IH]; simpl.
  - split; [constructor | eexists; reflexivity].
  - rewrite Forall_cons; simpl.
    rewrite <- IH, <- getArrowParquetCompression_supported.
    destruct (getArrowParquetCompression kind) as [e|c].
    + split; [intros [cs Hcs]; discriminate|].
      intros [[c Hc] _]. discriminate.
    + destruct (columnCompressions m) as [e|cs].
      * split; [intros [cs Hcs]; discriminate|].
        intros [_ [cs Hcs]]. discriminate.
      * split; intros _; [split|]; eexists; reflexivity.
Qed.

Lemma getArrowParquetWriterOptions_supported `{FlushPolicy}
    (options : WriterOptions) :
  (exists props, getArrowParquetWriterOptions options = inr props)
  <-> supportedCompression
        (default CompressionKind_NONE (compressionKind options)) = true
      /\ Forall (fun p => supportedCompression (snd p) = true)
                (columnCompressionsMap options).
Proof.
  rewrite <- columnCompressions_supported,
          <- getArrowParquetCompression_supported.
  unfold getArrowParquetWriterOptions.
  destruct (getArrowParquetCompression _) as [e|c].
  - split; [intros [p Hp]; discriminate|].
    intros [[c Hc] _]. discriminate.
  - destruct (columnCompressions _) as [e|cs].
    + split; [intros [p Hp]; discriminate|].
      intros [_ [cs Hcs]]. discriminate.
    + split; intros _; [split|]; eexists; reflexivity.
Qed.

Section Factory.
Context `{ArrowBridge} `{!ParquetEncoder} `{FlushPolicy} `{Destination}.

(** X4.  [createWriter] checks in a fixed order, and the first failed
    check decides the error: options that are not Parquet options, then
    the schema (a schema that [asRowType] turns into a null pointer is
    reported as an empty schema), then the compression kinds.  With
    Parquet options and a valid schema, the constructor gets past the
    building of the encoder properties if and only if the default kind
    and every per-column kind are among the five that are mapped;
    otherwise the error is the unsupported-compression runtime error.
    The checks on the memory pools, which come after, are not part of
    the model. *)
Theorem createWriter_checks_in_order (sink : FileSink)
    (options : CommonWriterOptions) :
  (asParquetWriterOptions options = None ->
   createWriter sink options
   = inl (VeloxRuntimeError
            "Parquet writer factory expected a Parquet WriterOptions object."))
  /\ (forall parquetOptions,
        asParquetWriterOptions options = Some parquetOptions ->
        (schemaAsRowType options = None ->
         createWriter sink options
         = inl (VeloxUserError "Field schema must not be empty."))
        /\ (forall e,
              validateSchemaRecursive (schemaAsRowType options) = inl e ->
              createWriter sink options = inl e)
        /\ (validateSchemaRecursive (schemaAsRowType options) = inr tt ->
            ((exists w, createWriter sink options = inr w)
             <-> supportedCompression
                   (default CompressionKind_NONE
                            (compressionKind parquetOptions)) = true
                 /\ Forall (fun p => supportedCompression (snd p) = true)
                           (columnCompressionsMap parquetOptions))
            /\ (forall e,
                  createWriter sink options = inl e ->
                  e = VeloxRuntimeError "Unsupported compression"))).
Proof.
  unfold createWriter. split.
  - intros ->. reflexivity.
  - intros parquetOptions ->. unfold Writer_new. split; [|split].
    + intros ->. reflexivity.
    + intros e ->. reflexivity.
    + intros ->.
      rewrite <- getArrowParquetWriterOptions_supported.
      destruct (getArrowParquetWriterOptions parquetOptions)
        as [e|props] eqn:Hprops.
      * split.
        -- split; [intros [w Hw]; discriminate|].
           intros [p Hp]. discriminate.
        -- intros e' [= <-].
           exact (getArrowParquetWriterOptions_error _ _ Hprops).
      * split; [|intros e He; discriminate].
        split; intros _; eexists; reflexivity.
Qed.
End Factory.

Lemma createWriter_checks_in_order_witness :
  let options :=
    {| asParquetWriterOptions :=
         Some {| compressionKind := Some CompressionKind_ZLIB;
                 columnCompressionsMap := [];
                 writeInt96AsTimestamp := false |};
       schemaAsRowType := None |} in
  asParquetWriterOptions options
  = Some {| compressionKind := Some CompressionKind_ZLIB;
            columnCompressionsMap := [];
            writeInt96AsTimestamp := false |}
  /\ schemaAsRowType options = None
  /\ @createWriter referenceBridge referenceEncoder referencePolicy
       emptySink options
     = inl (VeloxUserError "Field schema must not be empty.").
Proof.
  intros options. split; [reflexivity|]. split; [reflexivity|].
  exact (proj1 (proj2 (@createWriter_checks_in_order referenceBridge
                         referenceEncoder referencePolicy emptySink options)
                      _ eq_refl) eq_refl).
Defined.

Section CodecAvailability.
Context `{ArrowBridge} `{!ParquetEncoder} `{FlushPolicy} `{Destination}
        `{CodecRegistry}.

(** X5.  [isCodecAvailable] answers, with true or false, exactly for the
    five kinds that are mapped; for any other kind it throws the
    unsupported-compression error instead of answering false.  The
    constructor does not ask the codec registry: with a valid schema and
    no per-column kinds, it builds the encoder properties for a default
    kind exactly when [isCodecAvailable] answers for it, whatever the
    answer. *)
Theorem isCodecAvailable_answers_for_mapped_kinds (kind : CompressionKind) :
  ((exists b, Writer_isCodecAvailable kind = inr b)
   <-> supportedCompression kind = true)
  /\ (supportedCompression kind = false ->
      Writer_isCodecAvailable kind
      = inl (VeloxRuntimeError "Unsupported compression"))
  /\ (forall sink options schema,
        validateSchemaRecursive schema = inr tt ->
        compressionKind options = Some kind ->
        columnCompressionsMap options = [] ->
        ((exists w, Writer_new sink options schema = inr w)
         <-> exists b, Writer_isCodecAvailable kind = inr b)).
Proof.
  assert (Hanswers : (exists b, Writer_isCodecAvailable kind = inr b)
                     <-> supportedCompression kind = true).
  { rewrite <- getArrowParquetCompression_supported.
    unfold Writer_isCodecAvailable.
    destruct (getArrowParquetCompression kind) as [e|c].
    - split; intros [x Hx]; discriminate.
    - split; intros _; eexists; reflexivity. }
  split; [exact Hanswers|]. split.
  - intros Hk. unfold Writer_isCodecAvailable.
    rewrite (getArrowParquetCompression_unsupported _ Hk). reflexivity.
  - intros sink options schema Hvalid Hkind Hcolumns.
    rewrite Hanswers. unfold Writer_new. rewrite Hvalid.
    pose proof (getArrowParquetWriterOptions_supported options) as Hopt.
    rewrite Hkind, Hcolumns in Hopt. simpl in Hopt.
    destruct (getArrowParquetWriterOptions options) as [e|props].
    + split; [intros [w Hw]; discriminate|].
      intros Hk. destruct (proj2 Hopt) as [p Hp]; [|discriminate].
      split; [exact Hk | constructor].
    + split; [|intros _; eexists; reflexivity].
      intros _. apply Hopt. eexists. reflexivity.
Qed.
End CodecAvailability.

Lemma isCodecAvailable_answers_for_mapped_kinds_witness :
  let registry := {| Codec_IsAvailable := fun _ => false |} in
  supportedCompression CompressionKind_LZO = false
  /\ @Writer_isCodecAvailable registry CompressionKind_LZO
     = inl (VeloxRuntimeError "Unsupported compression").
Proof.
  intros registry. split; [reflexivity|].
  exact (proj1 (proj2 (@isCodecAvailable_answers_for_mapped_kinds
                         referenceBridge referenceEncoder referencePolicy
                         registry CompressionKind_LZO))
               eq_refl).
Defined.

(** X6.  No two compression kinds share a codec: the mapping of the
    kinds to the codecs of the encoder is injective where it is
    defined. *)
Theorem getArrowParquetCompression_injective (k1 k2 : CompressionKind)
    (c : Compression) :
  getArrowParquetCompression k1 = inr c ->
  getArrowParquetCompression k2 = inr c ->
  k1 = k2.
Proof.
  destruct k1, k2; simpl; intros H1 H2; try discriminate;
    try reflexivity; rewrite <- H2 in H1; discriminate.
Qed.

Lemma getArrowParquetCompression_injective_witness :
  getArrowParquetCompression CompressionKind_LZ4 = inr Compression_LZ4_HADOOP
  /\ CompressionKind_LZ4 = CompressionKind_LZ4.
Proof.
  split; [reflexivity|].
  exact (getArrowParquetCompression_injective CompressionKind_LZ4
           CompressionKind_LZ4 Compression_LZ4_HADOOP eq_refl eq_refl).
Defined.

(** ** Reconciliation of field names, at any depth *)

Lemma shapeMatches_ROW (rowType : RowType) (dt : DataType) :
  shapeMatches (ROW rowType) dt = childrenMatch (as_StructType dt) rowType 0.
Proof.
  simpl. generalize 0%nat.
  induction rowType as [|[n t] rest IH]; intros i; [reflexivity|].
  cbn [childrenMatch]. rewrite <- IH. reflexivity.
Qed.

Lemma namesReconciled_ROW (rowType : RowType) (fields : list Field) :
  namesReconciled (ROW rowType) (StructType fields)
  = childrenReconciled rowType fields.
Proof.
  reflexivity.
Qed.

Lemma updateTopLevelFields_updateChildren (arrowFields : list Field)
    (schema : RowType) :
  forall i,
    updateTopLevelFields arrowFields schema i
    = updateChildren (Some arrowFields) schema i.
Proof.
  induction schema as [|[n t] rest IH]; intros i; [reflexivity|].
  simpl. rewrite IH. reflexivity.
Qed.

Lemma fullyNamed_ROW (fields : RowType) :
  fullyNamed (ROW fields)
  <-> ("" ∉ map fst fields) /\ Forall (fun p => fullyNamed (snd p)) fields.
Proof.
  unfold fullyNamed. rewrite structLevels_ROW, Forall_cons.
  apply and_iff_compat_l.
  induction fields as [|[n t] rest IH]; simpl.
  - split; constructor.
  - rewrite Forall_app, Forall_cons, IH. reflexivity.
Qed.

Lemma updateChildren_shape (cs : list (string * Type_))
    (structType : option (list Field)) :
  Forall (fun p =>
            forall field name,
              (exists f', updateFieldNameRecursive field (snd p) name = inr f')
              <-> shapeMatches (snd p) (Field_type field) = true) cs ->
  forall i,
    (exists fs, updateChildren structType cs i = inr fs)
    <-> childrenMatch structType cs i = true.
Proof.
  induction 1 as [|[n t] rest Hhead _ IH]; intros i; simpl.
  - split; [reflexivity | eexists; reflexivity].
  - destruct structType as [structFields|];
      [|split; [intros [fs Hfs]|]; discriminate].
    destruct (structFields !! i) as [f|];
      [|split; [intros [fs Hfs]|]; discriminate].
    rewrite andb_true_iff, <- (Hhead f n), <- (IH (S i)). simpl.
    destruct (updateFieldNameRecursive f t n) as [e|f'].
    + split; [intros [fs Hfs]; discriminate|].
      intros [[f' Hf'] _]. discriminate.
    + destruct (updateChildren (Some structFields) rest (S i)) as [e|fs].
      * split; [intros [fs Hfs]; discriminate|].
        intros [_ [fs Hfs]]. discriminate.
      * split; intros _; [split|]; eexists; reflexivity.
Qed.

(** X7.  Reconciliation of a converted field against a logical type
    returns a field exactly when the converted type has the shape that
    the code reads: a list or a map where the logical type is an array,
    a map where it is a map, and, where it is a struct with fields, a
    struct with a field at every index of the logical struct.  In every
    other case a null pointer is dereferenced or a vector is read past
    its end. *)
Theorem reconciliation_returns_iff_shape_matches (type : Type_) :
  forall (field : Field) (name : string),
    (exists f', updateFieldNameRecursive field type name = inr f')
    <-> shapeMatches type (Field_type field) = true.
Proof.
  induction type as [k|e IH|k v IHk IHv|fields IH] using Type_ind_nested;
    intros field name.
  - simpl. split; [reflexivity|]. intros _.
    destruct (negb (String.eqb name "")); eexists; reflexivity.
  - simpl. destruct (as_BaseListType (Field_type field)) as [ef|];
      [|split; [intros [f' Hf']|]; discriminate].
    rewrite <- (IH ef "").
    destruct (updateFieldNameRecursive ef e "") as [x|f1].
    + split; intros [f' Hf']; discriminate.
    + split; intros _; eexists; reflexivity.
  - simpl. destruct (as_MapType (Field_type field)) as [[kf vf]|];
      [|split; [intros [f' Hf']|]; discriminate].
    rewrite andb_true_iff, <- (IHk kf ""), <- (IHv vf "").
    destruct (updateFieldNameRecursive kf k "") as [x|f1].
    + split; [intros [f' Hf']; discriminate|].
      intros [[f' Hf'] _]. discriminate.
    + destruct (updateFieldNameRecursive vf v "") as [x|f2].
      * split; [intros [f' Hf']; discriminate|].
        intros [_ [f' Hf']]. discriminate.
      * split; intros _; [split|]; eexists; reflexivity.
  - rewrite updateFieldNameRecursive_ROW, shapeMatches_ROW. simpl.
    rewrite <- (updateChildren_shape fields _ IH 0).
    destruct (updateChildren _ fields 0) as [x|fs].
    + split; intros [f' Hf']; discriminate.
    + split; intros _; eexists; reflexivity.
Qed.

Lemma updateChildren_reconciled (cs : list (string * Type_))
    (structType : option (list Field)) :
  Forall (fun p =>
            forall field name f',
              updateFieldNameRecursive field (snd p) name = inr f' ->
              fullyNamed (snd p) ->
              namesReconciled (snd p) (Field_type f') = true) cs ->
  forall i fs,
    updateChildren structType cs i = inr fs ->
    "" ∉ map fst cs ->
    Forall (fun p => fullyNamed (snd p)) cs ->
    childrenReconciled cs fs = true.
Proof.
  induction 1 as [|[n t] rest Hhead _ IH]; intros i fs; simpl.
  - intros [= <-] _ _. reflexivity.
  - destruct structType as [structFields|]; [|discriminate].
    destruct (structFields !! i) as [f|]; [|discriminate].
    destruct (updateFieldNameRecursive f t n) as [|f'] eqn:Hf; [discriminate|].
    destruct (updateChildren (Some structFields) rest (S i)) as [|fs'] eqn:Hrest;
      [discriminate|].
    intros [= <-] Hempty Hnamed.
    apply not_elem_of_cons in Hempty as [Hn Hempty].
    apply Forall_cons in Hnamed as [Ht Hnamed]. simpl in Ht.
    simpl. rewrite !andb_true_iff. split; [split|].
    + apply String.eqb_eq.
      rewrite (updateFieldNameRecursive_name _ _ _ _ Hf).
      destruct t; try reflexivity.
      destruct (String.eqb_spec n ""); [congruence | reflexivity].
    + exact (Hhead f n f' Hf Ht).
    + exact (IH _ _ Hrest Hempty Hnamed).
Qed.

(** X8.  When reconciliation returns and no struct level of the logical
    type has an empty field name, the type of the reconciled field
    carries the logical names at every depth: it is a struct with the
    logical field names, in order, where the logical type is a struct, a
    list where it is an array, a map where it is a map, and so on inside
    fields, elements, keys and values. *)
Theorem reconciliation_names_every_level (type : Type_) :
  forall (field : Field) (name : string) (f' : Field),
    updateFieldNameRecursive field type name = inr f' ->
    fullyNamed type ->
    namesReconciled type (Field_type f') = true.
Proof.
  induction type as [k|e IH|k v IHk IHv|fields IH] using Type_ind_nested;
    intros field name f'.
  - intros _ _. reflexivity.
  - simpl. destruct (as_BaseListType _) as [ef|]; [|discriminate].
    destruct (updateFieldNameRecursive ef e "") as [|f1] eqn:He;
      [discriminate|].
    intros [= <-] Hnamed. simpl. exact (IH _ _ _ He Hnamed).
  - simpl. destruct (as_MapType _) as [[kf vf]|]; [|discriminate].
    destruct (updateFieldNameRecursive kf k "") as [|f1] eqn:Hk;
      [discriminate|].
    destruct (updateFieldNameRecursive vf v "") as [|f2] eqn:Hv;
      [discriminate|].
    intros [= <-] Hnamed. unfold fullyNamed in Hnamed. simpl in Hnamed.
    apply Forall_app in Hnamed as [Hnk Hnv].
    simpl. rewrite (IHk _ _ _ Hk Hnk), (IHv _ _ _ Hv Hnv). reflexivity.
  - rewrite updateFieldNameRecursive_ROW.
    destruct (updateChildren _ fields 0) as [|fs] eqn:Hloop; [discriminate|].
    intros [= <-] Hnamed. apply fullyNamed_ROW in Hnamed as [Hempty Hnamed].
    unfold WithType, arrow_struct_. cbn [Field_type].
    rewrite namesReconciled_ROW.
    exact (updateChildren_reconciled fields _ IH 0 fs Hloop Hempty Hnamed).
Qed.

Lemma reconciliation_names_every_level_witness :
  let type :=
    ARRAY (ROW [("a", MAP (Scalar VARCHAR) (ROW [("x", Scalar BIGINT)]))]) in
  let field :=
    mkField "c0"
      (toArrowType
         (ARRAY (ROW [("f0", MAP (Scalar VARCHAR)
                                 (ROW [("f0", Scalar BIGINT)]))])))
      true [] in
  exists f',
    updateFieldNameRecursive field type "c" = inr f'
    /\ fullyNamed type
    /\ namesReconciled type (Field_type f') = true.
Proof.
  intros type field.
  assert (Hnamed : fullyNamed type).
  { unfold fullyNamed. simpl.
    repeat (constructor; [apply (bool_decide_unpack _); vm_compute; exact I|]).
    constructor. }
  eexists. split; [vm_compute; reflexivity|]. split; [exact Hnamed|].
  exact (reconciliation_names_every_level type field "c" _ eq_refl Hnamed).
Defined.

(** The type of a reconciled field depends only on the type of the
    converted field, not on its name, nullability or metadata. *)
Lemma updateFieldNameRecursive_type_only (type : Type_) (f1 f2 : Field)
    (n1 n2 : string) :
  Field_type f1 = Field_type f2 ->
  match updateFieldNameRecursive f1 type n1,
        updateFieldNameRecursive f2 type n2 with
  | inr a, inr b => Field_type a = Field_type b
  | inl x, inl y => x = y
  | _, _ => False
  end.
Proof.
  intros Htype. destruct type as [k|e|k v|rowType].
  - simpl. destruct (negb (String.eqb n1 "")), (negb (String.eqb n2 ""));
      simpl; exact Htype.
  - simpl. rewrite Htype.
    destruct (as_BaseListType (Field_type f2)) as [ef|]; [|reflexivity].
    destruct (updateFieldNameRecursive ef e ""); reflexivity.
  - simpl. rewrite Htype.
    destruct (as_MapType (Field_type f2)) as [[kf vf]|]; [|reflexivity].
    destruct (updateFieldNameRecursive kf k ""); [reflexivity|].
    destruct (updateFieldNameRecursive vf v ""); reflexivity.
  - rewrite !updateFieldNameRecursive_ROW. simpl. rewrite Htype.
    destruct (updateChildren _ rowType 0); reflexivity.
Qed.

Lemma updateChildren_idempotent (cs : list (string * Type_)) :
  Forall (fun p =>
            forall field name f',
              updateFieldNameRecursive field (snd p) name = inr f' ->
              updateFieldNameRecursive f' (snd p) name = inr f') cs ->
  forall structType i fs pre,
    updateChildren structType cs i = inr fs ->
    updateChildren (Some (pre ++ fs)) cs (length pre) = inr fs.
Proof.
  induction 1 as [|[n t] rest Hhead _ IH]; intros structType i fs pre; simpl.
  - intros [= <-]. reflexivity.
  - destruct structType as [structFields|]; [|discriminate].
    destruct (structFields !! i) as [f|]; [|discriminate].
    destruct (updateFieldNameRecursive f t n) as [|f'] eqn:Hf; [discriminate|].
    destruct (updateChildren (Some structFields) rest (S i)) as [|fs'] eqn:Hrest;
      [discriminate|].
    intros [= <-].
    rewrite list_lookup_middle by reflexivity.
    simpl in Hhead. rewrite (Hhead f n f' Hf).
    specialize (IH _ _ _ (pre ++ [f']) Hrest).
    rewrite <- app_assoc, length_app in IH. simpl in IH.
    rewrite Nat.add_1_r in IH. rewrite IH. reflexivity.
Qed.

(** X9.  Reconciliation is idempotent: a field that reconciliation has
    returned is left as it is when it is reconciled again against the
    same logical type under the same name. *)
Theorem reconciliation_is_idempotent (type : Type_) :
  forall (field : Field) (name : string) (f' : Field),
    updateFieldNameRecursive field type name = inr f' ->
    updateFieldNameRecursive f' type name = inr f'.
Proof.
  induction type as [k|e IH|k v IHk IHv|fields IH] using Type_ind_nested;
    intros field name f'.
  - simpl. destruct (String.eqb name "") eqn:Hname; simpl.
    + intros [= <-]. reflexivity.
    + intros [= <-]. reflexivity.
  - simpl. destruct (as_BaseListType _) as [ef|]; [|discriminate].
    destruct (updateFieldNameRecursive ef e "") as [|f1] eqn:He;
      [discriminate|].
    intros [= <-]. simpl. rewrite (IH _ _ _ He). reflexivity.
  - simpl. destruct (as_MapType _) as [[kf vf]|]; [|discriminate].
    destruct (updateFieldNameRecursive kf k "") as [|f1] eqn:Hk;
      [discriminate|].
    destruct (updateFieldNameRecursive vf v "") as [|f2] eqn:Hv;
      [discriminate|].
    intros [= <-]. simpl.
    pose proof (updateFieldNameRecursive_type_only k
                  (mkField "key" (Field_type f1) false []) f1 "" ""
                  eq_refl) as Hkey.
    rewrite (IHk _ _ _ Hk) in Hkey.
    pose proof (updateFieldNameRecursive_type_only v
                  (mkField "value" (Field_type f2) true []) f2 "" ""
                  eq_refl) as Hvalue.
    rewrite (IHv _ _ _ Hv) in Hvalue.
    destruct (updateFieldNameRecursive (mkField "key" _ _ _) k "")
      as [|f1']; [contradiction|].
    destruct (updateFieldNameRecursive (mkField "value" _ _ _) v "")
      as [|f2']; [contradiction|].
    rewrite Hkey, Hvalue. reflexivity.
  - rewrite !updateFieldNameRecursive_ROW.
    destruct (updateChildren _ fields 0) as [|fs] eqn:Hloop; [discriminate|].
    intros [= <-]. simpl.
    pose proof (updateChildren_idempotent fields IH _ _ fs [] Hloop)
      as Hagain.
    simpl in Hagain. rewrite Hagain. reflexivity.
Qed.

Lemma reconciliation_is_idempotent_witness :
  exists f',
    updateFieldNameRecursive convertedMapField logicalMapType "m" = inr f'
    /\ updateFieldNameRecursive f' logicalMapType "m" = inr f'.
Proof.
  eexists. split; [vm_compute; reflexivity|].
  exact (reconciliation_is_idempotent logicalMapType convertedMapField "m" _
           eq_refl).
Defined.

(** ** A whole run: construction, writes, close *)

Section WholeRun.
Context `{ArrowBridge} `{!ParquetEncoder} `{FlushPolicy} `{Destination}.

Lemma Writer_new_initial (sink : FileSink) (options : WriterOptions)
    (schema0 : RowTypePtr) (w0 : Writer) :
  Writer_new sink options schema0 = inr w0 ->
  exists fields props,
    schema0 = Some fields
    /\ validateSchemaRecursive (Some fields) = inr tt
    /\ w0 = initialWriter sink props fields (writeInt96AsTimestamp options).
Proof.
  unfold Writer_new. destruct schema0 as [fields|]; [|discriminate].
  destruct (validateSchemaRecursive (Some fields)) as [|[]] eqn:Hv;
    [discriminate|].
  destruct (getArrowParquetWriterOptions options) as [|props];
    [discriminate|].
  intros [= <-]. exists fields, props. auto.
Qed.

Lemma validated_top_level_named (fields : RowType) :
  validateSchemaRecursive (Some fields) = inr tt -> "" ∉ map fst fields.
Proof.
  unfold validateSchemaRecursive. rewrite validateRowType_ROW.
  destruct (checkFieldNames (map fst fields) ∅) as [|[]] eqn:Hcheck;
    [discriminate|].
  intros _. apply checkFieldNames_ok in Hcheck. tauto.
Qed.

Lemma convertBatch_fields (data : Vector) (rb : RecordBatch) (w w' : Writer) :
  convertBatch data w = Returns rb w' ->
  exists arrowSchema,
    updateTopLevelFields arrowSchema (schema_ w) 0
    = inr (RecordBatch_schema rb).
Proof.
  unfold convertBatch, bind, get, throw, liftE, liftF, needFlatten,
    importRecordBatch, ret, fault.
  destruct (equivalent (Vector_type data) (ROW (schema_ w))); simpl;
    [|discriminate].
  destruct (Vector_asRowVector data) as [rowChildren|]; simpl;
    [|discriminate].
  match goal with
  | |- context [exportToArrow_array ?v] =>
      destruct (exportToArrow_array v) as [array|]; simpl; [|discriminate];
      destruct (exportToArrow_schema v) as [cschema|]; simpl; [|discriminate]
  end.
  destruct (ImportSchema cschema) as [arrowSchema|]; simpl; [|discriminate].
  destruct (updateTopLevelFields arrowSchema (schema_ w) 0)
    as [f|newFields] eqn:Hupd; simpl; [discriminate|].
  destruct (ImportRecordBatch array newFields) as [columns|]; simpl;
    [|discriminate].
  destruct (Nat.eqb (length columns) (length newFields)); simpl;
    [|discriminate].
  intros [= <- _]. exists arrowSchema. exact Hupd.
Qed.

(** The layout of a run of at least one batch, with the canonical schema
    named: it is the schema of the first converted batch. *)
Lemma run_layout (sink : FileSink) (props : WriterProperties)
    (fields : RowType) (int96 : bool) (data : Vector) (rest : list Vector)
    (w : Writer) :
  afterWrites (data :: rest) (initialWriter sink props fields int96)
    = Some w ->
  exists rb rbs groups current,
    convertBatch data (initialWriter sink props fields int96)
    = Returns rb (initialWriter sink props fields int96)
    /\ Forall2 (fun d r =>
                  convertBatch d (initialWriter sink props fields int96)
                  = Returns r (initialWriter sink props fields int96))
               (data :: rest) (rb :: rbs)
    /\ zip (data :: rest) (rb :: rbs) = concat groups ++ current
    /\ wholeBatchLayout fields w (RecordBatch_schema rb) groups current.
Proof.
  set (w0 := initialWriter sink props fields int96). simpl.
  destruct (Writer_write data w0) as [[] w1|e w1|f w1] eqn:Hwrite;
    try discriminate.
  intros Hrest.
  destruct (first_write_layout _ _ _ _ _ _ Hwrite) as (rb & Hconv & Hlayout).
  destruct (wholeBatchLayout_afterWrites _ _ _ _ _ _ _ Hlayout Hrest)
    as (rbs & groups & current & Hall & Hsplit & Hlayout').
  exists rb, rbs, groups, current.
  split; [exact Hconv|]. split; [|split; [exact Hsplit | exact Hlayout']].
  constructor; [exact Hconv|].
  eapply Forall2_impl; [exact Hall|]. intros d r Hd. simpl in Hd.
  apply (convertBatch_schema d r w1 w0); [|exact Hd].
  destruct Hlayout as (c1 & _ & Hf1 & _). exact Hf1.
Qed.

(** X10.  In a run of writes that returned, closed by a [close] that
    returned, every table handed to the encoder has one and the same
    schema, the reconciled schema of the first batch, whatever the
    schemas of the later converted batches; and its top-level field names
    are the column names of the writer's schema, in order. *)
Theorem tables_carry_the_first_batch_schema (sink : FileSink)
    (options : WriterOptions) (schema0 : RowTypePtr) (w0 : Writer)
    (data : Vector) (rest : list Vector) (w w' : Writer) :
  Writer_new sink options schema0 = inr w0 ->
  afterWrites (data :: rest) w0 = Some w ->
  Writer_close w = Returns tt w' ->
  exists rb,
    convertBatch data w0 = Returns rb w0
    /\ map Field_name (RecordBatch_schema rb) = map fst (schema_ w0)
    /\ Forall (fun t => Table_schema t = RecordBatch_schema rb)
              (tablesOf (encoderCalls w')).
Proof.
  intros Hnew Hwrites Hclose.
  destruct (Writer_new_initial _ _ _ _ Hnew)
    as (fields & props & -> & Hvalid & ->).
  destruct (run_layout _ _ _ _ _ _ _ Hwrites)
    as (rb & rbs & groups & current & Hconv & _ & _ & Hlayout).
  exists rb. split; [exact Hconv|]. split.
  - destruct (convertBatch_fields _ _ _ _ Hconv) as (arrowSchema & Hupd).
    rewrite updateTopLevelFields_updateChildren in Hupd.
    apply (updateChildren_names _ _ _ _ Hupd).
    exact (validated_top_level_named _ Hvalid).
  - pose proof (wholeBatchLayout_close _ _ _ _ _ _ Hlayout Hclose) as Htables.
    unfold rowGroupsOf in Htables. rewrite Htables.
    apply Forall_fmap, Forall_forall. intros g _. reflexivity.
Qed.
End WholeRun.

Lemma tables_carry_the_first_batch_schema_witness :
  let batch := rowBatch oneColumn 400 [[1; 2; 3]] in
  exists w' rb,
    @Writer_new referenceBridge referenceEncoder referencePolicy emptySink
      plainOptions (Some oneColumn) = inr referenceWriter
    /\ @afterWrites referenceBridge referenceEncoder referencePolicy
         referenceDestination [batch; batch; batch] referenceWriter
       = Some (stagedWriterOf 3)
    /\ @Writer_close referenceBridge referenceEncoder referencePolicy
         referenceDestination (stagedWriterOf 3) = Returns tt w'
    /\ @convertBatch referenceBridge referenceEncoder batch referenceWriter
       = Returns rb referenceWriter
    /\ map Field_name (RecordBatch_schema rb) = ["a"]
    /\ Forall (fun t => Table_schema t = RecordBatch_schema rb)
              (tablesOf (encoderCalls w')).
Proof.
  intros batch.
  assert (Hnew : @Writer_new referenceBridge referenceEncoder referencePolicy
                   emptySink plainOptions (Some oneColumn)
                 = inr referenceWriter) by (vm_compute; reflexivity).
  assert (Hwrites : @afterWrites referenceBridge referenceEncoder
                      referencePolicy referenceDestination
                      [batch; batch; batch] referenceWriter
                    = Some (stagedWriterOf 3)) by (vm_compute; reflexivity).
  assert (Hclose : exists w',
             @Writer_close referenceBridge referenceEncoder referencePolicy
               referenceDestination (stagedWriterOf 3) = Returns tt w')
    by (eexists; vm_compute; reflexivity).
  destruct Hclose as [w' Hclose].
  destruct (@tables_carry_the_first_batch_schema referenceBridge
              referenceEncoder referencePolicy referenceDestination
              emptySink plainOptions (Some oneColumn) referenceWriter
              batch [batch; batch] (stagedWriterOf 3) w' Hnew Hwrites Hclose)
    as (rb & Hconv & Hnames & Htables).
  exists w', rb. split; [exact Hnew|]. split; [exact Hwrites|].
  split; [exact Hclose|]. split; [exact Hconv|].
  split; [exact Hnames | exact Htables].
Defined.

(** ** Nothing is lost between the batches and the tables *)

Lemma totalRows_app (a b : list Z) :
  totalRows (a ++ b) = totalRows a + totalRows b.
Proof.
  unfold totalRows. induction a as [|x a IH]; simpl; [reflexivity|].
  rewrite IH. lia.
Qed.

Lemma totalRows_nonneg (sizes : list Z) :
  Forall (fun n => 0 <= n) sizes -> 0 <= totalRows sizes.
Proof.
  unfold totalRows. induction 1 as [|x l Hx _ IH]; simpl; lia.
Qed.

Lemma rowsAfter_exact (sizes : list Z) :
  forall rows,
    Forall (fun n => 0 <= n) sizes -> 0 <= rows ->
    rows + totalRows sizes < 2 ^ 64 ->
    rowsAfter rows sizes = rows + totalRows sizes.
Proof.
  unfold rowsAfter.
  induction sizes as [|n sizes IH]; intros rows Hsizes Hrows Hbound.
  - unfold totalRows. simpl. lia.
  - apply Forall_cons in Hsizes as [Hn Hsizes].
    pose proof (totalRows_nonneg sizes Hsizes) as Hrest.
    change (totalRows (n :: sizes)) with (n + totalRows sizes) in *.
    simpl. unfold to_uint64 at 2. rewrite Z.mod_small by lia.
    rewrite IH by (try assumption; lia). lia.
Qed.

Section Conservation.
Context `{ArrowBridge} `{!ParquetEncoder} `{FlushPolicy} `{Destination}.

Lemma groupTable_rows (s : Schema) (group : list (Vector * RecordBatch)) :
  Forall (fun b => 0 <= sizeOf b) group ->
  totalRows (map sizeOf group) < 2 ^ 63 ->
  Table_num_rows (groupTable s group) = totalRows (map sizeOf group).
Proof.
  intros Hsizes Hbound.
  assert (Hnonneg : Forall (fun n => 0 <= n) (map sizeOf group))
    by (apply Forall_fmap; exact Hsizes).
  pose proof (totalRows_nonneg _ Hnonneg).
  unfold groupTable, tableOf. simpl.
  rewrite rowsAfter_exact by (try assumption; lia).
  apply to_int64_small. lia.
Qed.

Lemma groupTables_rows (s : Schema)
    (groups : list (list (Vector * RecordBatch))) :
  Forall (fun b => 0 <= sizeOf b) (concat groups) ->
  totalRows (map sizeOf (concat groups)) < 2 ^ 63 ->
  totalRows (map Table_num_rows (map (groupTable s) groups))
  = totalRows (map sizeOf (concat groups)).
Proof.
  induction groups as [|g groups IH]; [reflexivity|].
  cbn [concat map].
  rewrite Forall_app, map_app, totalRows_app. intros [Hg Hgs] Hbound.
  assert (Hng : Forall (fun n => 0 <= n) (map sizeOf g))
    by (apply Forall_fmap; exact Hg).
  assert (Hngs : Forall (fun n => 0 <= n) (map sizeOf (concat groups)))
    by (apply Forall_fmap; exact Hgs).
  pose proof (totalRows_nonneg _ Hng).
  pose proof (totalRows_nonneg _ Hngs).
  change (totalRows (?x :: ?l)) with (x + totalRows l).
  rewrite groupTable_rows, IH by (try assumption; lia). reflexivity.
Qed.

(** The groups that [close] leaves at the encoder hold every batch
    written, when the batches left staged have rows. *)
Lemma closed_groups (groups : list (list (Vector * RecordBatch)))
    (current : list (Vector * RecordBatch)) :
  Forall (fun b => 0 <= sizeOf b) current ->
  totalRows (map sizeOf current) < 2 ^ 63 ->
  let emitted :=
    groups ++ (if Z.ltb 0 (rowsAfter 0 (map sizeOf current))
               then [current] else []) in
  totalRows (map sizeOf (concat emitted))
  = totalRows (map sizeOf (concat groups ++ current))
  /\ (Forall (fun b => 0 < sizeOf b) current ->
      concat emitted = concat groups ++ current).
Proof.
  intros Hsizes Hbound emitted. subst emitted.
  assert (Hnonneg : Forall (fun n => 0 <= n) (map sizeOf current))
    by (apply Forall_fmap; exact Hsizes).
  rewrite rowsAfter_exact by (try assumption; lia). rewrite Z.add_0_l.
  destruct (Z.ltb_spec 0 (totalRows (map sizeOf current))) as [Hpos|Hzero].
  - rewrite concat_app. simpl. rewrite app_nil_r. auto.
  - rewrite !app_nil_r, map_app, totalRows_app.
    pose proof (totalRows_nonneg _ Hnonneg). split; [lia|].
    intros Hpositive. destruct current as [|b current]; [|exfalso].
    + rewrite app_nil_r. reflexivity.
    + apply Forall_cons in Hpositive as [Hb _].
      apply Forall_cons in Hsizes as [_ Hrest].
      pose proof (totalRows_nonneg (map sizeOf current)
                    ltac:(apply Forall_fmap; exact Hrest)).
      change (totalRows (map sizeOf (b :: current)))
        with (sizeOf b + totalRows (map sizeOf current)) in Hzero.
      lia.
Qed.

Lemma sizes_of_zip (batches : list Vector) (rbs : list RecordBatch) :
  length batches = length rbs ->
  map sizeOf (zip batches rbs) = map Vector_size batches.
Proof.
  revert rbs. induction batches as [|d batches IH]; intros [|r rbs];
    simpl; try discriminate; [reflexivity|].
  intros [= Hlen]. unfold sizeOf at 1. simpl. rewrite IH by exact Hlen.
  reflexivity.
Qed.

(** X11.  No row is lost or counted twice: in a run of writes that
    returned, closed by a [close] that returned, with batches of
    non-negative sizes whose total is below 2^63, the row counts of the
    tables handed to the encoder add up to the total of the batch
    sizes. *)
Theorem rows_are_conserved (sink : FileSink) (options : WriterOptions)
    (schema0 : RowTypePtr) (w0 : Writer) (batches : list Vector)
    (w w' : Writer) :
  Writer_new sink options schema0 = inr w0 ->
  afterWrites batches w0 = Some w ->
  Writer_close w = Returns tt w' ->
  Forall (fun data => 0 <= Vector_size data) batches ->
  totalRows (map Vector_size batches) < 2 ^ 63 ->
  totalRows (map Table_num_rows (tablesOf (encoderCalls w')))
  = totalRows (map Vector_size batches).
Proof.
  intros Hnew Hwrites Hclose Hsizes Hbound.
  destruct (Writer_new_initial _ _ _ _ Hnew)
    as (fields & props & -> & Hvalid & ->).
  destruct (afterWrites_layout _ _ _ _ _ _ Hwrites)
    as [[-> ->]|(s & rbs & groups & current & Hall & Hsplit & Hlayout)].
  - destruct (Writer_close_tables _ _ Hclose) as (w1 & Hflush & ->).
    rewrite (Writer_flush_noop
               (initialWriter sink props fields
                  (writeInt96AsTimestamp options)) _ eq_refl)
      in Hflush by (simpl; lia).
    injection Hflush as <-. reflexivity.
  - pose proof (wholeBatchLayout_close _ _ _ _ _ _ Hlayout Hclose) as Htables.
    unfold rowGroupsOf in Htables. rewrite Htables.
    assert (Hzip : map sizeOf (zip batches rbs) = map Vector_size batches)
      by (apply sizes_of_zip; eapply Forall2_length; exact Hall).
    rewrite Hsplit in Hzip.
    assert (Hall_sizes : Forall (fun n => 0 <= n)
                                (map sizeOf (concat groups ++ current)))
      by (rewrite Hzip; apply Forall_fmap; exact Hsizes).
    rewrite map_app in Hall_sizes.
    apply Forall_app in Hall_sizes as [Hgs Hcur].
    pose proof (totalRows_nonneg _ Hgs).
    pose proof (totalRows_nonneg _ Hcur).
    assert (Htotal : totalRows (map sizeOf (concat groups))
                     + totalRows (map sizeOf current) < 2 ^ 63)
      by (rewrite <- totalRows_app, <- map_app, Hzip; exact Hbound).
    apply -> Forall_map in Hgs. apply -> Forall_map in Hcur.
    destruct (closed_groups groups current Hcur ltac:(lia)) as [Hemitted _].
    rewrite groupTables_rows.
    + rewrite Hemitted, Hzip. reflexivity.
    + destruct (Z.ltb 0 (rowsAfter 0 (map sizeOf current)));
        rewrite ?app_nil_r, ?concat_app; simpl; rewrite ?app_nil_r;
        try apply Forall_app; auto.
    + rewrite Hemitted, Hzip. exact Hbound.
Qed.
End Conservation.

Lemma rows_are_conserved_witness :
  let batch := rowBatch oneColumn 400 [[1; 2; 3]] in
  exists w',
    @Writer_close referenceBridge referenceEncoder referencePolicy
      referenceDestination (stagedWriterOf 3) = Returns tt w'
    /\ Forall (fun data => 0 <= Vector_size data) [batch; batch; batch]
    /\ totalRows (map Vector_size [batch; batch; batch]) < 2 ^ 63
    /\ totalRows (map Table_num_rows (tablesOf (encoderCalls w'))) = 1200.
Proof.
  intros batch.
  assert (Hnew : @Writer_new referenceBridge referenceEncoder referencePolicy
                   emptySink plainOptions (Some oneColumn)
                 = inr referenceWriter) by (vm_compute; reflexivity).
  assert (Hwrites : @afterWrites referenceBridge referenceEncoder
                      referencePolicy referenceDestination
                      [batch; batch; batch] referenceWriter
                    = Some (stagedWriterOf 3)) by (vm_compute; reflexivity).
  assert (Hclose : exists w',
             @Writer_close referenceBridge referenceEncoder referencePolicy
               referenceDestination (stagedWriterOf 3) = Returns tt w')
    by (eexists; vm_compute; reflexivity).
  destruct Hclose as [w' Hclose].
  assert (Hsizes : Forall (fun data => 0 <= Vector_size data)
                          [batch; batch; batch])
    by (repeat constructor; vm_compute; discriminate).
  assert (Hbound : totalRows (map Vector_size [batch; batch; batch]) < 2 ^ 63)
    by (vm_compute; reflexivity).
  exists w'. split; [exact Hclose|]. split; [exact Hsizes|].
  split; [exact Hbound|].
  exact (@rows_are_conserved referenceBridge referenceEncoder referencePolicy
           referenceDestination emptySink plainOptions (Some oneColumn)
           referenceWriter [batch; batch; batch] (stagedWriterOf 3) w'
           Hnew Hwrites Hclose Hsizes Hbound).
Defined.

Section ColumnOrder.
Context `{ArrowBridge} `{!ParquetEncoder} `{FlushPolicy} `{Destination}.

Lemma stageOnto_column (j : nat) (group : list (list Array)) :
  forall (base : list (list Array)) (staged : list Array),
    Forall (fun columns => length columns = length base) group ->
    base !! j = Some staged ->
    exists fragments,
      stageOnto base group !! j = Some (staged ++ fragments)
      /\ Forall2 (fun columns a => columns !! j = Some a) group fragments.
Proof.
  induction group as [|columns group IH]; intros base staged Hgroup Hbase.
  - exists []. rewrite app_nil_r. split; [exact Hbase | constructor].
  - apply Forall_cons in Hgroup as [Hlen Hgroup].
    assert (Hj : (j < length columns)%nat)
      by (rewrite Hlen; exact (lookup_lt_Some _ _ _ Hbase)).
    destruct (lookup_lt_is_Some_2 _ _ Hj) as [a Ha].
    destruct (IH (appendColumns base columns) (staged ++ [a]))
      as (fragments & Hstaged & Hfragments).
    + rewrite appendColumns_length by congruence. exact Hgroup.
    + unfold appendColumns. rewrite lookup_zip_with, Hbase, Ha. reflexivity.
    + exists (a :: fragments). split.
      * change (stageOnto base (columns :: group))
          with (stageOnto (appendColumns base columns) group).
        rewrite Hstaged, <- app_assoc. reflexivity.
      * constructor; assumption.
Qed.

Lemma groupTable_column (s : Schema) (group : list (Vector * RecordBatch))
    (j : nat) :
  Forall (fun b => length (columnsOf b) = length s) group ->
  (j < length s)%nat ->
  Forall2 (fun b a => columnsOf b !! j = Some a) group
          (tableColumn j (groupTable s group)).
Proof.
  intros Hgroup Hj.
  destruct (stageOnto_column j (map columnsOf group)
              (replicate (length s) []) [])
    as (fragments & Hstaged & Hfragments).
  - apply Forall_map. rewrite length_replicate. exact Hgroup.
  - apply lookup_replicate_2. exact Hj.
  - destruct (lookup_lt_is_Some_2 _ _ Hj) as [f Hf].
    unfold tableColumn, groupTable, tableOf. cbn [Table_columns].
    rewrite lookup_zip_with, Hstaged, Hf. simpl.
    apply Forall2_fmap_l in Hfragments. exact Hfragments.
Qed.

Lemma groupTables_column (s : Schema)
    (groups : list (list (Vector * RecordBatch))) (j : nat) :
  Forall (fun b => length (columnsOf b) = length s) (concat groups) ->
  (j < length s)%nat ->
  Forall2 (fun b a => columnsOf b !! j = Some a) (concat groups)
          (concat (map (tableColumn j) (map (groupTable s) groups))).
Proof.
  intros Hgroups Hj.
  induction groups as [|g groups IH]; [constructor|].
  cbn [concat map] in *. apply Forall_app in Hgroups as [Hg Hgroups].
  apply Forall2_app; [exact (groupTable_column s g j Hg Hj)|].
  exact (IH Hgroups).
Qed.

(** X12.  Within every column the fragments keep the arrival order of
    the batches, across row groups: in a run of writes that returned,
    closed by a [close] that returned, with batches of positive sizes
    whose total is below 2^63, the fragments of column [j] of the tables
    handed to the encoder, read table after table, are the fragments
    that the batches contributed to column [j], one per batch, in the
    order written. *)
Theorem columns_keep_batch_order (sink : FileSink) (options : WriterOptions)
    (schema0 : RowTypePtr) (w0 : Writer) (batches : list Vector)
    (w w' : Writer) :
  Writer_new sink options schema0 = inr w0 ->
  afterWrites batches w0 = Some w ->
  Writer_close w = Returns tt w' ->
  Forall (fun data => 0 < Vector_size data) batches ->
  totalRows (map Vector_size batches) < 2 ^ 63 ->
  exists rbs,
    Forall2 (fun data rb => convertBatch data w0 = Returns rb w0) batches rbs
    /\ forall j,
         (j < length (schema_ w0))%nat ->
         Forall2 (fun rb a => RecordBatch_columns rb !! j = Some a) rbs
                 (concat (map (tableColumn j)
                              (tablesOf (encoderCalls w')))).
Proof.
  intros Hnew Hwrites Hclose Hsizes Hbound.
  destruct (Writer_new_initial _ _ _ _ Hnew)
    as (fields & props & -> & Hvalid & ->).
  destruct (afterWrites_layout _ _ _ _ _ _ Hwrites)
    as [[-> ->]|(s & rbs & groups & current & Hall & Hsplit & Hlayout)].
  - exists []. split; [constructor|]. intros j _.
    destruct (Writer_close_tables _ _ Hclose) as (w1 & Hflush & ->).
    rewrite (Writer_flush_noop
               (initialWriter sink props fields
                  (writeInt96AsTimestamp options)) _ eq_refl)
      in Hflush by (simpl; lia).
    injection Hflush as <-. constructor.
  - exists rbs. split; [exact Hall|]. intros j Hj.
    pose proof (wholeBatchLayout_close _ _ _ _ _ _ Hlayout Hclose) as Htables.
    unfold rowGroupsOf in Htables. rewrite Htables. clear Htables.
    assert (Hlen : length batches = length rbs)
      by (eapply Forall2_length; exact Hall).
    assert (Hzip : map sizeOf (zip batches rbs) = map Vector_size batches)
      by (apply sizes_of_zip; exact Hlen).
    assert (Hs : length s = length fields)
      by (destruct Hlayout as (c & _ & _ & _ & Hs & _); exact Hs).
    (* every batch is as wide as the canonical schema *)
    assert (Hwide : Forall (fun b => length (columnsOf b) = length s)
                           (zip batches rbs)).
    { clear -Hall Hs. induction Hall as [|d r ds rs Hd _ IH]; simpl;
        constructor; [|exact IH].
      pose proof (convertBatch_cases d
                    (initialWriter sink props fields
                       (writeInt96AsTimestamp options))) as Hconv.
      rewrite Hd in Hconv. destruct Hconv as (_ & _ & _ & Hcols & Hwidth).
      unfold columnsOf. simpl in *. congruence. }
    (* positive sizes: the batches left staged are flushed by [close] *)
    assert (Hpositive : Forall (fun b => 0 < sizeOf b) (zip batches rbs)).
    { apply Forall_map. rewrite Hzip. apply Forall_map. exact Hsizes. }
    rewrite Hsplit in Hwide, Hpositive, Hzip.
    apply Forall_app in Hpositive as [_ Hcurrent].
    destruct (closed_groups groups current) as [_ Hemitted].
    { eapply Forall_impl; [exact Hcurrent|]. intros b Hb. simpl in Hb. lia. }
    { assert (Hnonneg : Forall (fun n => 0 <= n)
                          (map sizeOf (concat groups ++ current))).
      { rewrite Hzip. apply Forall_map.
        eapply Forall_impl; [exact Hsizes|]. intros d Hd. simpl in Hd. lia. }
      rewrite map_app in Hnonneg, Hzip.
      apply Forall_app in Hnonneg as [Hgs _].
      pose proof (totalRows_nonneg _ Hgs).
      rewrite <- Hzip, totalRows_app in Hbound. lia. }
    specialize (Hemitted Hcurrent). cbv zeta in Hemitted.
    rewrite <- Hemitted in Hwide.
    pose proof (groupTables_column s _ j Hwide ltac:(simpl in Hj; lia))
      as Hcolumn.
    rewrite Hemitted, <- Hsplit in Hcolumn.
    assert (Hsnd : map snd (zip batches rbs) = rbs).
    { clear -Hlen. revert rbs Hlen.
      induction batches as [|d ds IH]; intros [|r rs]; simpl;
        try discriminate; [reflexivity|].
      intros [= Hlen]. rewrite IH by exact Hlen. reflexivity. }
    rewrite <- Hsnd. apply Forall2_fmap_l.
    eapply Forall2_impl; [exact Hcolumn|]. intros b a Hb. exact Hb.
Qed.
End ColumnOrder.

Lemma columns_keep_batch_order_witness :
  let batch := rowBatch oneColumn 400 [[1; 2; 3]] in
  exists w' rbs,
    @Writer_close referenceBridge referenceEncoder referencePolicy
      referenceDestination (stagedWriterOf 3) = Returns tt w'
    /\ Forall (fun data => 0 < Vector_size data) [batch; batch; batch]
    /\ totalRows (map Vector_size [batch; batch; batch]) < 2 ^ 63
    /\ Forall2 (fun data rb =>
                  @convertBatch referenceBridge referenceEncoder data
                    referenceWriter = Returns rb referenceWriter)
               [batch; batch; batch] rbs
    /\ Forall2 (fun rb a => RecordBatch_columns rb !! 0%nat = Some a) rbs
               (concat (map (tableColumn 0) (tablesOf (encoderCalls w')))).
Proof.
  intros batch.
  assert (Hnew : @Writer_new referenceBridge referenceEncoder referencePolicy
                   emptySink plainOptions (Some oneColumn)
                 = inr referenceWriter) by (vm_compute; reflexivity).
  assert (Hwrites : @afterWrites referenceBridge referenceEncoder
                      referencePolicy referenceDestination
                      [batch; batch; batch] referenceWriter
                    = Some (stagedWriterOf 3)) by (vm_compute; reflexivity).
  assert (Hclose : exists w',
             @Writer_close referenceBridge referenceEncoder referencePolicy
               referenceDestination (stagedWriterOf 3) = Returns tt w')
    by (eexists; vm_compute; reflexivity).
  destruct Hclose as [w' Hclose].
  assert (Hsizes : Forall (fun data => 0 < Vector_size data)
                          [batch; batch; batch])
    by (repeat constructor; vm_compute; reflexivity).
  assert (Hbound : totalRows (map Vector_size [batch; batch; batch]) < 2 ^ 63)
    by (vm_compute; reflexivity).
  destruct (@columns_keep_batch_order referenceBridge referenceEncoder
              referencePolicy referenceDestination emptySink plainOptions
              (Some oneColumn) referenceWriter [batch; batch; batch]
              (stagedWriterOf 3) w' Hnew Hwrites Hclose Hsizes Hbound)
    as (rbs & Hall & Hcolumns).
  exists w', rbs. split; [exact Hclose|]. split; [exact Hsizes|].
  split; [exact Hbound|]. split; [exact Hall|].
  apply Hcolumns. simpl. lia.
Defined.

(** ** [processConfigs]: which value each option gets *)

Section ConfigFacts.
Context `{ConfigParsers} `{ConfigKeys}.

Lemma assignIfUnset_Configured {T} (member : ConfiguredOptions -> option T)
    (set : option T -> ConfiguredOptions -> ConfiguredOptions)
    (value : ConfigException + option T) (o o1 : ConfiguredOptions) :
  set (member o) o = o ->
  (assignIfUnset member set value o = Configured o1 <->
   exists result, resolvesTo (member o) value result /\ o1 = set result o).
Proof.
  intros Hlens. unfold assignIfUnset, resolvesTo.
  destruct (member o) as [v|].
  - split.
    + intros [= <-]. exists (Some v). auto.
    + intros (result & -> & ->). rewrite Hlens. reflexivity.
  - destruct value as [e|x].
    + split; [discriminate|]. intros (result & Hr & _). discriminate.
    + split.
      * intros [= <-]. exists x. auto.
      * intros (result & [= <-] & ->). reflexivity.
Qed.

Lemma andThen_Configured (r : ConfigOutcome)
    (k : ConfiguredOptions -> ConfigOutcome) (o' : ConfiguredOptions) :
  andThen r k = Configured o' <->
  exists o1, r = Configured o1 /\ k o1 = Configured o'.
Proof.
  destruct r as [o1|e o1]; simpl.
  - split; [eauto|]. intros (o2 & [= <-] & Hk). exact Hk.
  - split; [discriminate|]. intros (o2 & Ho2 & _). discriminate.
Qed.

Ltac config_step_in Hp r Hr :=
  let o1 := fresh "o" in
  let H1 := fresh "H" in
  apply andThen_Configured in Hp as (o1 & H1 & Hp);
  apply assignIfUnset_Configured in H1 as (r & Hr & ->);
  [|match goal with |- _ ?o = ?o => destruct o; reflexivity end].

Ltac config_step Hk :=
  apply andThen_Configured; eexists; split;
  [ apply assignIfUnset_Configured;
    [ match goal with |- _ ?o = ?o => destruct o; reflexivity end
    | eexists; split; [cbn; exact Hk | reflexivity] ]
  | ].

(** [processConfigs] returns exactly the options that the relation
    [configuredFrom] describes. *)
Lemma processConfigs_Configured (connectorConfig session : ConfigBase)
    (o o' : ConfiguredOptions) :
  processConfigs connectorConfig session o = Configured o' <->
  configuredFrom connectorConfig session o o'.
Proof.
  unfold processConfigs, configuredFrom. split.
  - intros Hp.
    config_step_in Hp r1 Hr1. config_step_in Hp r2 Hr2.
    config_step_in Hp r3 Hr3. config_step_in Hp r4 Hr4.
    config_step_in Hp r5 Hr5. config_step_in Hp r6 Hr6.
    config_step_in Hp r7 Hr7.
    apply assignIfUnset_Configured in Hp as (r8 & Hr8 & ->);
      [|destruct o; reflexivity].
    cbn in *.
    split; [reflexivity|]. split; [exact Hr1|]. split; [exact Hr2|].
    split; [exact Hr3|]. split; [exact Hr4|]. split; [exact Hr5|].
    split; [exact Hr6|]. split; [exact Hr7 | exact Hr8].
  - intros (Hstz & H1 & H2 & H3 & H4 & H5 & H6 & H7 & H8).
    config_step H1. config_step H2. config_step H3. config_step H4.
    config_step H5. config_step H6. config_step H7.
    apply assignIfUnset_Configured; [destruct o; reflexivity|].
    exists (createdBy o'). split; [cbn; exact H8|].
    destruct o, o'. cbn in *. subst. reflexivity.
Qed.

Lemma resolvesTo_again {T} (explicit result : option T)
    (value : ConfigException + option T) :
  resolvesTo explicit value result -> resolvesTo result value result.
Proof.
  unfold resolvesTo. destruct result as [v|]; [reflexivity|].
  destruct explicit; [discriminate | auto].
Qed.

Lemma keepsExplicit_refl (o : ConfiguredOptions) : keepsExplicit o o.
Proof. unfold keepsExplicit. repeat split; auto. Qed.

Lemma keepsExplicit_trans (o1 o2 o3 : ConfiguredOptions) :
  keepsExplicit o1 o2 -> keepsExplicit o2 o3 -> keepsExplicit o1 o3.
Proof.
  unfold keepsExplicit.
  intros (A1 & A2 & A3 & A4 & A5 & A6 & A7 & A8)
         (B1 & B2 & B3 & B4 & B5 & B6 & B7 & B8).
  repeat split; eauto.
Qed.

Lemma keepsExplicit_step {T} (member : ConfiguredOptions -> option T)
    (set : option T -> ConfiguredOptions -> ConfiguredOptions)
    (value : ConfigException + option T) (o : ConfiguredOptions) :
  (forall v, member o = None -> keepsExplicit o (set v o)) ->
  keepsExplicit o (optionsAfter (assignIfUnset member set value o)).
Proof.
  intros Hset. unfold assignIfUnset.
  destruct (member o) as [v|]; [apply keepsExplicit_refl|].
  destruct value as [e|x]; [apply keepsExplicit_refl|].
  apply Hset. reflexivity.
Qed.

Lemma keepsExplicit_andThen (o : ConfiguredOptions) (r : ConfigOutcome)
    (k : ConfiguredOptions -> ConfigOutcome) :
  keepsExplicit o (optionsAfter r) ->
  (forall o1, keepsExplicit o1 (optionsAfter (k o1))) ->
  keepsExplicit o (optionsAfter (andThen r k)).
Proof.
  intros Hr Hk. destruct r as [o1|e o1]; simpl in *; [|exact Hr].
  exact (keepsExplicit_trans _ _ _ Hr (Hk o1)).
Qed.

Ltac keeps_explicit_setter :=
  let Hnone := fresh in
  intros ? Hnone; unfold keepsExplicit; cbn;
  repeat split; intros ? ?; congruence.

(** X13.  [processConfigs] never overwrites an option that was set
    explicitly, whether it returns or throws part-way; and when every
    option it resolves is set, it returns the options unchanged whatever
    the two configurations hold, malformed values included: they are not
    read. *)
Theorem processConfigs_keeps_explicit_options
    (connectorConfig session : ConfigBase) (o : ConfiguredOptions) :
  keepsExplicit o (optionsAfter (processConfigs connectorConfig session o))
  /\ (allExplicit o ->
      processConfigs connectorConfig session o = Configured o).
Proof.
  split.
  - unfold processConfigs.
    repeat (apply keepsExplicit_andThen;
            [apply keepsExplicit_step; keeps_explicit_setter | intros ?]).
    apply keepsExplicit_step. keeps_explicit_setter.
  - destruct o as [u tz stz ed dl v2 dp bs cb]. unfold allExplicit. cbn.
    intros (Hu & Htz & Hed & Hdl & Hv2 & Hdp & Hbs & Hcb).
    destruct u; [|contradiction]. destruct tz; [|contradiction].
    destruct ed; [|contradiction]. destruct dl; [|contradiction].
    destruct v2; [|contradiction]. destruct dp; [|contradiction].
    destruct bs; [|contradiction]. destruct cb; [|contradiction].
    reflexivity.
Qed.

(** X14.  For an option left unset, the session configuration takes
    precedence over the connector configuration: a value that the
    session holds is the result, and the connector configuration is
    then not read; the connector configuration decides only when the
    session has no value.  This holds for the timestamp unit (for which
    the connector configuration is read under the session key), the
    dictionary switch, the dictionary page size limit, the data page
    version, the data page size and the batch size. *)
Theorem session_takes_precedence_over_connector
    (connectorConfig session : ConfigBase) (o o' : ConfiguredOptions) :
  processConfigs connectorConfig session o = Configured o' ->
  sessionFirst (parquetWriteTimestampUnit o)
    (getTimestampUnit session kParquetSessionWriteTimestampUnit)
    (getTimestampUnit connectorConfig kParquetSessionWriteTimestampUnit)
    (parquetWriteTimestampUnit o')
  /\ sessionFirst (enableDictionary o)
       (isParquetEnableDictionary session kParquetSessionEnableDictionary)
       (isParquetEnableDictionary connectorConfig
          kParquetHiveConnectorEnableDictionary)
       (enableDictionary o')
  /\ sessionFirst (dictionaryPageSizeLimit o)
       (getParquetPageSize session kParquetSessionDictionaryPageSizeLimit)
       (getParquetPageSize connectorConfig
          kParquetHiveConnectorDictionaryPageSizeLimit)
       (dictionaryPageSizeLimit o')
  /\ sessionFirst (useParquetDataPageV2 o)
       (getParquetDataPageVersion session kParquetSessionDataPageVersion)
       (getParquetDataPageVersion connectorConfig
          kParquetHiveConnectorDataPageVersion)
       (useParquetDataPageV2 o')
  /\ sessionFirst (dataPageSize o)
       (getParquetPageSize session kParquetSessionWritePageSize)
       (getParquetPageSize connectorConfig
          kParquetHiveConnectorWritePageSize)
       (dataPageSize o')
  /\ sessionFirst (batchSize o)
       (getParquetBatchSize session kParquetSessionWriteBatchSize)
       (getParquetBatchSize connectorConfig
          kParquetHiveConnectorWriteBatchSize)
       (batchSize o').
Proof.
  intros Hp.
  apply processConfigs_Configured in Hp
    as (_ & Hu & _ & Hed & Hdl & Hv2 & Hdp & Hbs & _).
  assert (Hgen : forall T (explicit : option T) fromSession fromConnector
                        result,
             resolvesTo explicit
               (sessionThenConnector fromSession fromConnector) result ->
             sessionFirst explicit fromSession fromConnector result).
  { intros T explicit fromSession fromConnector result Hr ->.
    unfold resolvesTo, sessionThenConnector in Hr. split.
    - intros v Hv. rewrite Hv in Hr. congruence.
    - intros Hv. rewrite Hv in Hr. exact Hr. }
  split; [apply Hgen; exact Hu|]. split; [apply Hgen; exact Hed|].
  split; [apply Hgen; exact Hdl|]. split; [apply Hgen; exact Hv2|].
  split; [apply Hgen; exact Hdp | apply Hgen; exact Hbs].
Qed.

(** X15.  [processConfigs] is idempotent: run again, with the same two
    configurations, on the options it has returned, it returns them
    unchanged. *)
Theorem processConfigs_is_idempotent (connectorConfig session : ConfigBase)
    (o o' : ConfiguredOptions) :
  processConfigs connectorConfig session o = Configured o' ->
  processConfigs connectorConfig session o' = Configured o'.
Proof.
  rewrite !processConfigs_Configured. unfold configuredFrom.
  intros (Hstz & Hu & Htz & Hed & Hdl & Hv2 & Hdp & Hbs & Hcb).
  split; [reflexivity|]. rewrite Hstz.
  repeat split; eapply resolvesTo_again; eassumption.
Qed.

(** X16.  A timestamp unit taken from a configuration is 3, 6 or 9; a
    session value that parses to any other number makes [processConfigs]
    throw the invalid-unit runtime error before any option is
    assigned, unless the unit was set explicitly. *)
Theorem configured_timestamp_unit_is_valid
    (connectorConfig session : ConfigBase) (o : ConfiguredOptions) :
  parquetWriteTimestampUnit o = None ->
  (forall o' u,
     processConfigs connectorConfig session o = Configured o' ->
     parquetWriteTimestampUnit o' = Some u -> u = 3 \/ u = 6 \/ u = 9)
  /\ (forall raw n,
        session !! kParquetSessionWriteTimestampUnit = Some raw ->
        folly_to_uint8 raw = Some n ->
        n <> 3 -> n <> 6 -> n <> 9 ->
        processConfigs connectorConfig session o
        = ConfigThrows
            (VeloxException (VeloxRuntimeError "Invalid timestamp unit")) o).
Proof.
  intros Hunset.
  assert (Hvalid : forall config key u,
             getTimestampUnit config key = inr (Some u) ->
             u = 3 \/ u = 6 \/ u = 9).
  { intros config key u. unfold getTimestampUnit.
    destruct (ConfigBase_get folly_to_uint8 config key) as [e|[n|]];
      try discriminate.
    destruct (Z.eqb_spec n 3) as [->|_]; simpl; [intros [= <-]; auto|].
    destruct (Z.eqb_spec n 6) as [->|_]; simpl; [intros [= <-]; auto|].
    destruct (Z.eqb_spec n 9) as [->|_]; simpl; [intros [= <-]; auto|].
    discriminate. }
  split.
  - intros o' u Hp Hu.
    apply processConfigs_Configured in Hp as (_ & Hr & _).
    unfold resolvesTo in Hr. rewrite Hunset, Hu in Hr.
    unfold sessionThenConnector in Hr.
    destruct (getTimestampUnit session _) as [e|[x|]] eqn:Hs;
      try discriminate.
    + injection Hr as ->. exact (Hvalid _ _ _ Hs).
    + exact (Hvalid _ _ _ Hr).
  - intros raw n Hraw Hn H3 H6 H9.
    unfold processConfigs, assignIfUnset at 1. rewrite Hunset.
    unfold sessionThenConnector, getTimestampUnit at 1, ConfigBase_get.
    rewrite Hraw, Hn.
    destruct (Z.eqb_spec n 3); [contradiction|].
    destruct (Z.eqb_spec n 6); [contradiction|].
    destruct (Z.eqb_spec n 9); [contradiction|].
    reflexivity.
Qed.

(** X17.  The creator string and the timestamp time zone do not depend
    on the session configuration: the creator comes from the connector
    configuration only and the time zone from the session time zone name
    of the options, so two runs that differ in the session configuration
    only agree on both. *)
Theorem createdBy_ignores_session
    (connectorConfig session1 session2 : ConfigBase)
    (o o1 o2 : ConfiguredOptions) :
  processConfigs connectorConfig session1 o = Configured o1 ->
  processConfigs connectorConfig session2 o = Configured o2 ->
  createdBy o1 = createdBy o2
  /\ parquetWriteTimestampTimeZone o1 = parquetWriteTimestampTimeZone o2
  /\ (createdBy o = None ->
      createdBy o1 = connectorConfig !! kParquetHiveConnectorCreatedBy).
Proof.
  rewrite !processConfigs_Configured. unfold configuredFrom, resolvesTo.
  intros (_ & _ & Htz1 & _ & _ & _ & _ & _ & Hcb1)
         (_ & _ & Htz2 & _ & _ & _ & _ & _ & Hcb2).
  split; [|split].
  - destruct (createdBy o); congruence.
  - destruct (parquetWriteTimestampTimeZone o); congruence.
  - intros Hnone. rewrite Hnone in Hcb1.
    unfold getParquetCreatedBy, ConfigBase_get in Hcb1.
    destruct (connectorConfig !! kParquetHiveConnectorCreatedBy);
      simpl in Hcb1; congruence.
Qed.
End ConfigFacts.

Lemma processConfigs_keeps_explicit_options_witness :
  let o := mkConfiguredOptions (Some 6) (Some "UTC") (Some "UTC") (Some true)
             (Some 1024) (Some false) (Some 2048) (Some 1024)
             (Some "writer") in
  let session : ConfigBase := {[ "session.timestamp_unit" := "seven" ]} in
  allExplicit o
  /\ @processConfigs referenceParsers referenceKeys ∅ session o
     = Configured o.
Proof.
  intros o session.
  assert (Hall : allExplicit o) by (repeat split; discriminate).
  split; [exact Hall|].
  exact (proj2 (@processConfigs_keeps_explicit_options referenceParsers
                  referenceKeys ∅ session o) Hall).
Defined.

Lemma session_takes_precedence_over_connector_witness :
  let session : ConfigBase := {[ "session.enable_dictionary" := "false" ]} in
  let connector : ConfigBase :=
    {[ "connector.enable_dictionary" := "not a boolean" ]} in
  exists o',
    @processConfigs referenceParsers referenceKeys connector session
      unsetOptions = Configured o'
    /\ enableDictionary o' = Some false.
Proof.
  intros session connector.
  assert (Hp : exists o',
             @processConfigs referenceParsers referenceKeys connector session
               unsetOptions = Configured o')
    by (eexists; vm_compute; reflexivity).
  destruct Hp as [o' Hp]. exists o'. split; [exact Hp|].
  destruct (@session_takes_precedence_over_connector referenceParsers
              referenceKeys connector session unsetOptions o' Hp)
    as (_ & Hed & _).
  destruct (Hed eq_refl) as [Hsession _].
  apply Hsession. vm_compute. reflexivity.
Defined.

Lemma processConfigs_is_idempotent_witness :
  let session : ConfigBase := {[ "session.datapage_version" := "V2" ]} in
  let connector : ConfigBase := {[ "connector.page_size" := "1MB" ]} in
  exists o',
    @processConfigs referenceParsers referenceKeys connector session
      unsetOptions = Configured o'
    /\ @processConfigs referenceParsers referenceKeys connector session o'
       = Configured o'.
Proof.
  intros session connector.
  assert (Hp : exists o',
             @processConfigs referenceParsers referenceKeys connector session
               unsetOptions = Configured o')
    by (eexists; vm_compute; reflexivity).
  destruct Hp as [o' Hp]. exists o'. split; [exact Hp|].
  exact (@processConfigs_is_idempotent referenceParsers referenceKeys
           connector session unsetOptions o' Hp).
Defined.

Lemma configured_timestamp_unit_is_valid_witness :
  let session : ConfigBase := {[ "session.timestamp_unit" := "7" ]} in
  parquetWriteTimestampUnit unsetOptions = None
  /\ session !! "session.timestamp_unit" = Some "7"
  /\ @processConfigs referenceParsers referenceKeys ∅ session unsetOptions
     = ConfigThrows
         (VeloxException (VeloxRuntimeError "Invalid timestamp unit"))
         unsetOptions.
Proof.
  intros session.
  assert (Hraw : session !! "session.timestamp_unit" = Some "7")
    by (vm_compute; reflexivity).
  split; [reflexivity|]. split; [exact Hraw|].
  apply (proj2 (@configured_timestamp_unit_is_valid referenceParsers
                  referenceKeys ∅ session unsetOptions eq_refl) "7" 7 Hraw);
    [reflexivity | discriminate | discriminate | discriminate].
Defined.

Lemma createdBy_ignores_session_witness :
  let connector : ConfigBase := {[ "connector.created_by" := "velox" ]} in
  let session : ConfigBase := {[ "connector.created_by" := "session" ]} in
  exists o1 o2,
    @processConfigs referenceParsers referenceKeys connector ∅ unsetOptions
    = Configured o1
    /\ @processConfigs referenceParsers referenceKeys connector session
         unsetOptions = Configured o2
    /\ createdBy o1 = createdBy o2.
Proof.
  intros connector session.
  assert (H1 : exists o1,
             @processConfigs referenceParsers referenceKeys connector ∅
               unsetOptions = Configured o1)
    by (eexists; vm_compute; reflexivity).
  assert (H2 : exists o2,
             @processConfigs referenceParsers referenceKeys connector session
               unsetOptions = Configured o2)
    by (eexists; vm_compute; reflexivity).
  destruct H1 as [o1 H1]. destruct H2 as [o2 H2]. exists o1, o2.
  split; [exact H1|]. split; [exact H2|].
  exact (proj1 (@createdBy_ignores_session referenceParsers referenceKeys
                  connector ∅ session unsetOptions o1 o2 H1 H2)).
Defined.

(** ** The calls on the encoder *)

Section EncoderProtocol.
Context `{ArrowBridge} `{!ParquetEncoder} `{FlushPolicy} `{Destination}.

(** What the second half of [write] does to the encoder and to the
    stream: nothing unless it flushes. *)
Lemma stageBatch_calls (data : Vector) (rb : RecordBatch) (w : Writer)
    (c : ArrowContext) :
  wellStaged w c ->
  length (RecordBatch_columns rb) = length (RecordBatch_schema rb) ->
  length (RecordBatch_schema rb) = length (schema_ w) ->
  match stageBatch data rb w with
  | Returns _ w' =>
      exists c',
        arrowContext_ w' = Some c'
        /\ writeInt96AsTimestamp_ w' = writeInt96AsTimestamp_ w
        /\ properties c' = properties c
        /\ if flushDecision c
           then encoderCalls w' =
                  encoderCalls w ++
                  openCalls w c (canonicalSchema c rb) ++
                  [Call_WriteTable
                     (tableOf (canonicalSchema c rb) (preparedChunks c rb)
                              (stagingRows c))
                     (to_int64 rowsInRowGroup)]
                /\ writer c' <> None
           else encoderCalls w' = encoderCalls w
                /\ writer c' = writer c
                /\ stream_ w' = stream_ w
  | Throws _ _ | Faults _ _ => flushDecision c = true
  end.
Proof.
  intros Hws Hcols Hwidth.
  pose proof (preparedChunks_length w c rb Hws) as Hplen.
  pose proof (canonicalSchema_length w c rb Hws Hwidth) as Hslen.
  destruct Hws as [Hc Hinv].
  unfold stageBatch, bind at 1. rewrite (context_eq _ _ Hc).
  unfold bind at 1.
  set (c1 := setStagingChunks (preparedChunks c rb)
               (setSchema (Some (canonicalSchema c rb)) c)).
  set (w1 := setArrowContext (Some c1) w).
  assert (Hinit :
    (match schema c with
     | Some _ => ret tt
     | None =>
         bind (updateContext (setSchema (Some (RecordBatch_schema rb))))
           (fun _ => updateContext (fun c0 =>
              setStagingChunks
                (stagingChunks c0 ++
                 replicate (length (RecordBatch_schema rb)) []) c0))
     end) w = Returns tt w1).
  { subst w1 c1. unfold preparedChunks, canonicalSchema.
    destruct (schema c) eqn:Hs.
    - unfold ret. f_equal. destruct w, c; simpl in *. subst. reflexivity.
    - unfold bind. rewrite (updateContext_eq _ _ _ Hc).
      erewrite updateContext_eq by reflexivity. reflexivity. }
  rewrite Hinit.
  assert (Hc1 : arrowContext_ w1 = Some c1) by reflexivity.
  assert (Hs1 : schema c1 = Some (canonicalSchema c rb)) by reflexivity.
  assert (Hcolumns : length (preparedChunks c rb)
                     = length (RecordBatch_columns rb)) by congruence.
  unfold bind at 1. rewrite (context_eq _ _ Hc1).
  change (stagingRows c1) with (stagingRows c).
  change (stagingBytes c1) with (stagingBytes c).
  unfold flushDecision.
  assert (Hstage : forall (w2 : Writer) (c2 : ArrowContext),
    arrowContext_ w2 = Some c2 ->
    length (stagingChunks c2) = length (RecordBatch_columns rb) ->
    bind (stageColumns (RecordBatch_columns rb) 0)
      (fun _ => updateContext (fun c0 =>
         setStagingCounters
           (to_uint64 (stagingRows c0 + Vector_size data))
           (to_int64 (stagingBytes c0 + Vector_estimateFlatSize data)) c0))
      w2 =
    Returns tt
      (setArrowContext
         (Some (setStagingCounters
                  (to_uint64 (stagingRows c2 + Vector_size data))
                  (to_int64 (stagingBytes c2 + Vector_estimateFlatSize data))
                  (setStagingChunks
                     (appendColumns (stagingChunks c2)
                                    (RecordBatch_columns rb)) c2)))
         w2)).
  { intros w2 c2 Hc2 Hlen2. unfold bind.
    pose proof (stageColumns_spec (RecordBatch_columns rb) w2 c2 []
                  (stagingChunks c2) []) as Hst.
    rewrite app_nil_r in Hst. specialize (Hst Hc2 eq_refl Hlen2).
    simpl in Hst. rewrite Hst, app_nil_r.
    erewrite updateContext_eq by reflexivity. reflexivity. }
  unfold bind at 1.
  destruct (shouldFlush (getStripeProgress (stagingRows c) (stagingBytes c)))
    eqn:Hpolicy; simpl andb.
  - destruct (Z.ltb_spec 0 (stagingRows c)) as [Hrows|Hrows].
    + pose proof (Writer_flush_spec w1 c1 _ Hc1 Hs1) as Hflush.
      change (stagingChunks c1) with (preparedChunks c rb) in Hflush.
      change (stagingRows c1) with (stagingRows c) in Hflush.
      specialize (Hflush Hplen Hrows).
      destruct (Writer_flush w1) as [[] w2|e w2|f w2];
        [|reflexivity|reflexivity].
      destruct Hflush as (c2 & Hc2 & _ & Hint2 & Hcalls2 & _ & Hprops2
                          & Hwriter2 & Hchunks2 & _).
      change (stagingChunks c1) with (preparedChunks c rb)
        in Hchunks2, Hcalls2.
      change (stagingRows c1) with (stagingRows c) in Hcalls2.
      rewrite (Hstage w2 c2 Hc2)
        by (rewrite Hchunks2, length_replicate; exact Hcolumns).
      eexists. split; [reflexivity|]. simpl.
      split; [exact Hint2|]. split; [exact Hprops2|].
      split; [exact Hcalls2 | exact Hwriter2].
    + rewrite (Writer_flush_noop w1 c1 Hc1) by exact Hrows.
      rewrite (Hstage w1 c1 Hc1 Hcolumns).
      eexists. split; [reflexivity|]. simpl. auto.
  - unfold ret. rewrite (Hstage w1 c1 Hc1 Hcolumns).
    eexists. split; [reflexivity|]. simpl. auto.
Qed.

(** X18.  A [write] that does not flush (the policy says no, or no row
    is staged) does no input or output: whether it returns, throws or
    faults, the stream and the calls on the encoder are as before; and
    if the conversion of the batch returns, so does the [write]. *)
Theorem write_without_flush_does_no_io (data : Vector) (w : Writer)
    (c : ArrowContext) :
  wellStaged w c ->
  flushDecision c = false ->
  let w' := final_state (Writer_write data w) in
  stream_ w' = stream_ w
  /\ encoderCalls w' = encoderCalls w
  /\ (forall rb, convertBatch data w = Returns rb w ->
                 Writer_write data w = Returns tt w').
Proof.
  intros Hws Hno. cbv zeta. unfold Writer_write, bind.
  pose proof (convertBatch_cases data w) as Hconv.
  destruct (convertBatch data w) as [rb w1|e w1|f w1].
  - destruct Hconv as (-> & _ & _ & Hcols & Hwidth).
    pose proof (stageBatch_calls data rb w c Hws Hcols Hwidth) as Hcalls.
    rewrite Hno in Hcalls.
    destruct (stageBatch data rb w) as [[] w'|e w'|f w'];
      try discriminate.
    destruct Hcalls as (c' & _ & _ & _ & Hcalls' & _ & Hstream').
    simpl. auto.
  - destruct Hconv as [-> _]. simpl.
    split; [reflexivity|]. split; [reflexivity|]. discriminate.
  - destruct Hconv as [-> _]. simpl.
    split; [reflexivity|]. split; [reflexivity|]. discriminate.
Qed.

Lemma Sink_Close_Returns (s s' : ArrowDataBufferSink) :
  Sink_Close s = Returns tt s' ->
  exists sink',
    sink_ s' = Some sink' /\ FileSink_isClosed sink' = true
    /\ buffer_ s' = [].
Proof.
  unfold Sink_Close, Sink_Flush, bind, modify, get, put, throw, fault.
  simpl. destruct (sink_ s) as [sink|]; [|discriminate].
  destruct (write_succeeds sink (buffer_ s)); simpl; [|discriminate].
  match goal with
  | |- context [close_succeeds ?d] => destruct (close_succeeds d)
  end; [|discriminate].
  intros [= <-]. eexists. simpl. auto.
Qed.

(** What a [close] that returned has done, from the writer [w1] that its
    [flush] left. *)
Lemma Writer_close_Returns (w w' : Writer) :
  Writer_close w = Returns tt w' ->
  exists w1 c1,
    Writer_flush w = Returns tt w1
    /\ arrowContext_ w1 = Some c1
    /\ arrowContext_ w' = Some (setStagingChunks [] (setWriter None c1))
    /\ schema_ w' = schema_ w1
    /\ encoderCalls w' =
         encoderCalls w1 ++
         (match writer c1 with Some _ => [Call_Close] | None => [] end)
    /\ exists sink',
         sink_ (stream_ w') = Some sink'
         /\ FileSink_isClosed sink' = true
         /\ buffer_ (stream_ w') = [].
Proof.
  unfold Writer_close, bind at 1.
  destruct (Writer_flush w) as [[] w1|e w1|f w1]; try discriminate.
  unfold bind at 1, context.
  destruct (arrowContext_ w1) as [c1|] eqn:Hc1; try discriminate.
  intros Hclose. exists w1, c1. split; [reflexivity|].
  split; [exact Hc1|]. revert Hclose. unfold bind at 1.
  assert (Hcalls : forall w2,
    (match writer c1 with
     | Some fw =>
         bind (encoderCall Call_Close (fst (FileWriter_Close fw))
                 (if snd (FileWriter_Close fw) then Some tt else None))
              (fun _ => updateContext (setWriter None))
     | None => ret tt
     end) w1 = Returns tt w2 ->
    arrowContext_ w2 = Some (setWriter None c1)
    /\ schema_ w2 = schema_ w1
    /\ encoderCalls w2 =
         encoderCalls w1 ++
         (match writer c1 with Some _ => [Call_Close] | None => [] end)).
  { intros w2. destruct (writer c1) as [fw|] eqn:Hfw.
    - unfold bind. rewrite encoderCall_eq. cbv zeta.
      destruct (snd (FileWriter_Close fw)); [|discriminate].
      erewrite updateContext_eq by (simpl; exact Hc1).
      intros [= <-]. simpl. auto.
    - unfold ret. intros [= <-]. rewrite app_nil_r.
      split; [|auto]. rewrite Hc1. f_equal.
      destruct c1; simpl in *. subst. reflexivity. }
  match goal with
  | |- context [match ?m w1 with _ => _ end] =>
      destruct (m w1) as [[] w2|e w2|f w2] eqn:Hw2; try discriminate
  end.
  destruct (Hcalls w2 eq_refl) as (Hc2 & Hschema2 & Hcalls2).
  unfold bind at 1, onStream.
  destruct (Sink_Close (stream_ w2)) as [[] st|e st|f st] eqn:Hst;
    try discriminate.
  erewrite updateContext_eq by (simpl; exact Hc2).
  intros [= <-]. simpl.
  split; [reflexivity|]. split; [exact Hschema2|]. split; [exact Hcalls2|].
  exact (Sink_Close_Returns _ _ Hst).
Qed.

Lemma tablesOf_WriteTables (tables : list Table) (n : Z) :
  tablesOf (map (fun t => Call_WriteTable t n) tables) = tables.
Proof.
  induction tables as [|t tables IH]; [reflexivity|].
  change (t :: tablesOf (map (fun t => Call_WriteTable t n) tables)
          = t :: tables).
  rewrite IH. reflexivity.
Qed.

Lemma openedOnce_initial (sink : FileSink) (props : WriterProperties)
    (fields : RowType) (int96 : bool) :
  openedOnce props int96 (initialWriter sink props fields int96).
Proof.
  eexists. split; [split; [reflexivity|]; reflexivity|].
  split; [reflexivity|]. split; [reflexivity|]. left. auto.
Qed.

Lemma openedOnce_flush (props : WriterProperties) (int96 : bool)
    (w w1 : Writer) :
  openedOnce props int96 w ->
  Writer_flush w = Returns tt w1 ->
  openedOnce props int96 w1.
Proof.
  intros (c & Hws & Hprops & Hint & Hcases) Hflush.
  destruct (Z.ltb_spec 0 (stagingRows c)) as [Hrows|Hrows].
  2: { rewrite (Writer_flush_noop w c (proj1 Hws) Hrows) in Hflush.
       injection Hflush as <-. exists c. auto. }
  destruct Hws as [Hc Hshape].
  destruct (schema c) as [s|] eqn:Hs.
  2: { destruct (Writer_flush_without_schema w c Hc Hs Hrows)
         as (f & w2 & Hfault).
       rewrite Hfault in Hflush. discriminate. }
  destruct Hshape as [Hlen Hwidth].
  pose proof (Writer_flush_spec w c s Hc Hs Hlen Hrows) as Hspec.
  rewrite Hflush in Hspec.
  destruct Hspec as (c1 & Hc1 & Hschema1 & Hint1 & Hcalls1 & Hs1 & Hprops1
                     & Hwriter1 & Hchunks1 & _).
  exists c1. split; [|split; [congruence|split; [congruence|]]].
  - split; [exact Hc1|]. rewrite Hs1, Hchunks1, length_replicate, Hschema1.
    auto.
  - right. split; [exact Hwriter1|].
    destruct Hcases as [[Hnone Hempty]|(Hsome & s0 & tables & Hs0 & Hne & Hc0)].
    + exists s, [tableOf s (stagingChunks c) (stagingRows c)].
      split; [exact Hs1|]. split; [discriminate|].
      rewrite Hcalls1, Hempty. unfold openCalls. rewrite Hnone.
      rewrite Hprops, Hint. reflexivity.
    + exists s0, (tables ++ [tableOf s (stagingChunks c) (stagingRows c)]).
      split; [congruence|]. split; [destruct tables; discriminate|].
      rewrite Hcalls1, Hc0. unfold openCalls.
      destruct (writer c); [|contradiction].
      rewrite map_app. reflexivity.
Qed.

Lemma openedOnce_write (props : WriterProperties) (int96 : bool)
    (data : Vector) (w w' : Writer) :
  openedOnce props int96 w ->
  Writer_write data w = Returns tt w' ->
  openedOnce props int96 w'.
Proof.
  intros (c & Hws & Hprops & Hint & Hcases) Hwrite.
  destruct (Writer_write_Returns data w w' c Hws Hwrite)
    as (c' & rb & Hc' & Hconv & Hrbcols & Hwidth & Hschema' & Hs' & _
        & Hchunks' & _).
  pose proof (convertBatch_cases data w) as Hcases'.
  rewrite Hconv in Hcases'. destruct Hcases' as (_ & _ & _ & Hcols & Hwide).
  pose proof (stageBatch_calls data rb w c Hws Hcols Hwide) as Hcalls.
  unfold Writer_write, bind in Hwrite. rewrite Hconv in Hwrite.
  rewrite Hwrite in Hcalls.
  destruct Hcalls as (c2 & Hc2 & Hint' & Hprops' & Hflushed).
  rewrite Hc' in Hc2. injection Hc2 as <-.
  pose proof (preparedChunks_length w c rb Hws) as Hplen.
  exists c'. split; [|split; [congruence|split; [congruence|]]].
  - split; [exact Hc'|]. rewrite Hs', Hchunks', Hschema'.
    split; [|exact Hwidth].
    rewrite appendColumns_length;
      destruct (flushDecision c); rewrite ?length_replicate; congruence.
  - destruct (flushDecision c).
    + destruct Hflushed as [Hcalls' Hwriter']. right.
      split; [exact Hwriter'|].
      destruct Hcases
        as [[Hnone Hempty]|(Hsome & s0 & tables & Hs0 & Hne & Hc0)].
      * eexists _, [_]. split; [exact Hs'|]. split; [discriminate|].
        rewrite Hcalls', Hempty. unfold openCalls. rewrite Hnone.
        rewrite Hprops, Hint. reflexivity.
      * exists s0, (tables ++ [tableOf (canonicalSchema c rb)
                                       (preparedChunks c rb)
                                       (stagingRows c)]).
        split; [rewrite Hs'; unfold canonicalSchema; rewrite Hs0;
                reflexivity|].
        split; [destruct tables; discriminate|].
        rewrite Hcalls', Hc0. unfold openCalls.
        destruct (writer c); [|contradiction].
        rewrite map_app. reflexivity.
    + destruct Hflushed as (Hcalls' & Hwriter' & _).
      destruct Hcases
        as [[Hnone Hempty]|(Hsome & s0 & tables & Hs0 & Hne & Hc0)].
      * left. split; congruence.
      * right. split; [congruence|]. exists s0, tables.
        split; [rewrite Hs'; unfold canonicalSchema; rewrite Hs0;
                reflexivity|].
        split; [exact Hne | congruence].
Qed.

Lemma openedOnce_afterWrites (props : WriterProperties) (int96 : bool)
    (batches : list Vector) :
  forall w w',
    openedOnce props int96 w -> afterWrites batches w = Some w' ->
    openedOnce props int96 w'.
Proof.
  induction batches as [|data batches IH]; intros w w' Hw; simpl.
  - intros [= <-]. exact Hw.
  - destruct (Writer_write data w) as [[] w1|e w1|f w1] eqn:Hwrite;
      try discriminate.
    apply IH. exact (openedOnce_write _ _ _ _ _ Hw Hwrite).
Qed.

(** X19.  The calls on the encoder follow its protocol.  After
    construction and any writes that returned, either the encoder has
    not been opened and has received no call, or it was opened exactly
    once, on the canonical schema with the properties built at
    construction, and has since been handed tables only.  A [close] that
    returns adds the one [Close] call, last, when the encoder was opened,
    and no call when it was not. *)
Theorem encoder_is_opened_once_and_closed_last (sink : FileSink)
    (options : WriterOptions) (schema0 : RowTypePtr) (w0 : Writer)
    (batches : list Vector) (w : Writer) :
  Writer_new sink options schema0 = inr w0 ->
  afterWrites batches w0 = Some w ->
  exists props,
    getArrowParquetWriterOptions options = inr props
    /\ openedOnce props (writeInt96AsTimestamp options) w
    /\ forall w',
         Writer_close w = Returns tt w' ->
         encoderCalls w' = []
         \/ exists s tables,
              tables <> []
              /\ encoderCalls w' =
                   Call_Open s props (writeInt96AsTimestamp options)
                   :: map (fun t => Call_WriteTable t
                                      (to_int64 rowsInRowGroup)) tables
                   ++ [Call_Close].
Proof.
  intros Hnew Hwrites. unfold Writer_new in Hnew.
  destruct (validateSchemaRecursive schema0); [discriminate|].
  destruct (getArrowParquetWriterOptions options) as [|props];
    [discriminate|].
  injection Hnew as <-. exists props. split; [reflexivity|].
  pose proof (openedOnce_afterWrites _ _ _ _ _
                (openedOnce_initial sink props (default [] schema0)
                   (writeInt96AsTimestamp options)) Hwrites) as Hw.
  split; [exact Hw|]. intros w' Hclose.
  destruct (Writer_close_Returns _ _ Hclose)
    as (w1 & c1 & Hflush & Hc1 & _ & _ & Hcalls' & _).
  destruct (openedOnce_flush _ _ _ _ Hw Hflush)
    as (c & [Hc _] & _ & _ & Hcases).
  rewrite Hc1 in Hc. injection Hc as <-.
  destruct Hcases as [[Hnone Hempty]|(Hsome & s & tables & _ & Hne & Hc0)].
  - left. rewrite Hcalls', Hempty, Hnone. reflexivity.
  - right. exists s, tables. split; [exact Hne|].
    rewrite Hcalls', Hc0. destruct (writer c1); [|contradiction].
    reflexivity.
Qed.

(** X20.  [flush] is idempotent: a [flush] right after a [flush] that
    returned finds no row staged and leaves the writer, its stream and
    the calls on the encoder as they are. *)
Theorem flush_twice_is_flush_once (w w1 : Writer) (c : ArrowContext) :
  wellStaged w c ->
  Writer_flush w = Returns tt w1 ->
  Writer_flush w1 = Returns tt w1.
Proof.
  intros [Hc Hshape] Hflush.
  destruct (Z.ltb_spec 0 (stagingRows c)) as [Hrows|Hrows].
  2: { rewrite (Writer_flush_noop w c Hc Hrows) in Hflush.
       injection Hflush as <-. exact (Writer_flush_noop w c Hc Hrows). }
  destruct (schema c) as [s|] eqn:Hs.
  2: { destruct (Writer_flush_without_schema w c Hc Hs Hrows)
         as (f & w2 & Hfault).
       rewrite Hfault in Hflush. discriminate. }
  destruct Hshape as [Hlen _].
  pose proof (Writer_flush_spec w c s Hc Hs Hlen Hrows) as Hspec.
  rewrite Hflush in Hspec.
  destruct Hspec as (c1 & Hc1 & _ & _ & _ & _ & _ & _ & _ & Hrows1 & _).
  apply (Writer_flush_noop w1 c1 Hc1). lia.
Qed.

(** X21.  A writer that has written batches cannot be written to after
    [close]: [close] removes the staging sequences and keeps the
    canonical schema, so on a schema with at least one column a further
    [write] never returns; once the conversion of its batch has
    returned it throws [std::out_of_range], and in every case the writer
    is left as [close] left it. *)
Theorem write_after_close_is_rejected (sink : FileSink)
    (options : WriterOptions) (schema0 : RowTypePtr) (w0 : Writer)
    (first : Vector) (rest : list Vector) (w w' : Writer) (data : Vector) :
  Writer_new sink options schema0 = inr w0 ->
  afterWrites (first :: rest) w0 = Some w ->
  Writer_close w = Returns tt w' ->
  schema_ w0 <> [] ->
  stopsAt w' (Writer_write data w')
  /\ (forall rb, convertBatch data w' = Returns rb w' ->
                 Writer_write data w' = Throws StdOutOfRange w').
Proof.
  intros Hnew Hwrites Hclose Hcolumns.
  destruct (Writer_new_initial _ _ _ _ Hnew)
    as (fields & props & -> & Hvalid & ->).
  destruct (afterWrites_layout _ _ _ _ _ _ Hwrites)
    as [[Hnil _]|(s & rbs & groups & current & _ & _ & Hlayout)];
    [discriminate|].
  destruct (wholeBatchLayout_wellStaged _ _ _ _ _ Hlayout)
    as (c & [Hc Hshape] & Hs & _ & Hrows).
  assert (Hfields : schema_ w = fields)
    by (destruct Hlayout as (c0 & _ & Hf & _); exact Hf).
  rewrite Hs in Hshape. destruct Hshape as [Hlen Hwidth].
  destruct (Writer_close_Returns _ _ Hclose)
    as (w1 & c1 & Hflush & Hc1 & Hc' & Hschema' & _).
  (* the context after the flush of [close] *)
  assert (Hflushed : schema c1 = Some s /\ stagingRows c1 = 0
                     /\ schema_ w1 = fields).
  { destruct (Z.ltb_spec 0 (stagingRows c)) as [Hpos|Hzero].
    - pose proof (Writer_flush_spec w c s Hc Hs Hlen Hpos) as Hspec.
      rewrite Hflush in Hspec.
      destruct Hspec as (c2 & Hc2 & Hschema2 & _ & _ & Hs2 & _ & _ & _
                         & Hrows2 & _).
      rewrite Hc1 in Hc2. injection Hc2 as <-.
      split; [exact Hs2|]. split; [exact Hrows2 | congruence].
    - rewrite (Writer_flush_noop w c Hc Hzero) in Hflush.
      injection Hflush as <-. rewrite Hc in Hc1. injection Hc1 as <-.
      split; [exact Hs|]. split; [|exact Hfields].
      pose proof (rowsAfter_nonneg (map sizeOf current) 0 ltac:(lia)).
      lia. }
  destruct Hflushed as (Hs1 & Hrows1 & Hfields1).
  set (c' := setStagingChunks [] (setWriter None c1)) in *.
  assert (Hreject : forall rb,
             convertBatch data w' = Returns rb w' ->
             Writer_write data w' = Throws StdOutOfRange w').
  { intros rb Hconv. unfold Writer_write, bind. rewrite Hconv.
    pose proof (convertBatch_cases data w') as Hcases.
    rewrite Hconv in Hcases. destruct Hcases as (_ & _ & _ & Hcols & Hwide).
    unfold stageBatch, bind at 1. rewrite (context_eq _ _ Hc').
    unfold bind at 1.
    change (schema c') with (schema c1). rewrite Hs1. unfold ret at 1.
    unfold bind at 1. rewrite (context_eq _ _ Hc').
    change (stagingRows c') with (stagingRows c1).
    assert (Hpolicy :
      (if shouldFlush (getStripeProgress (stagingRows c1) (stagingBytes c'))
       then Writer_flush else ret tt) w' = Returns tt w').
    { destruct (shouldFlush _); [|reflexivity].
      apply (Writer_flush_noop w' c' Hc').
      change (stagingRows c') with (stagingRows c1). lia. }
    unfold bind at 1. rewrite Hpolicy. unfold bind at 1.
    destruct (RecordBatch_columns rb) as [|column columns] eqn:Hrb.
    - exfalso. apply Hcolumns. rewrite <- Hfields1, <- Hschema'.
      simpl in Hcols. rewrite <- Hcols in Hwide.
      destruct (schema_ w'); [reflexivity | discriminate].
    - simpl. unfold bind at 1. rewrite (context_eq _ _ Hc'). reflexivity. }
  split; [|exact Hreject].
  pose proof (convertBatch_cases data w') as Hcases.
  destruct (convertBatch data w') as [rb w2|e w2|f w2] eqn:Hconv.
  - destruct Hcases as [-> _]. rewrite (Hreject rb eq_refl). reflexivity.
  - destruct Hcases as [-> _]. unfold Writer_write, bind. rewrite Hconv.
    reflexivity.
  - destruct Hcases as [-> _]. unfold Writer_write, bind. rewrite Hconv.
    reflexivity.
Qed.
End EncoderProtocol.

Section NewRowGroup.
Context `{ArrowBridge} `{!ParquetEncoder} `{!RowGroupEncoder}
        `{FlushPolicy} `{Destination}.

(** X22.  [newRowGroup] reaches the encoder only once a row group has
    been flushed.  After construction and any writes that returned: if
    no table has been handed to the encoder yet, the encoder is not
    open and [newRowGroup] dereferences its null pointer, leaving the
    writer as it is; if a table has been handed over, [newRowGroup]
    returns or throws the encoder's status, and does not fault. *)
Theorem newRowGroup_needs_an_open_encoder (sink : FileSink)
    (options : WriterOptions) (schema0 : RowTypePtr) (w0 : Writer)
    (batches : list Vector) (w : Writer) (numRows : Z) :
  Writer_new sink options schema0 = inr w0 ->
  afterWrites batches w0 = Some w ->
  (tablesOf (encoderCalls w) = [] ->
   Writer_newRowGroup numRows w = Faults NullPointerDereference w)
  /\ (tablesOf (encoderCalls w) <> [] ->
      match Writer_newRowGroup numRows w with
      | Faults _ _ => False
      | _ => True
      end).
Proof.
  intros Hnew Hwrites. unfold Writer_new in Hnew.
  destruct (validateSchemaRecursive schema0); [discriminate|].
  destruct (getArrowParquetWriterOptions options) as [|props];
    [discriminate|].
  injection Hnew as <-.
  destruct (openedOnce_afterWrites _ _ _ _ _
              (openedOnce_initial sink props (default [] schema0)
                 (writeInt96AsTimestamp options)) Hwrites)
    as (c & [Hc _] & _ & _ & Hcases).
  destruct Hcases as [[Hnone Hempty]|(Hsome & s & tables & _ & Hne & Hcalls)].
  - split; [|rewrite Hempty; contradiction]. intros _.
    unfold Writer_newRowGroup, bind. rewrite (context_eq _ _ Hc), Hnone.
    reflexivity.
  - rewrite Hcalls.
    change (tablesOf (Call_Open s props (writeInt96AsTimestamp options)
                      :: ?l)) with (tablesOf l).
    rewrite tablesOf_WriteTables. split; [contradiction|]. intros _.
    unfold Writer_newRowGroup, bind. rewrite (context_eq _ _ Hc).
    destruct (writer c) as [fw|]; [|contradiction].
    unfold onStream, Sink_Write, modify.
    destruct (snd (FileWriter_NewRowGroup fw numRows)); [|exact I].
    erewrite updateContext_eq by (simpl; exact Hc). exact I.
Qed.
End NewRowGroup.

Lemma newRowGroup_needs_an_open_encoder_witness :
  @Writer_new referenceBridge referenceEncoder referencePolicy emptySink
    plainOptions (Some oneColumn) = inr referenceWriter
  /\ tablesOf (encoderCalls referenceWriter) = []
  /\ @Writer_newRowGroup referenceBridge referenceEncoder referenceRowGroups
       100 referenceWriter
     = Faults NullPointerDereference referenceWriter.
Proof.
  assert (Hnew : @Writer_new referenceBridge referenceEncoder referencePolicy
                   emptySink plainOptions (Some oneColumn)
                 = inr referenceWriter) by (vm_compute; reflexivity).
  split; [exact Hnew|]. split; [reflexivity|].
  exact (proj1 (@newRowGroup_needs_an_open_encoder referenceBridge
                  referenceEncoder referenceRowGroups referencePolicy
                  referenceDestination emptySink plainOptions
                  (Some oneColumn) referenceWriter [] referenceWriter 100
                  Hnew eq_refl) eq_refl).
Defined.

Lemma write_without_flush_does_no_io_witness :
  let batch := rowBatch oneColumn 400 [[1; 2; 3]] in
  wellStaged (stagedWriterOf 1) (stagedContextOf 1)
  /\ @flushDecision referenceBridge referenceEncoder referencePolicy
       (stagedContextOf 1) = false
  /\ @Writer_write referenceBridge referenceEncoder referencePolicy
       referenceDestination batch (stagedWriterOf 1)
     = Returns tt (stagedWriterOf 2)
  /\ stream_ (stagedWriterOf 2) = stream_ (stagedWriterOf 1)
  /\ encoderCalls (stagedWriterOf 2) = encoderCalls (stagedWriterOf 1).
Proof.
  intros batch.
  assert (Hws : wellStaged (stagedWriterOf 1) (stagedContextOf 1))
    by (split; [reflexivity | split; reflexivity]).
  assert (Hno : @flushDecision referenceBridge referenceEncoder
                  referencePolicy (stagedContextOf 1) = false)
    by (vm_compute; reflexivity).
  assert (Hwrite : @Writer_write referenceBridge referenceEncoder
                     referencePolicy referenceDestination batch
                     (stagedWriterOf 1) = Returns tt (stagedWriterOf 2))
    by (vm_compute; reflexivity).
  destruct (@write_without_flush_does_no_io referenceBridge referenceEncoder
              referencePolicy referenceDestination batch (stagedWriterOf 1)
              (stagedContextOf 1) Hws Hno) as (Hstream & Hcalls & _).
  rewrite Hwrite in Hstream, Hcalls.
  split; [exact Hws|]. split; [exact Hno|]. split; [exact Hwrite|].
  split; [exact Hstream | exact Hcalls].
Defined.

Lemma encoder_is_opened_once_and_closed_last_witness :
  let batch := rowBatch oneColumn 400 [[1; 2; 3]] in
  exists w' s tables,
    @Writer_close referenceBridge referenceEncoder referencePolicy
      referenceDestination (stagedWriterOf 3) = Returns tt w'
    /\ encoderCalls w' =
         Call_Open s referenceProperties false
         :: map (fun t => Call_WriteTable t 1000) tables ++ [Call_Close].
Proof.
  intros batch.
  assert (Hnew : @Writer_new referenceBridge referenceEncoder referencePolicy
                   emptySink plainOptions (Some oneColumn)
                 = inr referenceWriter) by (vm_compute; reflexivity).
  assert (Hwrites : @afterWrites referenceBridge referenceEncoder
                      referencePolicy referenceDestination
                      [batch; batch; batch] referenceWriter
                    = Some (stagedWriterOf 3)) by (vm_compute; reflexivity).
  assert (Hclose : exists w',
             @Writer_close referenceBridge referenceEncoder referencePolicy
               referenceDestination (stagedWriterOf 3) = Returns tt w')
    by (eexists; vm_compute; reflexivity).
  destruct Hclose as [w' Hclose].
  destruct (@encoder_is_opened_once_and_closed_last referenceBridge
              referenceEncoder referencePolicy referenceDestination
              emptySink plainOptions (Some oneColumn) referenceWriter
              [batch; batch; batch] (stagedWriterOf 3) Hnew Hwrites)
    as (props & Hprops & _ & Hclosed).
  injection Hprops as <-.
  destruct (Hclosed w' Hclose) as [Hempty|(s & tables & _ & Hcalls)].
  - exfalso. revert Hempty. clear -Hclose.
    vm_compute in Hclose. injection Hclose as <-. discriminate.
  - exists w', s, tables. split; [exact Hclose | exact Hcalls].
Defined.

Lemma flush_twice_is_flush_once_witness :
  exists w1,
    wellStaged stagedWriter stagedContext
    /\ @Writer_flush referenceBridge referenceEncoder referencePolicy
         referenceDestination stagedWriter = Returns tt w1
    /\ @Writer_flush referenceBridge referenceEncoder referencePolicy
         referenceDestination w1 = Returns tt w1.
Proof.
  assert (Hws : wellStaged stagedWriter stagedContext)
    by (split; [reflexivity | split; reflexivity]).
  assert (Hflush : exists w1,
             @Writer_flush referenceBridge referenceEncoder referencePolicy
               referenceDestination stagedWriter = Returns tt w1)
    by (eexists; vm_compute; reflexivity).
  destruct Hflush as [w1 Hflush]. exists w1.
  split; [exact Hws|]. split; [exact Hflush|].
  exact (@flush_twice_is_flush_once referenceBridge referenceEncoder
           referencePolicy referenceDestination stagedWriter w1
           stagedContext Hws Hflush).
Defined.

Lemma write_after_close_is_rejected_witness :
  let batch := rowBatch oneColumn 400 [[1; 2; 3]] in
  exists w',
    @afterWrites referenceBridge referenceEncoder referencePolicy
      referenceDestination [batch; batch; batch] referenceWriter
    = Some (stagedWriterOf 3)
    /\ @Writer_close referenceBridge referenceEncoder referencePolicy
         referenceDestination (stagedWriterOf 3) = Returns tt w'
    /\ schema_ referenceWriter <> []
    /\ @Writer_write referenceBridge referenceEncoder referencePolicy
         referenceDestination batch w' = Throws StdOutOfRange w'.
Proof.
  intros batch.
  assert (Hnew : @Writer_new referenceBridge referenceEncoder referencePolicy
                   emptySink plainOptions (Some oneColumn)
                 = inr referenceWriter) by (vm_compute; reflexivity).
  assert (Hwrites : @afterWrites referenceBridge referenceEncoder
                      referencePolicy referenceDestination
                      [batch; batch; batch] referenceWriter
                    = Some (stagedWriterOf 3)) by (vm_compute; reflexivity).
  assert (Hclose : exists w',
             @Writer_close referenceBridge referenceEncoder referencePolicy
               referenceDestination (stagedWriterOf 3) = Returns tt w')
    by (eexists; vm_compute; reflexivity).
  destruct Hclose as [w' Hclose].
  assert (Hcolumns : schema_ referenceWriter <> []) by discriminate.
  exists w'. split; [exact Hwrites|]. split; [exact Hclose|].
  split; [exact Hcolumns|].
  destruct (@write_after_close_is_rejected referenceBridge referenceEncoder
              referencePolicy referenceDestination emptySink plainOptions
              (Some oneColumn) referenceWriter batch [batch; batch]
              (stagedWriterOf 3) w' batch Hnew Hwrites Hclose Hcolumns)
    as [_ Hreject].
  assert (Hconv : exists rb,
             @convertBatch referenceBridge referenceEncoder batch w'
             = Returns rb w').
  { clear -Hclose. vm_compute in Hclose. injection Hclose as <-.
    eexists. vm_compute. reflexivity. }
  destruct Hconv as [rb Hconv]. exact (Hreject rb Hconv).
Defined.

Section RowGroupLength.
Context `{ArrowBridge} `{!ParquetEncoder} `{FlushPolicy} `{Destination}.

(** X23.  The writer gives the encoder one row-group length throughout:
    the maximal row-group length of the properties that the encoder is
    opened with and the chunk size passed with every table are both the
    policy's number of rows per row group, converted to [int64_t].  No
    write closes the encoder. *)
Theorem one_row_group_length_for_all_calls (sink : FileSink)
    (options : WriterOptions) (schema0 : RowTypePtr) (w0 : Writer)
    (batches : list Vector) (w : Writer) :
  Writer_new sink options schema0 = inr w0 ->
  afterWrites batches w0 = Some w ->
  Forall (fun call =>
            match call with
            | Call_Open _ p _ =>
                max_row_group_length p = to_int64 rowsInRowGroup
            | Call_WriteTable _ chunk_size =>
                chunk_size = to_int64 rowsInRowGroup
            | Call_Close => False
            end) (encoderCalls w).
Proof.
  intros Hnew Hwrites. unfold Writer_new in Hnew.
  destruct (validateSchemaRecursive schema0); [discriminate|].
  destruct (getArrowParquetWriterOptions options) as [|props] eqn:Hprops;
    [discriminate|].
  injection Hnew as <-.
  destruct (openedOnce_afterWrites _ _ _ _ _
              (openedOnce_initial sink props (default [] schema0)
                 (writeInt96AsTimestamp options)) Hwrites)
    as (c & _ & _ & _ & [[_ ->]|(_ & s & tables & _ & _ & ->)]);
    [constructor|].
  constructor.
  - unfold getArrowParquetWriterOptions in Hprops.
    destruct (getArrowParquetCompression _); [discriminate|].
    destruct (columnCompressions _); [discriminate|].
    injection Hprops as <-. reflexivity.
  - apply Forall_map, Forall_forall. intros t _. reflexivity.
Qed.
End RowGroupLength.

Lemma one_row_group_length_for_all_calls_witness :
  let batch := rowBatch oneColumn 600 [[1; 2; 3]] in
  exists w,
    @afterWrites referenceBridge referenceEncoder referencePolicy
      referenceDestination [batch; batch; batch] referenceWriter = Some w
    /\ Forall (fun call =>
                 match call with
                 | Call_Open _ p _ => max_row_group_length p = 1000
                 | Call_WriteTable _ chunk_size => chunk_size = 1000
                 | Call_Close => False
                 end) (encoderCalls w)
    /\ length (encoderCalls w) = 2%nat.
Proof.
  intros batch.
  assert (Hnew : @Writer_new referenceBridge referenceEncoder referencePolicy
                   emptySink plainOptions (Some oneColumn)
                 = inr referenceWriter) by (vm_compute; reflexivity).
  assert (Hwrites : exists w,
             @afterWrites referenceBridge referenceEncoder referencePolicy
               referenceDestination [batch; batch; batch] referenceWriter
             = Some w) by (eexists; vm_compute; reflexivity).
  destruct Hwrites as [w Hwrites]. exists w. split; [exact Hwrites|]. split.
  - exact (@one_row_group_length_for_all_calls referenceBridge
             referenceEncoder referencePolicy referenceDestination emptySink
             plainOptions (Some oneColumn) referenceWriter
             [batch; batch; batch] w Hnew Hwrites).
  - vm_compute in Hwrites. injection Hwrites as <-. reflexivity.
Defined.

(** ** An aborted stream *)

Section AbortedStream.
Context `{Destination}.

Lemma sinkRun_aborted (ops : list SinkOp) :
  forall s, sink_ s = None -> sink_ (sinkRun ops s) = None.
Proof.
  induction ops as [|op ops IH]; intros s Hs; [exact Hs|].
  rewrite sinkRun_cons. apply IH. destruct op as [data|].
  - exact Hs.
  - unfold sinkStep, Sink_Flush, bind, modify, get, fault. simpl.
    rewrite Hs. reflexivity.
Qed.

(** X24.  [abort] is final for the stream: it drops the buffered bytes
    without handing them to the destination, and whatever is written
    afterwards, every later [Flush], [Close] and [closed] dereferences
    the null destination pointer, so nothing reaches the destination
    again.  [Tell] keeps counting: right after [abort] it reports the
    bytes flushed before it. *)
Theorem aborted_stream_never_reaches_destination (s : ArrowDataBufferSink)
    (ops : list SinkOp) :
  let aborted := final_state (Sink_abort s) in
  let later := sinkRun ops aborted in
  buffer_ aborted = []
  /\ Sink_Tell aborted = Returns (to_int64 (bytesFlushed_ s)) aborted
  /\ sink_ later = None
  /\ (exists s', Sink_Flush later = Faults NullPointerDereference s')
  /\ (exists s', Sink_Close later = Faults NullPointerDereference s')
  /\ Sink_closed later = Faults NullPointerDereference later.
Proof.
  intros aborted later.
  assert (Hnone : sink_ later = None) by (apply sinkRun_aborted; reflexivity).
  split; [reflexivity|]. split.
  { unfold Sink_Tell, bind, get, ret. simpl. rewrite Z.add_0_r.
    reflexivity. }
  split; [exact Hnone|].
  assert (Hflush : exists s',
             Sink_Flush later = Faults NullPointerDereference s').
  { unfold Sink_Flush, bind, modify, get, fault. simpl. rewrite Hnone.
    eexists. reflexivity. }
  split; [exact Hflush|]. split.
  - destruct Hflush as [s' Hs']. exists s'.
    unfold Sink_Close, bind. rewrite Hs'. reflexivity.
  - unfold Sink_closed, bind, get, fault. rewrite Hnone. reflexivity.
Qed.
End AbortedStream.

(** ** From the configuration to the encoder's settings *)

Section BuilderFacts.
Context `{PropertiesBuilder} `{ConfigParsers} `{ConfigKeys}.

(** X25.  A dictionary switched off in the session configuration
    switches off the dictionary page size limit too: for options with
    no explicit dictionary switch that [processConfigs] has resolved
    from a session that says false, the encoder gets the dictionary
    disabled and the limit is left as the builder has it, whatever limit
    the options or the configurations carry. *)
Theorem disabled_dictionary_ignores_limit
    (connectorConfig session : ConfigBase) (o o' : ConfiguredOptions)
    (builder : BuilderSettings) (encoding : Encoding)
    (codecOptions : CodecOptions) (raw : string) :
  processConfigs connectorConfig session o = Configured o' ->
  enableDictionary o = None ->
  session !! kParquetSessionEnableDictionary = Some raw ->
  folly_to_bool raw = Some false ->
  dictionary_enabled (builderSettings builder o' encoding codecOptions)
  = false
  /\ dictionary_pagesize_limit
       (builderSettings builder o' encoding codecOptions)
     = dictionary_pagesize_limit builder.
Proof.
  intros Hp Hunset Hraw Hfalse.
  apply processConfigs_Configured in Hp as (_ & _ & _ & Hed & _).
  unfold resolvesTo in Hed. rewrite Hunset in Hed.
  unfold sessionThenConnector, isParquetEnableDictionary at 1 2,
    ConfigBase_get in Hed.
  rewrite Hraw, Hfalse in Hed. injection Hed as Hed.
  unfold builderSettings. cbn. rewrite <- Hed. split; reflexivity.
Qed.

(** X26.  Data pages of version 2 are written exactly when the
    configuration in effect says so: for options without an explicit
    version that [processConfigs] has resolved, the version handed to
    the encoder is 2 if and only if the session configuration holds V2,
    or it has no version and the connector configuration holds V2; in
    all other cases it is 1. *)
Theorem data_page_version_follows_configuration
    (connectorConfig session : ConfigBase) (o o' : ConfiguredOptions)
    (builder : BuilderSettings) (encoding : Encoding)
    (codecOptions : CodecOptions) :
  processConfigs connectorConfig session o = Configured o' ->
  useParquetDataPageV2 o = None ->
  data_page_version (builderSettings builder o' encoding codecOptions) = V2
  <-> session !! kParquetSessionDataPageVersion = Some "V2"
      \/ (session !! kParquetSessionDataPageVersion = None
          /\ connectorConfig !! kParquetHiveConnectorDataPageVersion
             = Some "V2").
Proof.
  intros Hp Hunset.
  apply processConfigs_Configured in Hp as (_ & _ & _ & _ & _ & Hv2 & _).
  unfold resolvesTo in Hv2. rewrite Hunset in Hv2.
  assert (Hreader : forall config key b,
             getParquetDataPageVersion config key = inr b ->
             (b = Some true <-> config !! key = Some "V2")
             /\ (b = None <-> config !! key = None)).
  { intros config key b.
    unfold getParquetDataPageVersion, ConfigBase_get.
    destruct (config !! key) as [version|]; simpl.
    - destruct (String.eqb_spec version "V1") as [->|Hnot1].
      + intros [= <-]. split; split; discriminate.
      + destruct (String.eqb_spec version "V2") as [->|Hnot2];
          [|discriminate].
        intros [= <-]. split; split; try discriminate; reflexivity.
    - intros [= <-]. split; split; try discriminate; reflexivity. }
  unfold builderSettings. cbn.
  unfold sessionThenConnector in Hv2.
  destruct (getParquetDataPageVersion session _) as [e|[b|]] eqn:Hs;
    try discriminate.
  - destruct (Hreader _ _ _ Hs) as [Hsome Hnone].
    injection Hv2 as <-. destruct b; simpl.
    + split; [intros _; left; apply Hsome; reflexivity | reflexivity].
    + split; [discriminate|]. intros [Hyes|[Hno _]].
      * apply Hsome in Hyes. discriminate.
      * apply Hnone in Hno. discriminate.
  - destruct (Hreader _ _ _ Hs) as [Hsome Hnone].
    destruct (Hreader _ _ _ Hv2) as [Hcsome Hcnone].
    assert (Hsession : session !! kParquetSessionDataPageVersion = None)
      by (apply Hnone; reflexivity).
    destruct (useParquetDataPageV2 o') as [[|]|]; simpl.
    + split; [|reflexivity]. intros _. right.
      split; [exact Hsession | apply Hcsome; reflexivity].
    + split; [discriminate|]. intros [Hyes|[_ Hyes]].
      * rewrite Hsession in Hyes. discriminate.
      * apply Hcsome in Hyes. discriminate.
    + split; [discriminate|]. intros [Hyes|[_ Hyes]].
      * rewrite Hsession in Hyes. discriminate.
      * apply Hcsome in Hyes. discriminate.
Qed.
End BuilderFacts.

Lemma disabled_dictionary_ignores_limit_witness :
  let session : ConfigBase :=
    {[ "session.enable_dictionary" := "false" ]}
    ∪ {[ "session.dictionary_page_size" := "1KB" ]} in
  exists o',
    @processConfigs referenceParsers referenceKeys ∅ session unsetOptions
    = Configured o'
    /\ session !! "session.enable_dictionary" = Some "false"
    /\ dictionaryPageSizeLimit o' = Some 1024
    /\ @dictionary_pagesize_limit referenceBuilder
         (@builderSettings referenceBuilder referenceBuilderSettings o' tt tt)
       = 1048576.
Proof.
  intros session.
  assert (Hp : exists o',
             @processConfigs referenceParsers referenceKeys ∅ session
               unsetOptions = Configured o')
    by (eexists; vm_compute; reflexivity).
  destruct Hp as [o' Hp].
  assert (Hraw : session !! "session.enable_dictionary" = Some "false")
    by (vm_compute; reflexivity).
  exists o'. split; [exact Hp|]. split; [exact Hraw|]. split.
  - clear Hraw. vm_compute in Hp. injection Hp as <-. reflexivity.
  - exact (proj2 (@disabled_dictionary_ignores_limit referenceBuilder
                    referenceParsers referenceKeys ∅ session unsetOptions o'
                    referenceBuilderSettings tt tt "false" Hp eq_refl Hraw
                    eq_refl)).
Defined.

Lemma data_page_version_follows_configuration_witness :
  let connector : ConfigBase := {[ "connector.datapage_version" := "V2" ]} in
  exists o',
    @processConfigs referenceParsers referenceKeys connector ∅ unsetOptions
    = Configured o'
    /\ useParquetDataPageV2 unsetOptions = None
    /\ @data_page_version referenceBuilder
         (@builderSettings referenceBuilder referenceBuilderSettings o' tt tt)
       = V2.
Proof.
  intros connector.
  assert (Hp : exists o',
             @processConfigs referenceParsers referenceKeys connector ∅
               unsetOptions = Configured o')
    by (eexists; vm_compute; reflexivity).
  destruct Hp as [o' Hp]. exists o'. split; [exact Hp|].
  split; [reflexivity|].
  apply (@data_page_version_follows_configuration referenceBuilder
           referenceParsers referenceKeys connector ∅ unsetOptions o'
           referenceBuilderSettings tt tt Hp eq_refl).
  right. split; vm_compute; reflexivity.
Defined.

(** ** The staging sequences between construction and [close] *)

Section StagingUntilClose.
Context `{ArrowBridge} `{!ParquetEncoder} `{FlushPolicy} `{Destination}.

End StagingUntilClose.


